(** * exactextractr: the zonal-statistics and extraction drivers

    A shallow embedding of [src/exact_extract.cpp]: the two exported entry
    points [CPP_stats] and [CPP_exact_extract], with the collaborators they
    call (grids, windows, coverage provider, raster sources, statistics
    accumulators) kept behind interfaces.

    Conventions.
    - C++ [int] values are [Z]; the counters of this file stay far below
      the 32-bit range, so no wrap-around is written out.
    - C++ [double]/[float] values are an abstract type [num] with the
      operations the code applies to them; no law of arithmetic is
      assumed.  [Toy] instantiates it with fixed-point integers and
      [Binary64] with IEEE 754 binary64 numbers.
    - [Rcpp::stop] is an error result; calls to the coverage provider, to
      the window planner and to the raster sources are logged in a trace,
      so that "before any window is processed" is a statement about the
      trace being empty.  Failures inside those collaborators propagate
      unchanged through [CPP_stats] and are not modelled. *)

From Stdlib Require Import ZArith String List Permutation SpecFloat.
From stdpp Require Import base decidable countable gmap strings list list_numbers.

Local Open Scope string_scope.
Local Open Scope list_scope.
Local Open Scope Z_scope.

Local Infix "==" := String.eqb (at level 70, no associativity).

(** ** Collaborator interfaces *)

(** Everything [exact_extract.cpp] receives from its headers: the numeric
    type, grids and boxes, geometry parsing, the window planner and the
    coverage provider.  [Cell], [cov_cells] and [raster_at] are the
    cell-level view of a coverage raster and of a value raster (cell
    position on the lattice of the reconciled grid, fraction or value
    there), listed in row-major order.  [raster_vec] is the vector behind
    a [NumericVectorRaster], [raster_view_vec r g] the vector of
    [RasterView<double>(r, g)], and [SEXP] an R value passed through
    untouched. *)
Class World := {
  num : Type;
  num_eq_dec :: EqDecision num;
  num_countable :: Countable num;
  n0 : num;
  n1 : num;
  nhalf : num;
  nadd : num -> num -> num;
  nsub : num -> num -> num;
  nmul : num -> num -> num;
  ndiv : num -> num -> num;
  nsqrt : num -> num;
  nltb : num -> num -> bool;
  num_of_nat : nat -> num;

  Box : Type;
  Grid : Type;
  Geom : Type;
  Cell : Type;
  Raster : Type;
  CoverageRaster : Type;

  grid_dx : Grid -> num;
  grid_dy : Grid -> num;
  grid_extent : Grid -> Box;
  grid_crop : Grid -> Box -> Grid;
  grid_common_grid : Grid -> Grid -> Grid;
  grid_empty : Grid -> bool;
  grid_make_empty : Grid;
  box_intersects : Box -> Box -> bool;

  subdivide : Grid -> Z -> list Grid;
  read_wkb : list Byte.byte -> option Geom;
  geos_get_box : Geom -> Box;
  raster_cell_intersection : Grid -> Geom -> CoverageRaster;
  coverage_grid : CoverageRaster -> Grid;

  cov_cells : CoverageRaster -> list (Cell * num);
  raster_at : Raster -> Cell -> num;

  SEXP : Type;
  raster_vec : Raster -> list num;
  raster_view_vec : Raster -> Grid -> list num
}.

Section Driver.
Context `{W : World}.

(** An R raster object as the drivers use it: layer count, grid, and the
    block reader behind [S4RasterSource::read_box] (first argument: the
    default value for cells outside the raster). *)
Record S4 := {
  get_nlayers : Z;
  make_grid : Grid;
  getValuesBlock : num -> Box -> Z -> Raster;
  get_x_values : Grid -> list num;
  get_y_values : Grid -> list num;
  get_cell_numbers : Grid -> list num
}.

Record S4RasterSource := {
  src_rast : S4;
  src_default : num
}.

Definition rs_grid (s : S4RasterSource) : Grid := make_grid (src_rast s).

Definition read_box (s : S4RasterSource) (b : Box) (layer : Z) : Raster :=
  getValuesBlock (src_rast s) (src_default s) b layer.

(** A cell of an R numeric matrix: a double, or the [NA_REAL] sentinel. *)
Inductive rdouble :=
  | NA_REAL
  | Dbl (x : num).

Definition value_or_NA (o : option num) : rdouble :=
  match o with
  | Some x => Dbl x
  | None => NA_REAL
  end.

(** The interface of [RasterStats<double>] that [CPP_stats] calls. *)
Class RasterStatsOps := {
  RasterStats : Type;
  RasterStats_new : bool -> RasterStats;
  process : CoverageRaster -> Raster -> RasterStats -> RasterStats;
  process_weighted : CoverageRaster -> Raster -> Raster -> RasterStats -> RasterStats;
  rs_mean : RasterStats -> rdouble;
  rs_sum : RasterStats -> rdouble;
  rs_count : RasterStats -> rdouble;
  rs_min : RasterStats -> option num;
  rs_max : RasterStats -> option num;
  rs_quantile : RasterStats -> num -> option num;
  rs_mode : RasterStats -> option num;
  rs_minority : RasterStats -> option num;
  rs_variety : RasterStats -> rdouble;
  rs_weighted_mean : RasterStats -> rdouble;
  rs_weighted_sum : RasterStats -> rdouble;
  rs_variance : RasterStats -> rdouble;
  rs_stdev : RasterStats -> rdouble;
  rs_coefficient_of_variation : RasterStats -> rdouble
}.

(** ** Errors, events and the driver monad *)

Inductive error :=
  | InvalidMaxCells (n : Z)
  | IncompatibleLayers
  | GeometryError
  | DisaggregatedCountSum
  | QuantilesNotSpecified
  | UnknownStat (stat : string)
  | SubsetSizeMismatch
  | SubscriptOutOfBounds.

Inductive event :=
  | EvSubdivide (g : Grid) (max_size : Z)
  | EvCoverage (g : Grid)
  | EvReadValues (b : Box) (layer : Z)
  | EvReadWeights (b : Box) (layer : Z)
  | EvWarning (msg : string).

(** A computation logs collaborator calls and either stops with an error
    or returns. *)
Definition M (A : Type) : Type := (list event * (error + A))%type.

Definition stop {A} (e : error) : M A := ([], inl e).
Definition emit (ev : event) : M unit := ([ev], inr tt).

#[export] Instance M_ret : MRet M := fun A a => ([], inr a).
#[export] Instance M_bind : MBind M := fun A B f m =>
  match m with
  | (t, inl e) => (t, inl e)
  | (t, inr a) => let '(t', r) := f a in (t ++ t', r)
  end.

Definition trace_of {A} (m : M A) : list event := fst m.
Definition outcome {A} (m : M A) : error + A := snd m.

(** [for (x : l) body] with the loop-carried state [s]. *)
Fixpoint for_each {A S} (l : list A) (body : A -> S -> M S) (s : S) : M S :=
  match l with
  | [] => mret s
  | x :: l' => s' ← body x s; for_each l' body s'
  end.

(** [for (int i = 0; i < n; i++) body]. *)
Definition for_range {S} (n : Z) (body : Z -> S -> M S) (s : S) : M S :=
  for_each (seqZ 0 n) body s.

(** ** The statistics matrix *)

(** [Rcpp::NumericMatrix]: dimensions and the cells written so far; a
    matrix made with [Rcpp::no_init] has no cell written. *)
Record NumericMatrix := {
  nrow : Z;
  ncol : Z;
  mdata : gmap (Z * Z) rdouble
}.

Definition no_init (r c : Z) : NumericMatrix :=
  {| nrow := r; ncol := c; mdata := ∅ |}.

(** [m(j, i) = v] *)
Definition mset (m : NumericMatrix) (j i : Z) (v : rdouble) : NumericMatrix :=
  {| nrow := nrow m; ncol := ncol m; mdata := <[(j, i) := v]> (mdata m) |}.

Definition mget (m : NumericMatrix) (j i : Z) : option rdouble :=
  mdata m !! (j, i).

(** ** [CPP_stats] *)

(** Modelled from the spec: [requires_stored_values] is declared in
    raster_utils.h, which is not part of the source at hand.  The spec
    lists the distribution-dependent statistics as mode (majority),
    minority, variety, quantile and median. *)
Definition requires_stored_values (stat : string) : bool :=
  (stat == "mode") || (stat == "majority") || (stat == "minority") ||
  (stat == "variety") || (stat == "quantile") || (stat == "median").

(** Lines 228-252: the loop over the requested statistics that sizes the
    result and rejects what cannot be computed. *)
Fixpoint validate_stats (disaggregated : bool) (quantiles : option (list num))
    (stats : list string) (store_values : bool) (stat_result_size : Z)
    : M (bool * Z) :=
  match stats with
  | [] => mret (store_values, stat_result_size)
  | stat :: rest =>
    let store_values := store_values || requires_stored_values stat in
    if disaggregated && ((stat == "count") || (stat == "sum")) then
      stop DisaggregatedCountSum
    else if stat == "quantile" then
      let num_quantiles :=
        match quantiles with
        | Some qvec => Z.of_nat (length qvec)
        | None => 0
        end in
      if num_quantiles =? 0 then stop QuantilesNotSpecified
      else validate_stats disaggregated quantiles rest store_values
             (stat_result_size + num_quantiles)
    else validate_stats disaggregated quantiles rest store_values
           (stat_result_size + 1)
  end.

Definition call_subdivide (g : Grid) (max_size : Z) : M (list Grid) :=
  _ ← emit (EvSubdivide g max_size); mret (subdivide g max_size).

Definition call_coverage (subgrid : Grid) (geom : Geom) : M CoverageRaster :=
  _ ← emit (EvCoverage subgrid); mret (raster_cell_intersection subgrid geom).

Definition read_values (rsrc : S4RasterSource) (b : Box) (i : Z) : M Raster :=
  _ ← emit (EvReadValues b i); mret (read_box rsrc b i).

Definition read_weights (rweights : S4RasterSource) (b : Box) (i : Z) : M Raster :=
  _ ← emit (EvReadWeights b i); mret (read_box rweights b i).

Context `{RSO : RasterStatsOps}.

(** Lines 271-304: one window.  [raster_stats[i].process(...)] updates the
    accumulator of row [i] in place; every index used is below
    [max nlayers nweights], the length of [raster_stats]. *)
Definition process_window (rsrc : S4RasterSource) (rweights : option S4RasterSource)
    (nlayers nweights : Z) (coverage_fraction : CoverageRaster)
    (raster_stats : list RasterStats) : M (list RasterStats) :=
  let cov_grid := coverage_grid coverage_fraction in
  if negb (grid_empty cov_grid) then
    match rweights with
    | Some rw =>
      if nweights <? nlayers then
        (* recycle weights *)
        weights ← read_weights rw (grid_extent cov_grid) 0;
        for_range nlayers (fun i raster_stats =>
          values ← read_values rsrc (grid_extent cov_grid) i;
          mret (alter (process_weighted coverage_fraction values weights)
                      (Z.to_nat i) raster_stats)) raster_stats
      else if nlayers <? nweights then
        (* recycle values *)
        values ← read_values rsrc (grid_extent cov_grid) 0;
        for_range nweights (fun i raster_stats =>
          weights ← read_weights rw (grid_extent cov_grid) i;
          mret (alter (process_weighted coverage_fraction values weights)
                      (Z.to_nat i) raster_stats)) raster_stats
      else
        (* process values and weights in parallel *)
        for_range nlayers (fun i raster_stats =>
          values ← read_values rsrc (grid_extent cov_grid) i;
          weights ← read_weights rw (grid_extent cov_grid) i;
          mret (alter (process_weighted coverage_fraction values weights)
                      (Z.to_nat i) raster_stats)) raster_stats
    | None =>
      for_range nlayers (fun i raster_stats =>
        values ← read_values rsrc (grid_extent cov_grid) i;
        mret (alter (process coverage_fraction values)
                    (Z.to_nat i) raster_stats)) raster_stats
    end
  else mret raster_stats.

(** Lines 267-305: the loop over the sub-grids. *)
Definition process_subgrids (rsrc : S4RasterSource) (rweights : option S4RasterSource)
    (nlayers nweights : Z) (geom : Geom) (subgrids : list Grid)
    (raster_stats : list RasterStats) : M (list RasterStats) :=
  for_each subgrids (fun subgrid raster_stats =>
    coverage_fraction ← call_coverage subgrid geom;
    process_window rsrc rweights nlayers nweights coverage_fraction raster_stats)
    raster_stats.

(** Lines 264-306: the windows are visited only when the bounding box of
    the geometry meets the grid. *)
Definition accumulate (rsrc : S4RasterSource) (rweights : option S4RasterSource)
    (nlayers nweights : Z) (geom : Geom) (grid : Grid) (max_cells_in_memory : Z)
    (raster_stats : list RasterStats) : M (list RasterStats) :=
  let bbox := geos_get_box geom in
  if box_intersects bbox (grid_extent grid) then
    let cropped_grid := grid_crop grid bbox in
    subgrids ← call_subdivide cropped_grid max_cells_in_memory;
    process_subgrids rsrc rweights nlayers nweights geom subgrids raster_stats
  else mret raster_stats.

(** Lines 313-342: the dispatch on one statistic name; [i] is the next
    free column of row [j]. *)
Definition write_stat (rs : RasterStats) (quantiles : option (list num)) (j : Z)
    (stat : string) (st : NumericMatrix * Z) : M (NumericMatrix * Z) :=
  let '(stat_results, i) := st in
  if stat == "mean" then mret (mset stat_results j i (rs_mean rs), i + 1)
  else if stat == "sum" then mret (mset stat_results j i (rs_sum rs), i + 1)
  else if stat == "count" then mret (mset stat_results j i (rs_count rs), i + 1)
  else if stat == "min" then
    mret (mset stat_results j i (value_or_NA (rs_min rs)), i + 1)
  else if stat == "max" then
    mret (mset stat_results j i (value_or_NA (rs_max rs)), i + 1)
  else if stat == "median" then
    mret (mset stat_results j i (value_or_NA (rs_quantile rs nhalf)), i + 1)
  else if stat == "mode" then
    mret (mset stat_results j i (value_or_NA (rs_mode rs)), i + 1)
  else if stat == "majority" then
    mret (mset stat_results j i (value_or_NA (rs_mode rs)), i + 1)
  else if stat == "minority" then
    mret (mset stat_results j i (value_or_NA (rs_minority rs)), i + 1)
  else if stat == "variety" then
    mret (mset stat_results j i (rs_variety rs), i + 1)
  else if stat == "weighted_mean" then
    mret (mset stat_results j i (rs_weighted_mean rs), i + 1)
  else if stat == "weighted_sum" then
    mret (mset stat_results j i (rs_weighted_sum rs), i + 1)
  else if stat == "variance" then
    mret (mset stat_results j i (rs_variance rs), i + 1)
  else if stat == "stdev" then
    mret (mset stat_results j i (rs_stdev rs), i + 1)
  else if stat == "coefficient_of_variation" then
    mret (mset stat_results j i (rs_coefficient_of_variation rs), i + 1)
  else if stat == "quantile" then
    (* reached only after the validation loop has found [quantiles]
       non-null and non-empty, so the default is never used *)
    let qvec := default [] quantiles in
    mret (fold_left (fun '(m, i) q =>
                       (mset m j i (value_or_NA (rs_quantile rs q)), i + 1))
                    qvec (stat_results, i))
  else stop (UnknownStat stat).

(** Lines 308-344: one row per accumulator.  [raster_stats] has [nresults]
    elements, so the lookup always succeeds. *)
Definition write_results (raster_stats : list RasterStats) (stats : list string)
    (quantiles : option (list num)) (nresults : Z) (stat_results : NumericMatrix)
    : M NumericMatrix :=
  for_range nresults (fun j stat_results =>
    match raster_stats !! Z.to_nat j with
    | Some rs =>
      '(stat_results, _) ← for_each stats (write_stat rs quantiles j) (stat_results, 0);
      mret stat_results
    | None => mret stat_results
    end) stat_results.

Definition CPP_stats (rast : S4) (weights : option S4) (wkb : list Byte.byte)
    (default_value default_weight : num) (stats : list string)
    (max_cells_in_memory : Z) (quantiles : option (list num)) : M NumericMatrix :=
  if max_cells_in_memory <? 1 then stop (InvalidMaxCells max_cells_in_memory)
  else
    let nlayers := get_nlayers rast in
    let rsrc := {| src_rast := rast; src_default := default_value |} in
    (* [rweights] is [Some] exactly when [weighted] is true *)
    '(rweights, nweights) ←
      match weights with
      | Some weights_s4 =>
        let nweights := get_nlayers weights_s4 in
        if (1 <? nlayers) && (1 <? nweights) && negb (nlayers =? nweights)
        then stop IncompatibleLayers
        else mret (Some {| src_rast := weights_s4; src_default := default_weight |},
                   nweights)
      | None => mret (None, 0)
      end;
    geom ← match read_wkb wkb with
           | Some g => mret g
           | None => stop GeometryError
           end;
    let bbox := geos_get_box geom in
    let grid :=
      match rweights with
      | Some rw => grid_common_grid (rs_grid rsrc) (rs_grid rw)
      | None => rs_grid rsrc
      end in
    let disaggregated :=
      nltb (grid_dx grid) (grid_dx (rs_grid rsrc)) ||
      nltb (grid_dy grid) (grid_dy (rs_grid rsrc)) in
    '(store_values, stat_result_size) ←
      validate_stats disaggregated quantiles stats false 0;
    let nresults := Z.max nlayers nweights in
    let raster_stats := replicate (Z.to_nat nresults) (RasterStats_new store_values) in
    let stat_results := no_init nresults stat_result_size in
    raster_stats ←
      accumulate rsrc rweights nlayers nweights geom grid max_cells_in_memory
        raster_stats;
    write_results raster_stats stats quantiles nresults stat_results.

(** ** [CPP_exact_extract] *)

(** A column of the extraction table: a pass-through value or a numeric
    vector. *)
Inductive column :=
  | ColPass (v : SEXP)
  | ColNum (v : list num).

(** [Rcpp::List] with names: elements in order, each with its name. *)
Definition named_list : Type := list (string * column).

(** [l.containsElementNamed(name)] *)
Definition containsElementNamed (l : named_list) (name : string) : bool :=
  existsb (fun e => fst e == name) l.

(** [l[name] = v]: Rcpp assigns to the first element of that name, and
    appends a new element when there is none. *)
Fixpoint set_named (l : named_list) (name : string) (v : column) : named_list :=
  match l with
  | [] => [(name, v)]
  | (n, x) :: l' =>
    if n == name then (n, v) :: l' else (n, x) :: set_named l' name v
  end.

(** [l[name]] read: the first element of that name. *)
Fixpoint get_named {A} (l : list (string * A)) (name : string) : option A :=
  match l with
  | [] => None
  | (n, x) :: l' => if n == name then Some x else get_named l' name
  end.

(** [v[mask]]: Rcpp's logical subsetting stops unless both vectors have
    the same size. *)
Fixpoint mask_select (v : list num) (mask : list bool) : list num :=
  match v, mask with
  | x :: v', b :: mask' =>
    if b then x :: mask_select v' mask' else mask_select v' mask'
  | _, _ => []
  end.

Definition subset_logical (v : list num) (mask : list bool) : M (list num) :=
  if (length v =? length mask)%nat then mret (mask_select v mask)
  else stop SubsetSizeMismatch.

(** [as_vector] of a coverage raster: the fractions of its cells. *)
Definition coverage_vector (cov : CoverageRaster) : list num :=
  map snd (cov_cells cov).

(** [names[i]] *)
Definition name_at (names : list string) (i : Z) : M string :=
  match names !! Z.to_nat i with
  | Some n => mret n
  | None => stop SubscriptOutOfBounds
  end.

(** Lines 84-180: the columns, once the grids and the weight source are
    set up. *)
Definition extract_table (rast : S4) (weights : option S4)
    (wkb : list Byte.byte) (include_xy include_cell_number : bool)
    (include_cols : option (list (string * SEXP))) (src_names : list string)
    (grid weights_grid common_grid : Grid) (rsrc : S4RasterSource)
    (rweights : option S4RasterSource) (weights_nlayers : Z)
    (weights_names : list string) : M named_list :=
  let src_nlayers := get_nlayers rast in
  geom ← match read_wkb wkb with
         | Some g => mret g
         | None => stop GeometryError
         end;
  let bbox := geos_get_box geom in
  let common_grid := grid_crop common_grid bbox in
  coverage_fractions ← call_coverage common_grid geom;
  let cov_grid := coverage_grid coverage_fractions in
  let cols : named_list := [] in
  let coverage_fraction_vec := coverage_vector coverage_fractions in
  let covered := map (fun c => nltb n0 c) coverage_fraction_vec in
  cols ←
    match include_cols with
    | Some include_cols_list =>
      for_each (map fst include_cols_list) (fun name cols =>
        match get_named include_cols_list name with
        | Some v => mret (set_named cols name (ColPass v))
        | None => stop SubscriptOutOfBounds
        end) cols
    | None => mret cols
    end;
  cols ← for_range src_nlayers (fun i cols =>
    r ← read_values rsrc (grid_extent cov_grid) i;
    let value_vec := raster_vec r in
    let value_vec :=
      if negb (bool_decide (grid_dx grid = grid_dx common_grid)) ||
         negb (bool_decide (grid_dy grid = grid_dy common_grid)) ||
         negb (length value_vec =? length covered)%nat
      then raster_view_vec r common_grid
      else value_vec in
    value_vec ← subset_logical value_vec covered;
    name ← name_at src_names i;
    mret (set_named cols name (ColNum value_vec))) cols;
  cols ← for_range weights_nlayers (fun i cols =>
    match rweights with
    | Some rw =>
      r ← read_weights rw (grid_extent cov_grid) i;
      let weight_vec := raster_vec r in
      let weight_vec :=
        if negb (bool_decide (grid_dx weights_grid = grid_dx common_grid)) ||
           negb (bool_decide (grid_dy weights_grid = grid_dy common_grid)) ||
           negb (length weight_vec =? length covered)%nat
        then raster_view_vec r common_grid
        else weight_vec in
      weight_vec ← subset_logical weight_vec covered;
      colname ← name_at weights_names i;
      let colname :=
        if containsElementNamed cols colname
        then String.append colname ".1"
        else colname in
      mret (set_named cols colname (ColNum weight_vec))
    | None => mret cols
    end) cols;
  cols ←
    (if include_xy then
       let src :=
         match weights with
         | Some weights_s4 =>
           if (0 <? weights_nlayers) &&
              (nltb (grid_dx weights_grid) (grid_dx grid) ||
               nltb (grid_dy weights_grid) (grid_dy grid))
           then weights_s4 else rast
         | None => rast
         end in
       x ← subset_logical (get_x_values src cov_grid) covered;
       let cols := set_named cols "x" (ColNum x) in
       y ← subset_logical (get_y_values src cov_grid) covered;
       mret (set_named cols "y" (ColNum y))
     else mret cols);
  cols ←
    (if include_cell_number then
       cell ← subset_logical (get_cell_numbers rast cov_grid) covered;
       mret (set_named cols "cell" (ColNum cell))
     else mret cols);
  cf ← subset_logical coverage_fraction_vec covered;
  mret (set_named cols "coverage_fraction" (ColNum cf)).

(** Lines 60-82 set up the grids and the weight source; without weights
    the common grid is the grid of the value raster. *)
Definition CPP_exact_extract (rast : S4) (weights : option S4)
    (wkb : list Byte.byte) (default_value default_weight : num)
    (include_xy include_cell_number : bool)
    (include_cols : option (list (string * SEXP)))
    (src_names : list string) (p_weights_names : option (list string))
    (warn_on_disaggregate : bool) : M named_list :=
  let grid := make_grid rast in
  let rsrc := {| src_rast := rast; src_default := default_value |} in
  '(weights_grid, common_grid, rweights, weights_nlayers, weights_names) ←
    match weights with
    | Some weights_s4 =>
      let weights_nlayers := get_nlayers weights_s4 in
      let weights_grid := make_grid weights_s4 in
      let common_grid := grid_common_grid grid weights_grid in
      let rweights := {| src_rast := weights_s4; src_default := default_weight |} in
      let weights_names := default [] p_weights_names in
      _ ← (if warn_on_disaggregate &&
              (nltb (grid_dx common_grid) (grid_dx grid) ||
               nltb (grid_dy common_grid) (grid_dy grid))
           then emit (EvWarning
             "value raster implicitly disaggregated to match higher resolution of weights")
           else mret tt);
      mret (weights_grid, common_grid, Some rweights, weights_nlayers, weights_names)
    | None => mret (grid_make_empty, grid, None, 0, [])
    end;
  extract_table rast weights wkb include_xy include_cell_number include_cols
    src_names grid weights_grid common_grid rsrc rweights weights_nlayers
    weights_names.

End Driver.

(** ** The statistics accumulator of the spec *)

(** The quantile rule the spec leaves open: from the distinct values in
    increasing order with their cumulative coverage weights, the total
    weight and the fraction [q], the quantile. *)
Class QuantileRule `{W : World} := {
  quantile_rule : list (num * num) -> num -> num -> num
}.

Section SpecStats.
Context `{W : World} `{QR : !QuantileRule}.

(** Modelled from the spec: [RasterStats<double>] is declared in
    exactextract/src/raster_stats.h, which is not part of the source at
    hand.  Spec section 3 gives the running state: coverage-weighted
    count, sum, sum of squares, sum of weights, weighted sum, min, max and,
    if a distribution-dependent statistic was requested, the mapping from
    distinct value to cumulative coverage weight. *)
Record StatsAccumulator := {
  acc_store_values : bool;
  sum_ci : num;
  sum_xici : num;
  sum_x2ici : num;
  sum_ciwi : num;
  sum_xiciwi : num;
  acc_min : option num;
  acc_max : option num;
  acc_freq : gmap num num
}.

(** Modelled from the spec: an accumulator is created empty, once per
    output row. *)
Definition acc_new (store_values : bool) : StatsAccumulator :=
  {| acc_store_values := store_values;
     sum_ci := n0; sum_xici := n0; sum_x2ici := n0;
     sum_ciwi := n0; sum_xiciwi := n0;
     acc_min := None; acc_max := None;
     acc_freq := ∅ |}.

Definition nmin (a b : num) : num := if nltb a b then a else b.
Definition nmax (a b : num) : num := if nltb a b then b else a.

Definition opt_merge (f : num -> num -> num) (o : option num) (v : num) : option num :=
  match o with
  | None => Some v
  | Some m => Some (f m v)
  end.

(** Modelled from the spec: section 4.4, the contribution of one covered
    cell with coverage [c], value [v] and weight [w]: scalar accumulators
    by addition, the value-to-weight mapping by union and add. *)
Definition process_value (a : StatsAccumulator) (v c w : num) : StatsAccumulator :=
  {| acc_store_values := acc_store_values a;
     sum_ci := nadd (sum_ci a) c;
     sum_xici := nadd (sum_xici a) (nmul v c);
     sum_x2ici := nadd (sum_x2ici a) (nmul (nmul v v) c);
     sum_ciwi := nadd (sum_ciwi a) (nmul c w);
     sum_xiciwi := nadd (sum_xiciwi a) (nmul (nmul v c) w);
     acc_min := opt_merge nmin (acc_min a) v;
     acc_max := opt_merge nmax (acc_max a) v;
     acc_freq :=
       if acc_store_values a
       then <[v := nadd (default n0 (acc_freq a !! v)) c]> (acc_freq a)
       else acc_freq a |}.

(** The (value, coverage, weight) triples of the covered cells of a
    window; a cell with fraction 0 is not covered. *)
Definition covered_triples (cov : CoverageRaster) (value weight : Cell -> num)
    : list (num * num * num) :=
  omap (fun '(cell, c) =>
          if nltb n0 c then Some (value cell, c, weight cell) else None)
       (cov_cells cov).

Definition process_triples (a : StatsAccumulator) (l : list (num * num * num))
    : StatsAccumulator :=
  fold_left (fun a '(v, c, w) => process_value a v c w) l a.

(** Modelled from the spec: all sums are taken over the covered cells of
    the window; without weights every weight is 1. *)
Definition acc_process_weighted (cov : CoverageRaster) (values weights : Raster)
    (a : StatsAccumulator) : StatsAccumulator :=
  process_triples a (covered_triples cov (raster_at values) (raster_at weights)).

Definition acc_process (cov : CoverageRaster) (values : Raster)
    (a : StatsAccumulator) : StatsAccumulator :=
  process_triples a (covered_triples cov (raster_at values) (fun _ => n1)).

(** Modelled from the spec: "any statistic evaluated with count == 0
    returns a missing-value sentinel, except count (0) and variety (0)". *)
Definition no_cells (a : StatsAccumulator) : bool := bool_decide (sum_ci a = n0).

Definition guarded (a : StatsAccumulator) (x : num) : rdouble :=
  if no_cells a then NA_REAL else Dbl x.

Definition guarded_opt (a : StatsAccumulator) (x : option num) : option num :=
  if no_cells a then None else x.

(** Modelled from the spec: the formulas of section 4.4 on the running
    state; the variance is the mean of the squares minus the square of
    the mean. *)
Definition acc_count (a : StatsAccumulator) : rdouble := Dbl (sum_ci a).
Definition mean_value (a : StatsAccumulator) : num := ndiv (sum_xici a) (sum_ci a).
Definition variance_value (a : StatsAccumulator) : num :=
  nsub (ndiv (sum_x2ici a) (sum_ci a)) (nmul (mean_value a) (mean_value a)).

Definition acc_sum (a : StatsAccumulator) : rdouble := guarded a (sum_xici a).
Definition acc_mean (a : StatsAccumulator) : rdouble := guarded a (mean_value a).
Definition acc_weighted_sum (a : StatsAccumulator) : rdouble := guarded a (sum_xiciwi a).
Definition acc_weighted_mean (a : StatsAccumulator) : rdouble :=
  guarded a (ndiv (sum_xiciwi a) (sum_ciwi a)).
Definition acc_variance (a : StatsAccumulator) : rdouble := guarded a (variance_value a).
Definition acc_stdev (a : StatsAccumulator) : rdouble :=
  guarded a (nsqrt (variance_value a)).
Definition acc_coefficient_of_variation (a : StatsAccumulator) : rdouble :=
  guarded a (ndiv (nsqrt (variance_value a)) (mean_value a)).
Definition acc_min_value (a : StatsAccumulator) : option num := guarded_opt a (acc_min a).
Definition acc_max_value (a : StatsAccumulator) : option num := guarded_opt a (acc_max a).

(** Modelled from the spec: the distribution-dependent statistics read
    the value-to-weight mapping, its distinct values taken in increasing
    order. *)
Fixpoint insert_sorted (e : num * num) (l : list (num * num)) : list (num * num) :=
  match l with
  | [] => [e]
  | e' :: l' => if nltb (fst e') (fst e) then e' :: insert_sorted e l' else e :: l
  end.

Definition sorted_entries (a : StatsAccumulator) : list (num * num) :=
  foldr insert_sorted [] (map_to_list (acc_freq a)).

Definition acc_variety (a : StatsAccumulator) : rdouble :=
  if no_cells a then Dbl n0 else Dbl (num_of_nat (size (acc_freq a))).

(** The entry preferred by [better]; among equally good entries the
    smallest value (the spec leaves ties open). *)
Definition best_entry (better : num -> num -> bool) (l : list (num * num))
    : option num :=
  fst <$> fold_left (fun best e =>
            match best with
            | None => Some e
            | Some b => if better (snd e) (snd b) then Some e else Some b
            end) l None.

Definition acc_mode (a : StatsAccumulator) : option num :=
  guarded_opt a (best_entry (fun x y => nltb y x) (sorted_entries a)).

Definition acc_minority (a : StatsAccumulator) : option num :=
  guarded_opt a (best_entry nltb
                   (filter (fun e => nltb n0 (snd e) = true) (sorted_entries a))).

Definition acc_quantile (a : StatsAccumulator) (q : num) : option num :=
  guarded_opt a (Some (quantile_rule (sorted_entries a) (sum_ci a) q)).

Definition spec_stats : RasterStatsOps := {|
  RasterStats := StatsAccumulator;
  RasterStats_new := acc_new;
  process := acc_process;
  process_weighted := acc_process_weighted;
  rs_mean := acc_mean;
  rs_sum := acc_sum;
  rs_count := acc_count;
  rs_min := acc_min_value;
  rs_max := acc_max_value;
  rs_quantile := acc_quantile;
  rs_mode := acc_mode;
  rs_minority := acc_minority;
  rs_variety := acc_variety;
  rs_weighted_mean := acc_weighted_mean;
  rs_weighted_sum := acc_weighted_sum;
  rs_variance := acc_variance;
  rs_stdev := acc_stdev;
  rs_coefficient_of_variation := acc_coefficient_of_variation
|}.

End SpecStats.

(** ** A small concrete world

    Integer-lattice grids, rectangles as geometries and fixed-point numbers
    with three decimals ([1000] is 1.0).  It serves to run the drivers on
    concrete requests. *)
Module Toy.

Record TBox := { xmin : Z; ymin : Z; xmax : Z; ymax : Z }.

Record TGrid := { g_box : TBox; g_dx : Z; g_dy : Z }.

Record TRaster := { r_at : Z * Z -> Z; r_vec : list Z }.

Record TCoverage := { c_grid : TGrid; c_cells : list ((Z * Z) * Z) }.

Definition box_is_empty (b : TBox) : bool :=
  (xmax b <=? xmin b) || (ymax b <=? ymin b).

Definition box_meet (a b : TBox) : TBox :=
  {| xmin := Z.max (xmin a) (xmin b); ymin := Z.max (ymin a) (ymin b);
     xmax := Z.min (xmax a) (xmax b); ymax := Z.min (ymax a) (ymax b) |}.

Definition t_intersects (a b : TBox) : bool :=
  negb ((xmax a <? xmin b) || (xmax b <? xmin a) ||
        (ymax a <? ymin b) || (ymax b <? ymin a)).

Definition t_cols (g : TGrid) : Z := (xmax (g_box g) - xmin (g_box g)) / g_dx g.
Definition t_rows (g : TGrid) : Z := (ymax (g_box g) - ymin (g_box g)) / g_dy g.

Definition t_empty (g : TGrid) : bool := (t_cols g <=? 0) || (t_rows g <=? 0).

(** Cells in row-major order from the top row, each named by its lower
    left corner. *)
Definition t_cells (g : TGrid) : list (Z * Z) :=
  flat_map (fun r =>
    map (fun c => (xmin (g_box g) + c * g_dx g, ymax (g_box g) - (r + 1) * g_dy g))
        (seqZ 0 (t_cols g)))
    (seqZ 0 (t_rows g)).

Definition t_crop (g : TGrid) (b : TBox) : TGrid :=
  {| g_box := box_meet (g_box g) b; g_dx := g_dx g; g_dy := g_dy g |}.

Definition t_common_grid (a b : TGrid) : TGrid :=
  {| g_box := box_meet (g_box a) (g_box b);
     g_dx := Z.min (g_dx a) (g_dx b); g_dy := Z.min (g_dy a) (g_dy b) |}.

Definition t_make_empty : TGrid :=
  {| g_box := {| xmin := 0; ymin := 0; xmax := 0; ymax := 0 |}; g_dx := 1; g_dy := 1 |}.

(** Row-major tiles of at most [max_size] cells. *)
Definition t_subdivide (g : TGrid) (max_size : Z) : list TGrid :=
  if t_cols g * t_rows g <? max_size then [g]
  else
    let cols_per_block := Z.min max_size (t_cols g) in
    let rows_per_block := max_size / cols_per_block in
    let col_blocks := (t_cols g - 1) / cols_per_block + 1 in
    let row_blocks := (t_rows g - 1) / rows_per_block + 1 in
    flat_map (fun i =>
      map (fun j =>
        {| g_box :=
             {| xmin := xmin (g_box g) + g_dx g * cols_per_block * j;
                xmax := if j =? col_blocks - 1 then xmax (g_box g)
                        else xmin (g_box g) + g_dx g * cols_per_block * (j + 1);
                ymax := ymax (g_box g) - g_dy g * rows_per_block * i;
                ymin := if i =? row_blocks - 1 then ymin (g_box g)
                        else ymax (g_box g) - g_dy g * rows_per_block * (i + 1) |};
           g_dx := g_dx g; g_dy := g_dy g |})
        (seqZ 0 col_blocks))
      (seqZ 0 row_blocks).

(** A geometry is a rectangle, encoded as four bytes. *)
Definition t_read_wkb (wkb : list Byte.byte) : option TBox :=
  match wkb with
  | [a; b; c; d] =>
    Some {| xmin := Z.of_nat (Byte.to_nat a); ymin := Z.of_nat (Byte.to_nat b);
            xmax := Z.of_nat (Byte.to_nat c); ymax := Z.of_nat (Byte.to_nat d) |}
  | _ => None
  end.

(** The covered fraction of the cell at [(x, y)]: overlap area over cell
    area. *)
Definition t_fraction (dx dy : Z) (geom : TBox) (cell : Z * Z) : Z :=
  let '(x, y) := cell in
  let w := Z.max 0 (Z.min (xmax geom) (x + dx) - Z.max (xmin geom) x) in
  let h := Z.max 0 (Z.min (ymax geom) (y + dy) - Z.max (ymin geom) y) in
  w * h * 1000 / (dx * dy).

Definition t_raster_cell_intersection (g : TGrid) (geom : TBox) : TCoverage :=
  {| c_grid := g;
     c_cells := map (fun cell => (cell, t_fraction (g_dx g) (g_dy g) geom cell))
                    (t_cells g) |}.

#[export] Instance toy_world : World := {|
  num := Z;
  n0 := 0;
  n1 := 1000;
  nhalf := 500;
  nadd := Z.add;
  nsub := Z.sub;
  nmul := fun a b => a * b / 1000;
  ndiv := fun a b => a * 1000 / b;
  nsqrt := fun a => Z.sqrt (a * 1000);
  nltb := Z.ltb;
  num_of_nat := fun n => 1000 * Z.of_nat n;
  Box := TBox;
  Grid := TGrid;
  Geom := TBox;
  Cell := Z * Z;
  Raster := TRaster;
  CoverageRaster := TCoverage;
  grid_dx := fun g => 1000 * g_dx g;
  grid_dy := fun g => 1000 * g_dy g;
  grid_extent := g_box;
  grid_crop := t_crop;
  grid_common_grid := t_common_grid;
  grid_empty := t_empty;
  grid_make_empty := t_make_empty;
  box_intersects := t_intersects;
  subdivide := t_subdivide;
  read_wkb := t_read_wkb;
  geos_get_box := fun g => g;
  raster_cell_intersection := t_raster_cell_intersection;
  coverage_grid := c_grid;
  cov_cells := c_cells;
  raster_at := r_at;
  SEXP := string;
  raster_vec := r_vec;
  raster_view_vec := fun r g => map (r_at r) (t_cells g)
|}.

(** A raster whose layer [l] holds [value l col row] in the cell at column
    [col] and row [row] (counted from the bottom left corner of the
    lattice), read by nearest-cell lookup. *)
Definition t_raster (g : TGrid) (nlayers : Z) (value : Z -> Z -> Z -> Z) : S4 :=
  let at_cell default layer (cell : Z * Z) :=
    let '(x, y) := cell in
    if (xmin (g_box g) <=? x) && (x <? xmax (g_box g)) &&
       (ymin (g_box g) <=? y) && (y <? ymax (g_box g))
    then value layer (x / g_dx g) (y / g_dy g)
    else default in
  {| get_nlayers := nlayers;
     make_grid := g;
     getValuesBlock := fun default box layer =>
       {| r_at := at_cell default layer;
          r_vec := map (at_cell default layer)
                       (t_cells {| g_box := box; g_dx := g_dx g; g_dy := g_dy g |}) |};
     get_x_values := fun cg => map (fun cell => 1000 * fst cell + 500 * g_dx cg) (t_cells cg);
     get_y_values := fun cg => map (fun cell => 1000 * snd cell + 500 * g_dy cg) (t_cells cg);
     get_cell_numbers := fun cg =>
       map (fun cell =>
              1000 * ((t_rows g - 1 - (snd cell - ymin (g_box g)) / g_dy g) * t_cols g
                      + (fst cell - xmin (g_box g)) / g_dx g + 1))
           (t_cells cg) |}.

(** The smallest value whose cumulative weight exceeds [q] of the total;
    the midpoint to the next value when it meets it exactly. *)
Fixpoint t_quantile (l : list (Z * Z)) (total q cum : Z) : Z :=
  match l with
  | [] => 0
  | e :: l' =>
    match l' with
    | [] => fst e
    | e' :: _ =>
      if q * total / 1000 <? cum + snd e then fst e
      else if q * total / 1000 =? cum + snd e then (fst e + fst e') / 2
      else t_quantile l' total q (cum + snd e)
    end
  end.

#[export] Instance toy_quantile : QuantileRule :=
  {| quantile_rule := fun l total q => t_quantile l total q 0 |}.

Definition unit_grid (x0 y0 x1 y1 : Z) : TGrid :=
  {| g_box := {| xmin := x0; ymin := y0; xmax := x1; ymax := y1 |};
     g_dx := 1; g_dy := 1 |}.

(** The 2x2 raster of the spec's scenario: values 1, 2, 3, 4 row-major
    from the top left. *)
Definition square_values (_ col row : Z) : Z :=
  1000 * (if row =? 1 then 1 + col else 3 + col).

Definition square : S4 := t_raster (unit_grid 0 0 2 2) 1 square_values.

Definition wkb_of (x0 y0 x1 y1 : nat) : list Byte.byte :=
  map (fun n => default Byte.x00 (Byte.of_nat n)) [x0; y0; x1; y1].

(** Rasters on the same 2x2 lattice: [nlayers] layers whose cells depend
    on the layer, and [nlayers] identical layers. *)
Definition layered (nlayers : Z) : S4 :=
  t_raster (unit_grid 0 0 2 2) nlayers (fun l col row => 1000 * (10 * l + 2 * row + col)).

Definition uniform (nlayers v : Z) : S4 :=
  t_raster (unit_grid 0 0 2 2) nlayers (fun _ _ _ => v).

(** A 2x2 raster of cell size 2 over the extent of a 4x4 raster of cell
    size 1. *)
Definition coarse : S4 :=
  t_raster {| g_box := {| xmin := 0; ymin := 0; xmax := 4; ymax := 4 |};
              g_dx := 2; g_dy := 2 |} 1
           (fun _ col row => 1000 * (2 * row + col)).

Definition fine : S4 :=
  t_raster (unit_grid 0 0 4 4) 1 (fun _ col row => 1000 * (1 + col + row)).

End Toy.

(** ** A world of IEEE 754 binary64 numbers

    The numbers are those of [SpecFloat] at precision 53 and maximal
    exponent 1024, with round-to-nearest-even operations: the [double] of
    the C++ code.  Grids, boxes and geometries are those of [Toy]; the
    window planner cuts full-height bands of columns. *)

Module Binary64.
Import Toy.

Definition b64 : Type := spec_float.

#[local] Instance b64_eq_dec : EqDecision b64.
Proof. solve_decision. Defined.

Definition b64_code (x : b64) : (bool + bool) + (unit + bool * positive * Z) :=
  match x with
  | S754_zero s => inl (inl s)
  | S754_infinity s => inl (inr s)
  | S754_nan => inr (inl tt)
  | S754_finite s m e => inr (inr (s, m, e))
  end.

Definition b64_decode (c : (bool + bool) + (unit + bool * positive * Z)) : b64 :=
  match c with
  | inl (inl s) => S754_zero s
  | inl (inr s) => S754_infinity s
  | inr (inl _) => S754_nan
  | inr (inr (s, m, e)) => S754_finite s m e
  end.

#[local] Instance b64_countable : Countable b64.
Proof.
  apply (inj_countable' b64_code b64_decode). intros []; reflexivity.
Defined.
















End Binary64.

(** ** Notions used in the statements *)

Section Notions.
Context `{W : World}.

(** The layer count of the weights, 0 when there are none. *)
Definition nweights_of (weights : option S4) : Z :=
  match weights with
  | Some weights_s4 => get_nlayers weights_s4
  | None => 0
  end.

(** Both sides have more than one layer and the counts differ. *)
Definition layers_clash (rast : S4) (weights : option S4) : bool :=
  match weights with
  | Some weights_s4 =>
    (1 <? get_nlayers rast) && (1 <? get_nlayers weights_s4) &&
    negb (get_nlayers rast =? get_nlayers weights_s4)
  | None => false
  end.

(** The grid the statistics are computed on, before cropping. *)
Definition reconciled_grid (rast : S4) (weights : option S4) : Grid :=
  match weights with
  | Some weights_s4 => grid_common_grid (make_grid rast) (make_grid weights_s4)
  | None => make_grid rast
  end.

(** The reconciled grid is strictly finer than the value raster's. *)
Definition disaggregating (rast : S4) (weights : option S4) : bool :=
  nltb (grid_dx (reconciled_grid rast weights)) (grid_dx (make_grid rast)) ||
  nltb (grid_dy (reconciled_grid rast weights)) (grid_dy (make_grid rast)).

(** The catalogue of statistic names. *)
Definition catalogue : list string :=
  ["mean"; "sum"; "count"; "min"; "max"; "median"; "mode"; "majority";
   "minority"; "variety"; "weighted_mean"; "weighted_sum"; "variance";
   "stdev"; "coefficient_of_variation"; "quantile"].

Definition supported (stat : string) : bool :=
  existsb (fun s => stat == s) catalogue.

Definition qvec_of (quantiles : option (list num)) : list num := default [] quantiles.

(** Columns a statistic name occupies. *)
Definition stat_width (quantiles : option (list num)) (stat : string) : Z :=
  if stat == "quantile" then Z.of_nat (length (qvec_of quantiles)) else 1.

Definition total_width (quantiles : option (list num)) (stats : list string) : Z :=
  foldr (fun stat n => stat_width quantiles stat + n) 0 stats.

(** A name the validation loop accepts. *)
Definition stat_accepted (disaggregated : bool) (quantiles : option (list num))
    (stat : string) : bool :=
  negb (disaggregated && ((stat == "count") || (stat == "sum"))) &&
  negb ((stat == "quantile") && (Z.of_nat (length (qvec_of quantiles)) =? 0)).

Definition stores_values (stats : list string) : bool :=
  existsb requires_stored_values stats.

Context `{RSO : !RasterStatsOps}.

(** The value layer and the weight layer that feed output row [i]. *)
Definition layer_pair (nlayers nweights i : Z) : Z * Z :=
  if nweights <? nlayers then (i, 0)
  else if nlayers <? nweights then (0, i)
  else (i, i).

(** What one window does to the accumulator of row [i]. *)
Definition row_update (rsrc : S4RasterSource) (rweights : option S4RasterSource)
    (nlayers nweights : Z) (cov : CoverageRaster) (i : Z)
    : RasterStats -> RasterStats :=
  let ext := grid_extent (coverage_grid cov) in
  match rweights with
  | Some rw =>
    process_weighted cov
      (read_box rsrc ext (fst (layer_pair nlayers nweights i)))
      (read_box rw ext (snd (layer_pair nlayers nweights i)))
  | None => process cov (read_box rsrc ext i)
  end.

(** What the windows of [subgrids], in order, do to the accumulator of
    row [i]. *)
Definition row_after_windows (rsrc : S4RasterSource)
    (rweights : option S4RasterSource) (nlayers nweights : Z) (geom : Geom)
    (subgrids : list Grid) (i : Z) (a : RasterStats) : RasterStats :=
  fold_left (fun a subgrid =>
      let cov := raster_cell_intersection subgrid geom in
      if negb (grid_empty (coverage_grid cov))
      then row_update rsrc rweights nlayers nweights cov i a
      else a)
    subgrids a.

(** The accumulator that is fed, window after window, the value layer
    [vl] against the weight layer [wl]; a window whose coverage grid is
    empty is skipped. *)
Definition paired_row (rast weights_s4 : S4) (default_value default_weight : num)
    (geom : Geom) (subgrids : list Grid) (vl wl : Z) (a : RasterStats)
    : RasterStats :=
  fold_left (fun a subgrid =>
      let cov := raster_cell_intersection subgrid geom in
      let ext := grid_extent (coverage_grid cov) in
      if grid_empty (coverage_grid cov) then a
      else process_weighted cov
             (getValuesBlock rast default_value ext vl)
             (getValuesBlock weights_s4 default_weight ext wl) a)
    subgrids a.

(** The sub-grids [CPP_stats] visits. *)
Definition visited_subgrids (grid : Grid) (geom : Geom) (max_cells_in_memory : Z)
    : list Grid :=
  if box_intersects (geos_get_box geom) (grid_extent grid)
  then subdivide (grid_crop grid (geos_get_box geom)) max_cells_in_memory
  else [].

(** The cells one statistic name fills from an accumulator, or [None] for
    a name outside the catalogue. *)
Definition stat_cells (rs : RasterStats) (quantiles : option (list num))
    (stat : string) : option (list rdouble) :=
  if stat == "mean" then Some [rs_mean rs]
  else if stat == "sum" then Some [rs_sum rs]
  else if stat == "count" then Some [rs_count rs]
  else if stat == "min" then Some [value_or_NA (rs_min rs)]
  else if stat == "max" then Some [value_or_NA (rs_max rs)]
  else if stat == "median" then Some [value_or_NA (rs_quantile rs nhalf)]
  else if stat == "mode" then Some [value_or_NA (rs_mode rs)]
  else if stat == "majority" then Some [value_or_NA (rs_mode rs)]
  else if stat == "minority" then Some [value_or_NA (rs_minority rs)]
  else if stat == "variety" then Some [rs_variety rs]
  else if stat == "weighted_mean" then Some [rs_weighted_mean rs]
  else if stat == "weighted_sum" then Some [rs_weighted_sum rs]
  else if stat == "variance" then Some [rs_variance rs]
  else if stat == "stdev" then Some [rs_stdev rs]
  else if stat == "coefficient_of_variation"
    then Some [rs_coefficient_of_variation rs]
  else if stat == "quantile"
    then Some (map (fun q => value_or_NA (rs_quantile rs q)) (qvec_of quantiles))
  else None.

(** The row of the statistics matrix an accumulator gives. *)
Definition row_cells (rs : RasterStats) (quantiles : option (list num))
    (stats : list string) : list rdouble :=
  flat_map (fun stat => default [] (stat_cells rs quantiles stat)) stats.

Definition value_source (rast : S4) (default_value : num) : S4RasterSource :=
  {| src_rast := rast; src_default := default_value |}.

Definition weight_source (weights : option S4) (default_weight : num)
    : option S4RasterSource :=
  (fun weights_s4 => {| src_rast := weights_s4; src_default := default_weight |})
    <$> weights.

(** The window phase of a call that passed the checks. *)
Definition window_phase (rast : S4) (weights : option S4) (geom : Geom)
    (default_value default_weight : num) (stats : list string)
    (max_cells_in_memory : Z) : M (list RasterStats) :=
  accumulate (value_source rast default_value)
    (weight_source weights default_weight)
    (get_nlayers rast) (nweights_of weights) geom
    (reconciled_grid rast weights) max_cells_in_memory
    (replicate (Z.to_nat (Z.max (get_nlayers rast) (nweights_of weights)))
               (RasterStats_new (stores_values stats))).

(** The accumulator of row [j] once every window has been processed. *)
Definition final_row (rast : S4) (weights : option S4) (geom : Geom)
    (default_value default_weight : num) (stats : list string)
    (max_cells_in_memory : Z) (j : Z) : RasterStats :=
  row_after_windows (value_source rast default_value)
    (weight_source weights default_weight)
    (get_nlayers rast) (nweights_of weights) geom
    (visited_subgrids (reconciled_grid rast weights) geom max_cells_in_memory)
    j (RasterStats_new (stores_values stats)).

(** What one window does to all accumulators. *)
Definition window_update (rsrc : S4RasterSource) (rweights : option S4RasterSource)
    (nlayers nweights : Z) (cov : CoverageRaster) (raster_stats : list RasterStats)
    : list RasterStats :=
  if negb (grid_empty (coverage_grid cov)) then
    fold_left (fun raster_stats i =>
        alter (row_update rsrc rweights nlayers nweights cov i) (Z.to_nat i)
              raster_stats)
      (seqZ 0 (Z.max nlayers nweights)) raster_stats
  else raster_stats.

(** [cells] written into row [j] from column [i] on. *)
Fixpoint write_cells (m : NumericMatrix) (j i : Z) (cells : list rdouble)
    : NumericMatrix :=
  match cells with
  | [] => m
  | v :: cells' => write_cells (mset m j i v) j (i + 1) cells'
  end.

(** The rows [js] written from the accumulators. *)
Definition write_rows (raster_stats : list RasterStats) (stats : list string)
    (quantiles : option (list num)) (js : list Z) (m : NumericMatrix)
    : NumericMatrix :=
  fold_left (fun m j =>
      match raster_stats !! Z.to_nat j with
      | Some rs => write_cells m j 0 (row_cells rs quantiles stats)
      | None => m
      end)
    js m.

End Notions.

(** ** Notions about coverage and tiles *)

Section CoverageNotions.
Context `{W : World}.

(** The cells one statistic name fills when no cell is covered: 0 for
    "count" and "variety", the missing-value sentinel otherwise. *)
Definition degenerate_cells (quantiles : option (list num)) (stat : string)
    : list rdouble :=
  if (stat == "count") || (stat == "variety") then [Dbl n0]
  else if stat == "quantile"
    then replicate (length (qvec_of quantiles)) NA_REAL
  else [NA_REAL].

Definition degenerate_row (quantiles : option (list num)) (stats : list string)
    : list rdouble :=
  flat_map (degenerate_cells quantiles) stats.

(** No cell of any visited window has a positive coverage fraction. *)
Definition nothing_covered (grid : Grid) (geom : Geom) (max_cells_in_memory : Z)
    : Prop :=
  forall subgrid cell c,
    In subgrid (visited_subgrids grid geom max_cells_in_memory) ->
    In (cell, c) (cov_cells (raster_cell_intersection subgrid geom)) ->
    nltb n0 c = false.

Definition is_covered (e : Cell * num) : bool := nltb n0 (snd e).













End CoverageNotions.

(** ** Notions about the extraction table *)

Section TableNotions.
Context `{W : World}.

(** The names of a list after [l[name] = v]. *)
Definition assign (names : list string) (name : string) : list string :=
  if existsb (fun n => n == name) names then names else names ++ [name].

(** The names after a weight column of name [w] is placed. *)
Definition assign_weight (names : list string) (w : string) : list string :=
  assign names
    (if existsb (fun n => n == w) names then String.append w ".1" else w).

(** The names of layers [0 .. n-1]. *)
Definition layer_names (names : list string) (n : Z) : list string :=
  omap (fun i => names !! Z.to_nat i) (seqZ 0 n).

(** The column names [CPP_exact_extract] leaves, whatever the names. *)
Definition table_names (include_names value_names weight_names : list string)
    (include_xy include_cell_number : bool) : list string :=
  let names := fold_left assign include_names [] in
  let names := fold_left assign value_names names in
  let names := fold_left assign_weight weight_names names in
  let names := if include_xy then assign (assign names "x") "y" else names in
  let names := if include_cell_number then assign names "cell" else names in
  assign names "coverage_fraction".

(** The weight column names of the spec: ".1" is appended, once, to a
    name that duplicates a column already placed. *)
Fixpoint place_weight_names (placed : list string) (weight_names : list string)
    : list string :=
  match weight_names with
  | [] => []
  | w :: ws =>
    let colname :=
      if existsb (fun n => n == w) placed then String.append w ".1" else w in
    colname :: place_weight_names (placed ++ [colname]) ws
  end.

(** The column names in the order of the spec. *)
Definition expected_names (include_names value_names weight_names : list string)
    (include_xy include_cell_number : bool) : list string :=
  include_names ++ value_names ++
  place_weight_names (include_names ++ value_names) weight_names ++
  (if include_xy then ["x"; "y"] else []) ++
  (if include_cell_number then ["cell"] else []) ++
  ["coverage_fraction"].

(** The covered cells of a coverage raster. *)
Definition covered_cells (cov : CoverageRaster) : list (Cell * num) :=
  filter (fun e => is_covered e = true) (cov_cells cov).

(** The coverage raster [CPP_exact_extract] works on. *)
Definition extract_coverage (rast : S4) (weights : option S4) (geom : Geom)
    : CoverageRaster :=
  raster_cell_intersection
    (grid_crop (reconciled_grid rast weights) (geos_get_box geom)) geom.

(** Every numeric column of [cols] has [n] entries. *)
Definition numeric_rows (n : nat) (cols : named_list) : Prop :=
  forall name v, In (name, ColNum v) cols -> length v = n.

(** The columns have the names [names], and the numeric ones [k] rows. *)
Definition table_inv (k : nat) (names : list string) (cols : named_list) : Prop :=
  map fst cols = names /\ numeric_rows k cols.

End TableNotions.

(** ** Notions about traces and requests *)

Section TraceNotions.
Context `{W : World}.

Definition is_read (ev : event) : bool :=
  match ev with
  | EvReadValues _ _ | EvReadWeights _ _ => true
  | _ => false
  end.

Definition is_warning (ev : event) : bool :=
  match ev with
  | EvWarning _ => true
  | _ => false
  end.

(** The grids the coverage provider was called on, in order. *)
Definition coverage_calls (tr : list event) : list Grid :=
  omap (fun ev => match ev with EvCoverage g => Some g | _ => None end) tr.

(** The calls of the window planner, in order. *)
Definition planner_calls (tr : list event) : list (Grid * Z) :=
  omap (fun ev => match ev with EvSubdivide g n => Some (g, n) | _ => None end) tr.

(** The boxes and layers read from the value raster (weight raster). *)
Definition value_reads (tr : list event) : list (Box * Z) :=
  omap (fun ev => match ev with EvReadValues b i => Some (b, i) | _ => None end) tr.

Definition weight_reads (tr : list event) : list (Box * Z) :=
  omap (fun ev => match ev with EvReadWeights b i => Some (b, i) | _ => None end) tr.

(** The reads of one window whose coverage grid has the extent [ext]. *)
Definition window_reads (weighted : bool) (nlayers nweights : Z) (ext : Box)
    : list event :=
  if weighted then
    if nweights <? nlayers then
      EvReadWeights ext 0 :: map (EvReadValues ext) (seqZ 0 nlayers)
    else if nlayers <? nweights then
      EvReadValues ext 0 :: map (EvReadWeights ext) (seqZ 0 nweights)
    else
      flat_map (fun i => [EvReadValues ext i; EvReadWeights ext i])
               (seqZ 0 nlayers)
  else map (EvReadValues ext) (seqZ 0 nlayers).

(** The collaborator calls of one window. *)
Definition window_events (weighted : bool) (nlayers nweights : Z) (geom : Geom)
    (subgrid : Grid) : list event :=
  let cov := raster_cell_intersection subgrid geom in
  EvCoverage subgrid ::
  (if negb (grid_empty (coverage_grid cov))
   then window_reads weighted nlayers nweights (grid_extent (coverage_grid cov))
   else []).

(** The sub-grids whose coverage grid is not empty. *)
Definition nonempty_windows (geom : Geom) (subgrids : list Grid) : list Grid :=
  filter (fun subgrid =>
            grid_empty (coverage_grid (raster_cell_intersection subgrid geom))
            = false) subgrids.

Definition present {A} (o : option A) : bool :=
  match o with
  | Some _ => true
  | None => false
  end.

(** The collaborator calls of a call of [CPP_stats] that passed its
    checks. *)
Definition stats_events (rast : S4) (weights : option S4) (geom : Geom)
    (max_cells_in_memory : Z) : list event :=
  let grid := reconciled_grid rast weights in
  if box_intersects (geos_get_box geom) (grid_extent grid) then
    let cropped_grid := grid_crop grid (geos_get_box geom) in
    EvSubdivide cropped_grid max_cells_in_memory ::
    flat_map (window_events (present weights) (get_nlayers rast)
                (nweights_of weights) geom)
             (subdivide cropped_grid max_cells_in_memory)
  else [].

(** The value layers (weight layers) read in a window. *)
Definition value_layers_read (weighted : bool) (nlayers nweights : Z) : list Z :=
  if weighted && negb (nweights <? nlayers) && (nlayers <? nweights)
  then [0] else seqZ 0 nlayers.

Definition weight_layers_read (weighted : bool) (nlayers nweights : Z) : list Z :=
  if weighted then
    if nweights <? nlayers then [0]
    else if nlayers <? nweights then seqZ 0 nweights
    else seqZ 0 nlayers
  else [].

(** The extent read for a window. *)
Definition window_extent (geom : Geom) (subgrid : Grid) : Box :=
  grid_extent (coverage_grid (raster_cell_intersection subgrid geom)).

(** The warning of line 80. *)
Definition disaggregation_warning : list event :=
  [EvWarning
     "value raster implicitly disaggregated to match higher resolution of weights"].

End TraceNotions.

(** * Properties of the drivers *)

Section MonadFacts.
Context `{W : World}.

Lemma bind_unfold {A B} (m : M A) (f : A -> M B) :
  m ≫= f =
  match m with
  | (t, inl e) => (t, inl e)
  | (t, inr a) => (t ++ fst (f a), snd (f a))
  end.
Proof.
  destruct m as [t [e|a]]; [reflexivity|].
  unfold mbind, M_bind. destruct (f a); reflexivity.
Qed.

Lemma bind_silent {A B} (m : M A) (f : A -> M B) a :
  m = ([], inr a) -> m ≫= f = f a.
Proof. intros ->. rewrite bind_unfold. simpl. destruct (f a); reflexivity. Qed.

Lemma bind_ret {A B} (a : A) (f : A -> M B) : mret a ≫= f = f a.
Proof. apply bind_silent. reflexivity. Qed.

Lemma bind_stop {A B} (e : error) (f : A -> M B) : stop e ≫= f = stop e.
Proof. reflexivity. Qed.

Lemma bind_outcome_inl {A B} (m : M A) (f : A -> M B) e :
  outcome m = inl e -> m ≫= f = (trace_of m, inl e).
Proof.
  destruct m as [t [e'|a]]; intros [= ->]; reflexivity.
Qed.

Lemma bind_outcome_inr {A B} (m : M A) (f : A -> M B) a :
  outcome m = inr a ->
  m ≫= f = (trace_of m ++ trace_of (f a), outcome (f a)).
Proof.
  destruct m as [t [e'|a']]; intros [= ->]. rewrite bind_unfold. reflexivity.
Qed.

(** A loop whose body neither logs nor stops is a fold. *)
Lemma for_each_silent {A S} (l : list A) (body : A -> S -> M S) (g : A -> S -> S) s :
  (forall x s, body x s = ([], inr (g x s))) ->
  for_each l body s = ([], inr (fold_left (fun s x => g x s) l s)).
Proof.
  intros Hb. revert s. induction l as [|x l IH]; intros s; simpl; [reflexivity|].
  rewrite (bind_silent _ _ (g x s)) by apply Hb. apply IH.
Qed.

(** A loop whose body never stops never stops, and its result is the fold
    of the bodies' results. *)
Lemma for_each_total {A S} (l : list A) (body : A -> S -> M S) (g : A -> S -> S) s :
  (forall x s, outcome (body x s) = inr (g x s)) ->
  outcome (for_each l body s) = inr (fold_left (fun s x => g x s) l s).
Proof.
  intros Hb. revert s. induction l as [|x l IH]; intros s; simpl; [reflexivity|].
  rewrite (bind_outcome_inr _ _ (g x s)) by apply Hb. simpl. apply IH.
Qed.

Lemma bind_outcome {A B} (m : M A) (f : A -> M B) a :
  outcome m = inr a -> outcome (m ≫= f) = outcome (f a).
Proof. intros H. rewrite (bind_outcome_inr _ _ a H). reflexivity. Qed.

Lemma bind_trace_stop {A B} (m : M A) (f : A -> M B) e :
  outcome m = inl e -> trace_of (m ≫= f) = trace_of m.
Proof. intros H. rewrite (bind_outcome_inl _ _ e H). reflexivity. Qed.

Lemma fold_left_ext {A B} (f g : A -> B -> A) (l : list B) (a : A) :
  (forall a b, f a b = g a b) -> fold_left f l a = fold_left g l a.
Proof.
  intros H. revert a. induction l as [|b l IH]; intros a; simpl; [reflexivity|].
  rewrite H. apply IH.
Qed.

End MonadFacts.

Section DriverFacts.
Context `{W : World} `{RSO : !RasterStatsOps}.

(** *** The validation loop *)

Lemma validate_stats_accepted disaggregated quantiles stats store_values n :
  forallb (stat_accepted disaggregated quantiles) stats = true ->
  validate_stats disaggregated quantiles stats store_values n =
  ([], inr (store_values || stores_values stats, n + total_width quantiles stats)).
Proof.
  revert store_values n. induction stats as [|stat stats IH]; intros sv n Hok.
  - simpl. rewrite orb_false_r, Z.add_0_r. reflexivity.
  - simpl in Hok. apply andb_prop in Hok as [Hs Hrest].
    unfold stat_accepted in Hs. apply andb_prop in Hs as [Hd Hq].
    apply negb_true_iff in Hd, Hq.
    cbn [validate_stats]. rewrite Hd.
    unfold stores_values, total_width, stat_width. cbn [existsb foldr].
    destruct (stat == "quantile") eqn:Eq.
    + simpl in Hq. fold (qvec_of quantiles).
      replace (match quantiles with Some qvec => Z.of_nat (length qvec) | None => 0 end)
        with (Z.of_nat (length (qvec_of quantiles))) by (destruct quantiles; reflexivity).
      rewrite Hq, IH by assumption.
      unfold stores_values, total_width, stat_width.
      rewrite orb_assoc, Z.add_assoc. reflexivity.
    + rewrite IH by assumption.
      unfold stores_values, total_width, stat_width.
      rewrite orb_assoc, Z.add_assoc. reflexivity.
Qed.

Lemma validate_stats_rejected disaggregated quantiles stats store_values n :
  forallb (stat_accepted disaggregated quantiles) stats = false ->
  exists e, validate_stats disaggregated quantiles stats store_values n = ([], inl e) /\
            (e = DisaggregatedCountSum \/ e = QuantilesNotSpecified).
Proof.
  revert store_values n. induction stats as [|stat stats IH]; intros sv n Hbad.
  - discriminate.
  - cbn [forallb] in Hbad. cbn [validate_stats].
    destruct (disaggregated && ((stat == "count") || (stat == "sum"))) eqn:Hd.
    { eexists; split; [reflexivity|]. left; reflexivity. }
    replace (match quantiles with Some qvec => Z.of_nat (length qvec) | None => 0 end)
      with (Z.of_nat (length (qvec_of quantiles))) by (destruct quantiles; reflexivity).
    destruct (stat == "quantile") eqn:Eq.
    + destruct (Z.of_nat (length (qvec_of quantiles)) =? 0) eqn:Hz.
      { eexists; split; [reflexivity|]. right; reflexivity. }
      assert (stat_accepted disaggregated quantiles stat = true) as Hacc
        by (unfold stat_accepted; rewrite Hd, Eq, Hz; reflexivity).
      rewrite Hacc in Hbad. apply IH. exact Hbad.
    + assert (stat_accepted disaggregated quantiles stat = true) as Hacc
        by (unfold stat_accepted; rewrite Hd, Eq; reflexivity).
      rewrite Hacc in Hbad. apply IH. exact Hbad.
Qed.

Lemma validate_stats_silent disaggregated quantiles stats store_values n :
  trace_of (validate_stats disaggregated quantiles stats store_values n) = [].
Proof.
  destruct (forallb (stat_accepted disaggregated quantiles) stats) eqn:E.
  - rewrite validate_stats_accepted by assumption. reflexivity.
  - destruct (validate_stats_rejected _ _ _ store_values n E) as (e & -> & _).
    reflexivity.
Qed.

(** *** The result loop *)

Lemma supported_stat_cells rs quantiles stat :
  supported stat = true <-> is_Some (stat_cells rs quantiles stat).
Proof.
  unfold supported, catalogue, stat_cells. cbn [existsb].
  repeat (destruct (stat == _); [simpl; split; [eauto | reflexivity]|]).
  simpl. split; [discriminate | intros [? [=]]].
Qed.

Lemma write_quantiles_cells rs j qvec m i :
  fold_left (fun '(m, i) q =>
               (mset m j i (value_or_NA (rs_quantile rs q)), i + 1))
            qvec (m, i) =
  (write_cells m j i (map (fun q => value_or_NA (rs_quantile rs q)) qvec),
   i + Z.of_nat (length qvec)).
Proof.
  revert m i. induction qvec as [|q qvec IH]; intros m i.
  - simpl. rewrite Z.add_0_r. reflexivity.
  - cbn [fold_left map write_cells length]. rewrite IH. f_equal. lia.
Qed.

Lemma write_stat_cells rs quantiles j stat m i :
  write_stat rs quantiles j stat (m, i) =
  match stat_cells rs quantiles stat with
  | Some cells => ([], inr (write_cells m j i cells, i + Z.of_nat (length cells)))
  | None => ([], inl (UnknownStat stat))
  end.
Proof.
  unfold write_stat, stat_cells.
  repeat (destruct (stat == _); [reflexivity|]).
  destruct (stat == "quantile"); [|reflexivity].
  fold (qvec_of quantiles). rewrite write_quantiles_cells, length_map. reflexivity.
Qed.

Lemma write_cells_app m j i xs ys :
  write_cells m j i (xs ++ ys) =
  write_cells (write_cells m j i xs) j (i + Z.of_nat (length xs)) ys.
Proof.
  revert m i. induction xs as [|x xs IH]; intros m i.
  - simpl. rewrite Z.add_0_r. reflexivity.
  - cbn [app write_cells length]. rewrite IH. f_equal. lia.
Qed.

(** One row: all names supported. *)
Lemma write_row_supported rs quantiles j stats m i :
  forallb supported stats = true ->
  for_each stats (write_stat rs quantiles j) (m, i) =
  ([], inr (write_cells m j i (row_cells rs quantiles stats),
            i + Z.of_nat (length (row_cells rs quantiles stats)))).
Proof.
  revert m i. induction stats as [|stat stats IH]; intros m i Hs.
  - simpl. rewrite Z.add_0_r. reflexivity.
  - simpl in Hs. apply andb_prop in Hs as [Hs Hrest].
    apply (supported_stat_cells rs quantiles) in Hs as [cells Hc].
    cbn [for_each]. rewrite write_stat_cells, Hc.
    erewrite bind_silent by reflexivity. rewrite IH by assumption.
    unfold row_cells. cbn [flat_map]. rewrite Hc. cbn [default].
    rewrite write_cells_app, length_app. unfold id.
    rewrite Nat2Z.inj_add, Z.add_assoc. reflexivity.
Qed.

(** One row: the first name outside the catalogue stops the call. *)
Lemma write_row_unsupported rs quantiles j stats m i :
  forallb supported stats = false ->
  exists stat, In stat stats /\ supported stat = false /\
    for_each stats (write_stat rs quantiles j) (m, i) = ([], inl (UnknownStat stat)).
Proof.
  revert m i. induction stats as [|stat stats IH]; intros m i Hs.
  - discriminate.
  - simpl in Hs. cbn [for_each]. rewrite write_stat_cells.
    destruct (stat_cells rs quantiles stat) as [cells|] eqn:Hc.
    + assert (supported stat = true) as Hsup
        by (apply (supported_stat_cells rs quantiles); eauto).
      rewrite Hsup in Hs. simpl in Hs.
      destruct (IH (write_cells m j i cells) (i + Z.of_nat (length cells)) Hs)
        as (s & Hin & Hns & Heq).
      exists s. split; [right; exact Hin|]. split; [exact Hns|].
      erewrite bind_silent by reflexivity. exact Heq.
    + exists stat. split; [left; reflexivity|]. split; [|reflexivity].
      destruct (supported stat) eqn:Hsup; [|reflexivity].
      apply (supported_stat_cells rs quantiles) in Hsup as [? Hsome]. congruence.
Qed.

Lemma write_results_supported raster_stats stats quantiles nresults m :
  forallb supported stats = true ->
  write_results raster_stats stats quantiles nresults m =
  ([], inr (write_rows raster_stats stats quantiles (seqZ 0 nresults) m)).
Proof.
  intros Hs. unfold write_results, for_range, write_rows.
  apply for_each_silent. intros j m'.
  destruct (raster_stats !! Z.to_nat j) as [rs|]; [|reflexivity].
  rewrite write_row_supported by assumption. reflexivity.
Qed.

Lemma write_results_unsupported raster_stats stats quantiles nresults m :
  forallb supported stats = false ->
  0 < nresults ->
  length raster_stats = Z.to_nat nresults ->
  exists stat, In stat stats /\ supported stat = false /\
    write_results raster_stats stats quantiles nresults m =
    ([], inl (UnknownStat stat)).
Proof.
  intros Hs Hpos Hlen. unfold write_results, for_range.
  rewrite seqZ_cons by assumption. cbn [for_each].
  destruct (raster_stats !! Z.to_nat 0) as [rs|] eqn:Hrs.
  - destruct (write_row_unsupported rs quantiles 0 stats m 0 Hs)
      as (stat & Hin & Hns & Heq).
    exists stat. split; [exact Hin|]. split; [exact Hns|].
    rewrite Heq. reflexivity.
  - apply lookup_ge_None in Hrs. simpl in Hrs. lia.
Qed.

Lemma write_results_no_rows raster_stats stats quantiles nresults m :
  nresults <= 0 ->
  write_results raster_stats stats quantiles nresults m = ([], inr m).
Proof.
  intros Hn. unfold write_results, for_range. rewrite seqZ_nil by assumption.
  reflexivity.
Qed.

(** The result loop calls no collaborator, and stops only on a name
    outside the catalogue. *)
Lemma write_results_cases raster_stats stats quantiles nresults m :
  (exists m', write_results raster_stats stats quantiles nresults m = ([], inr m')) \/
  (exists stat, In stat stats /\ supported stat = false /\
     write_results raster_stats stats quantiles nresults m =
     ([], inl (UnknownStat stat))).
Proof.
  destruct (forallb supported stats) eqn:Hs.
  { left. eexists. apply write_results_supported. exact Hs. }
  unfold write_results, for_range.
  generalize (seqZ 0 nresults). intros js. revert m.
  induction js as [|j js IH]; intros m.
  { left. eexists. reflexivity. }
  cbn [for_each].
  destruct (raster_stats !! Z.to_nat j) as [rs|].
  - right. destruct (write_row_unsupported rs quantiles j stats m 0 Hs)
      as (stat & Hin & Hns & Heq).
    exists stat. split; [exact Hin|]. split; [exact Hns|].
    rewrite Heq. reflexivity.
  - rewrite bind_ret. apply IH.
Qed.

(** *** The windows *)

Lemma process_window_outcome rsrc rweights nlayers nweights cov raster_stats :
  (rweights = None -> nweights = 0) ->
  outcome (process_window rsrc rweights nlayers nweights cov raster_stats) =
  inr (window_update rsrc rweights nlayers nweights cov raster_stats).
Proof.
  intros Hnw. unfold process_window, window_update.
  destruct (negb (grid_empty (coverage_grid cov))); [|reflexivity].
  unfold row_update, layer_pair, for_range.
  destruct rweights as [rw|].
  - destruct (nweights <? nlayers) eqn:H1.
    + apply Z.ltb_lt in H1. rewrite Z.max_l by lia.
      unfold read_weights at 1. rewrite bind_unfold. simpl.
      apply for_each_total. intros; reflexivity.
    + apply Z.ltb_ge in H1. destruct (nlayers <? nweights) eqn:H2.
      * apply Z.ltb_lt in H2. rewrite Z.max_r by lia.
        unfold read_values at 1. rewrite bind_unfold. simpl.
        apply for_each_total. intros; reflexivity.
      * apply Z.ltb_ge in H2. rewrite Z.max_l by lia.
        apply for_each_total. intros; reflexivity.
  - rewrite (Hnw eq_refl).
    replace (seqZ 0 (Z.max nlayers 0)) with (seqZ 0 nlayers).
    + apply for_each_total. intros; reflexivity.
    + destruct (Z.max_spec nlayers 0) as [[? ->]|[? ->]]; [|reflexivity].
      rewrite !seqZ_nil by lia. reflexivity.
Qed.

Lemma process_subgrids_outcome rsrc rweights nlayers nweights geom subgrids raster_stats :
  (rweights = None -> nweights = 0) ->
  outcome (process_subgrids rsrc rweights nlayers nweights geom subgrids raster_stats) =
  inr (fold_left (fun raster_stats subgrid =>
         window_update rsrc rweights nlayers nweights
           (raster_cell_intersection subgrid geom) raster_stats)
       subgrids raster_stats).
Proof.
  intros Hnw. unfold process_subgrids.
  apply (for_each_total subgrids _
    (fun subgrid raster_stats =>
       window_update rsrc rweights nlayers nweights
         (raster_cell_intersection subgrid geom) raster_stats)).
  intros subgrid accs. unfold call_coverage. rewrite bind_unfold. simpl.
  apply process_window_outcome. exact Hnw.
Qed.

Lemma fold_alter_lookup {A} (f : Z -> A -> A) (js : list Z) (l : list A) (k : nat) :
  NoDup js -> (forall j, j ∈ js -> 0 <= j) ->
  fold_left (fun l i => alter (f i) (Z.to_nat i) l) js l !! k =
  (if decide (Z.of_nat k ∈ js) then f (Z.of_nat k) else id) <$> l !! k.
Proof.
  intros Hnd Hpos. revert l. induction js as [|j js IH]; intros l.
  - cbn [fold_left]. rewrite decide_False by apply not_elem_of_nil.
    destruct (l !! k); reflexivity.
  - apply NoDup_cons in Hnd as [Hj Hnd].
    cbn [fold_left]. rewrite IH; [|exact Hnd|intros; apply Hpos; right; assumption].
    assert (0 <= j) by (apply Hpos; left).
    destruct (decide (Z.to_nat j = k)) as [<-|Hne].
    + rewrite Z2Nat.id by assumption.
      rewrite decide_False by exact Hj. rewrite decide_True by left.
      rewrite list_lookup_alter_eq. destruct (l !! Z.to_nat j); reflexivity.
    + rewrite list_lookup_alter_ne by assumption.
      destruct (decide (Z.of_nat k ∈ js)) as [Hin|Hnin].
      * rewrite decide_True by (right; assumption). reflexivity.
      * rewrite decide_False; [reflexivity|].
        intros [Heq|Hin]%elem_of_cons; [|contradiction]. apply Hne. lia.
Qed.

Lemma window_update_length rsrc rweights nlayers nweights cov raster_stats :
  length (window_update rsrc rweights nlayers nweights cov raster_stats) =
  length raster_stats.
Proof.
  unfold window_update.
  destruct (negb (grid_empty (coverage_grid cov))); [|reflexivity].
  generalize (seqZ 0 (Z.max nlayers nweights)). intros js. revert raster_stats.
  induction js as [|j js IH]; intros l; simpl; [reflexivity|].
  rewrite IH. apply length_alter.
Qed.

Lemma window_update_lookup rsrc rweights nlayers nweights cov raster_stats k :
  length raster_stats = Z.to_nat (Z.max nlayers nweights) ->
  window_update rsrc rweights nlayers nweights cov raster_stats !! k =
  (fun a => if negb (grid_empty (coverage_grid cov))
            then row_update rsrc rweights nlayers nweights cov (Z.of_nat k) a
            else a) <$> raster_stats !! k.
Proof.
  intros Hlen. unfold window_update.
  destruct (negb (grid_empty (coverage_grid cov))).
  - rewrite fold_alter_lookup.
    + destruct (raster_stats !! k) as [a|] eqn:Hk; [|reflexivity].
      apply lookup_lt_Some in Hk.
      rewrite decide_True; [reflexivity|]. apply elem_of_seqZ. lia.
    + apply NoDup_seqZ.
    + intros j Hj%elem_of_seqZ. lia.
  - destruct (raster_stats !! k); reflexivity.
Qed.

Lemma windows_length rsrc rweights nlayers nweights geom subgrids raster_stats :
  length (fold_left (fun raster_stats subgrid =>
            window_update rsrc rweights nlayers nweights
              (raster_cell_intersection subgrid geom) raster_stats)
          subgrids raster_stats) = length raster_stats.
Proof.
  revert raster_stats. induction subgrids as [|g gs IH]; intros l; [reflexivity|].
  cbn [fold_left]. rewrite IH. apply window_update_length.
Qed.

Lemma windows_lookup rsrc rweights nlayers nweights geom subgrids raster_stats k :
  length raster_stats = Z.to_nat (Z.max nlayers nweights) ->
  fold_left (fun raster_stats subgrid =>
      window_update rsrc rweights nlayers nweights
        (raster_cell_intersection subgrid geom) raster_stats)
    subgrids raster_stats !! k =
  row_after_windows rsrc rweights nlayers nweights geom subgrids (Z.of_nat k)
    <$> raster_stats !! k.
Proof.
  revert raster_stats. induction subgrids as [|g gs IH]; intros l Hlen.
  - simpl. destruct (l !! k); reflexivity.
  - cbn [fold_left]. rewrite IH by (rewrite window_update_length; exact Hlen).
    rewrite window_update_lookup by exact Hlen.
    unfold row_after_windows. cbn [fold_left].
    destruct (l !! k); reflexivity.
Qed.

Lemma accumulate_outcome rsrc rweights nlayers nweights geom grid max_cells raster_stats :
  (rweights = None -> nweights = 0) ->
  outcome (accumulate rsrc rweights nlayers nweights geom grid max_cells raster_stats) =
  inr (fold_left (fun raster_stats subgrid =>
         window_update rsrc rweights nlayers nweights
           (raster_cell_intersection subgrid geom) raster_stats)
       (visited_subgrids grid geom max_cells) raster_stats).
Proof.
  intros Hnw. unfold accumulate, visited_subgrids.
  destruct (box_intersects (geos_get_box geom) (grid_extent grid)); [|reflexivity].
  unfold call_subdivide. rewrite bind_unfold. simpl.
  apply process_subgrids_outcome. exact Hnw.
Qed.

(** No window is entered when the bounding box misses the grid. *)
Lemma accumulate_disjoint rsrc rweights nlayers nweights geom grid max_cells raster_stats :
  box_intersects (geos_get_box geom) (grid_extent grid) = false ->
  accumulate rsrc rweights nlayers nweights geom grid max_cells raster_stats =
  ([], inr raster_stats).
Proof. intros H. unfold accumulate. rewrite H. reflexivity. Qed.

(** *** [CPP_stats] past its checks *)

Lemma weight_source_none weights default_weight :
  weight_source weights default_weight = None -> nweights_of weights = 0.
Proof. destruct weights; [discriminate|reflexivity]. Qed.

Lemma CPP_stats_checked rast weights wkb geom default_value default_weight
    stats max_cells quantiles :
  1 <= max_cells ->
  layers_clash rast weights = false ->
  read_wkb wkb = Some geom ->
  forallb (stat_accepted (disaggregating rast weights) quantiles) stats = true ->
  CPP_stats rast weights wkb default_value default_weight stats max_cells quantiles =
  (raster_stats ←
     window_phase rast weights geom default_value default_weight stats max_cells;
   write_results raster_stats stats quantiles
     (Z.max (get_nlayers rast) (nweights_of weights))
     (no_init (Z.max (get_nlayers rast) (nweights_of weights))
              (total_width quantiles stats))).
Proof.
  intros Hmc Hclash Hwkb Hacc. unfold CPP_stats.
  apply Z.ltb_ge in Hmc. rewrite Hmc.
  destruct weights as [weights_s4|].
  - simpl in Hclash. rewrite Hclash, bind_ret. rewrite Hwkb, bind_ret.
    erewrite bind_silent; [|apply validate_stats_accepted; exact Hacc].
    reflexivity.
  - rewrite bind_ret. rewrite Hwkb, bind_ret.
    erewrite bind_silent; [|apply validate_stats_accepted; exact Hacc].
    reflexivity.
Qed.

(** *** Reading the matrix back *)

Lemma mget_mset m j i v j' i' :
  mget (mset m j i v) j' i' =
  if decide (j' = j /\ i' = i) then Some v else mget m j' i'.
Proof.
  unfold mget, mset. cbn [mdata].
  destruct (decide (j' = j /\ i' = i)) as [[-> ->]|Hne].
  - apply lookup_insert_eq.
  - apply lookup_insert_ne. intros [= -> ->]. apply Hne. split; reflexivity.
Qed.

Lemma mget_write_cells m j i cells j' i' :
  mget (write_cells m j i cells) j' i' =
  if decide (j' = j /\ i <= i' < i + Z.of_nat (length cells))
  then cells !! Z.to_nat (i' - i)
  else mget m j' i'.
Proof.
  revert m i. induction cells as [|v cells IH]; intros m i.
  - cbn [write_cells length]. rewrite decide_False by lia. reflexivity.
  - cbn [write_cells]. rewrite IH, mget_mset. cbn [length].
    destruct (decide (j' = j /\ i + 1 <= i' < i + 1 + Z.of_nat (length cells)))
      as [[-> Hi]|Hout].
    + rewrite decide_True by (split; [reflexivity|lia]).
      replace (Z.to_nat (i' - i)) with (S (Z.to_nat (i' - (i + 1)))) by lia.
      reflexivity.
    + destruct (decide (j' = j /\ i' = i)) as [[-> ->]|Hne].
      * rewrite decide_True by (split; [reflexivity|lia]).
        rewrite Z.sub_diag. reflexivity.
      * rewrite decide_False; [reflexivity|]. intros [-> Hi].
        destruct (decide (i' = i)) as [->|]; [apply Hne; split; reflexivity|].
        apply Hout. split; [reflexivity|lia].
Qed.

Lemma write_cells_dims m j i cells :
  nrow (write_cells m j i cells) = nrow m /\ ncol (write_cells m j i cells) = ncol m.
Proof.
  revert m i. induction cells as [|v cells IH]; intros m i; [split; reflexivity|].
  cbn [write_cells]. destruct (IH (mset m j i v) (i + 1)) as [-> ->].
  split; reflexivity.
Qed.

Lemma write_rows_dims raster_stats stats quantiles js m :
  nrow (write_rows raster_stats stats quantiles js m) = nrow m /\
  ncol (write_rows raster_stats stats quantiles js m) = ncol m.
Proof.
  unfold write_rows. revert m. induction js as [|j js IH]; intros m;
    [split; reflexivity|].
  cbn [fold_left]. destruct (raster_stats !! Z.to_nat j) as [rs|]; [|apply IH].
  destruct (IH (write_cells m j 0 (row_cells rs quantiles stats))) as [-> ->].
  apply write_cells_dims.
Qed.

Lemma mget_write_rows raster_stats stats quantiles js m j i :
  NoDup js -> 0 <= i ->
  mget (write_rows raster_stats stats quantiles js m) j i =
  match (if decide (j ∈ js) then raster_stats !! Z.to_nat j else None) with
  | Some rs =>
    if decide (i < Z.of_nat (length (row_cells rs quantiles stats)))
    then row_cells rs quantiles stats !! Z.to_nat i
    else mget m j i
  | None => mget m j i
  end.
Proof.
  intros Hnd Hi. unfold write_rows. revert m.
  induction js as [|j0 js IH]; intros m.
  - cbn [fold_left]. rewrite decide_False by apply not_elem_of_nil. reflexivity.
  - apply NoDup_cons in Hnd as [Hj0 Hnd]. cbn [fold_left]. rewrite IH by exact Hnd.
    destruct (decide (j = j0)) as [->|Hne].
    + rewrite decide_False by exact Hj0. rewrite decide_True by left.
      destruct (raster_stats !! Z.to_nat j0) as [rs|]; [|reflexivity].
      rewrite mget_write_cells, Z.sub_0_r.
      destruct (decide (i < Z.of_nat (length (row_cells rs quantiles stats)))).
      * rewrite decide_True by (split; [reflexivity|lia]). reflexivity.
      * rewrite decide_False by lia. reflexivity.
    + assert (forall X Y : option RasterStats,
                (if decide (j ∈ j0 :: js) then X else Y) =
                (if decide (j ∈ js) then X else Y)) as Hdec.
      { intros X Y. destruct (decide (j ∈ js)) as [Hin|Hnin].
        - rewrite decide_True by (right; exact Hin). reflexivity.
        - rewrite decide_False; [reflexivity|].
          intros [?|?]%elem_of_cons; contradiction. }
      rewrite Hdec.
      assert (mget (match raster_stats !! Z.to_nat j0 with
                    | Some rs => write_cells m j0 0 (row_cells rs quantiles stats)
                    | None => m
                    end) j i = mget m j i) as ->.
      { destruct (raster_stats !! Z.to_nat j0); [|reflexivity].
        rewrite mget_write_cells. rewrite decide_False; [reflexivity|].
        intros [? _]; contradiction. }
      reflexivity.
Qed.

Lemma stat_cells_width rs quantiles stat cells :
  stat_cells rs quantiles stat = Some cells ->
  Z.of_nat (length cells) = stat_width quantiles stat.
Proof.
  unfold stat_cells, stat_width.
  destruct (stat == "quantile") eqn:Eq.
  - apply String.eqb_eq in Eq as ->. cbn. intros [= <-].
    rewrite length_map. reflexivity.
  - clear Eq.
    repeat (destruct (stat == _); [intros [= <-]; reflexivity|]).
    discriminate.
Qed.

Lemma row_cells_width rs quantiles stats :
  forallb supported stats = true ->
  Z.of_nat (length (row_cells rs quantiles stats)) = total_width quantiles stats.
Proof.
  induction stats as [|stat stats IH]; intros Hs; [reflexivity|].
  simpl in Hs. apply andb_prop in Hs as [Hs Hrest].
  apply (supported_stat_cells rs quantiles) in Hs as [cells Hc].
  unfold row_cells, total_width. cbn [flat_map foldr].
  rewrite length_app, Nat2Z.inj_add. rewrite Hc. cbn [default from_option id].
  rewrite (stat_cells_width _ _ _ _ Hc). f_equal. apply IH. exact Hrest.
Qed.

Lemma CPP_stats_max_cells rast weights wkb default_value default_weight
    stats max_cells quantiles :
  max_cells < 1 ->
  CPP_stats rast weights wkb default_value default_weight stats max_cells quantiles =
  ([], inl (InvalidMaxCells max_cells)).
Proof.
  intros Hmc. unfold CPP_stats. apply Z.ltb_lt in Hmc. rewrite Hmc. reflexivity.
Qed.

Lemma CPP_stats_clash rast weights wkb default_value default_weight
    stats max_cells quantiles :
  1 <= max_cells ->
  layers_clash rast weights = true ->
  CPP_stats rast weights wkb default_value default_weight stats max_cells quantiles =
  ([], inl IncompatibleLayers).
Proof.
  intros Hmc Hclash. unfold CPP_stats. apply Z.ltb_ge in Hmc. rewrite Hmc.
  destruct weights as [weights_s4|]; [|discriminate].
  simpl in Hclash. rewrite Hclash. reflexivity.
Qed.

Lemma CPP_stats_bad_wkb rast weights wkb default_value default_weight
    stats max_cells quantiles :
  1 <= max_cells ->
  layers_clash rast weights = false ->
  read_wkb wkb = None ->
  CPP_stats rast weights wkb default_value default_weight stats max_cells quantiles =
  ([], inl GeometryError).
Proof.
  intros Hmc Hclash Hwkb. unfold CPP_stats. apply Z.ltb_ge in Hmc. rewrite Hmc.
  destruct weights as [weights_s4|].
  - simpl in Hclash. rewrite Hclash, bind_ret, Hwkb. reflexivity.
  - rewrite bind_ret, Hwkb. reflexivity.
Qed.

Lemma CPP_stats_not_accepted rast weights wkb geom default_value default_weight
    stats max_cells quantiles :
  1 <= max_cells ->
  layers_clash rast weights = false ->
  read_wkb wkb = Some geom ->
  forallb (stat_accepted (disaggregating rast weights) quantiles) stats = false ->
  exists e,
    CPP_stats rast weights wkb default_value default_weight stats max_cells quantiles =
    ([], inl e) /\
    validate_stats (disaggregating rast weights) quantiles stats false 0 =
    ([], inl e) /\
    (e = DisaggregatedCountSum \/ e = QuantilesNotSpecified).
Proof.
  intros Hmc Hclash Hwkb Hacc. unfold CPP_stats.
  apply Z.ltb_ge in Hmc. rewrite Hmc.
  destruct (validate_stats_rejected _ _ _ false 0 Hacc) as (e & Hv & He).
  exists e. split; [|split; [exact Hv|exact He]].
  destruct weights as [weights_s4|].
  - simpl in Hclash. rewrite Hclash, bind_ret, Hwkb, bind_ret.
    unfold disaggregating, reconciled_grid in Hv. unfold rs_grid. cbn [src_rast].
    rewrite Hv. reflexivity.
  - rewrite bind_ret, Hwkb, bind_ret.
    unfold disaggregating, reconciled_grid in Hv. unfold rs_grid. cbn [src_rast].
    rewrite Hv. reflexivity.
Qed.

(** A call that fails one of the checks stops without any collaborator
    call. *)
Lemma CPP_stats_unchecked rast weights wkb default_value default_weight
    stats max_cells quantiles :
  max_cells < 1 \/ layers_clash rast weights = true \/ read_wkb wkb = None \/
  forallb (stat_accepted (disaggregating rast weights) quantiles) stats = false ->
  exists e,
    CPP_stats rast weights wkb default_value default_weight stats max_cells quantiles =
    ([], inl e) /\
    (e = InvalidMaxCells max_cells \/ e = IncompatibleLayers \/ e = GeometryError \/
     e = DisaggregatedCountSum \/ e = QuantilesNotSpecified).
Proof.
  intros Hbad.
  destruct (Z.lt_ge_cases max_cells 1) as [Hmc|Hmc].
  { eexists. split; [apply CPP_stats_max_cells; exact Hmc|]. tauto. }
  destruct (layers_clash rast weights) eqn:Hclash.
  { eexists. split; [apply CPP_stats_clash; assumption|]. tauto. }
  destruct (read_wkb wkb) as [geom|] eqn:Hwkb.
  2:{ eexists. split; [apply CPP_stats_bad_wkb; assumption|]. tauto. }
  destruct Hbad as [?|[?|[?|Hacc]]]; [lia|discriminate|discriminate|].
  destruct (CPP_stats_not_accepted rast weights wkb geom default_value
              default_weight stats max_cells quantiles Hmc Hclash Hwkb Hacc)
    as (e & -> & _ & He).
  exists e. split; [reflexivity|]. tauto.
Qed.

Lemma window_phase_outcome rast weights geom default_value default_weight
    stats max_cells :
  exists raster_stats,
    outcome (window_phase rast weights geom default_value default_weight
               stats max_cells) = inr raster_stats /\
    length raster_stats = Z.to_nat (Z.max (get_nlayers rast) (nweights_of weights)) /\
    forall j, 0 <= j < Z.max (get_nlayers rast) (nweights_of weights) ->
      raster_stats !! Z.to_nat j =
      Some (final_row rast weights geom default_value default_weight stats
              max_cells j).
Proof.
  unfold window_phase. eexists. split.
  { apply accumulate_outcome. apply weight_source_none. }
  split.
  - rewrite windows_length. apply length_replicate.
  - intros j Hj. rewrite windows_lookup by apply length_replicate.
    rewrite lookup_replicate_2 by lia. cbn [fmap option_fmap option_map].
    rewrite Z2Nat.id by lia. reflexivity.
Qed.

(** A call that passed the checks, with every name in the catalogue:
    the matrix holds, row by row, the cells of the final accumulators. *)
Lemma CPP_stats_success rast weights wkb geom default_value default_weight
    stats max_cells quantiles :
  1 <= max_cells ->
  layers_clash rast weights = false ->
  read_wkb wkb = Some geom ->
  forallb (stat_accepted (disaggregating rast weights) quantiles) stats = true ->
  forallb supported stats = true ->
  exists m,
    CPP_stats rast weights wkb default_value default_weight stats max_cells quantiles =
    (trace_of (window_phase rast weights geom default_value default_weight
                 stats max_cells), inr m) /\
    nrow m = Z.max (get_nlayers rast) (nweights_of weights) /\
    ncol m = total_width quantiles stats /\
    forall j i,
      0 <= j < Z.max (get_nlayers rast) (nweights_of weights) -> 0 <= i ->
      mget m j i =
      row_cells (final_row rast weights geom default_value default_weight stats
                   max_cells j) quantiles stats !! Z.to_nat i.
Proof.
  intros Hmc Hclash Hwkb Hacc Hsup.
  rewrite (CPP_stats_checked _ _ _ geom) by assumption.
  destruct (window_phase_outcome rast weights geom default_value default_weight
              stats max_cells) as (accs & Hout & Hlen & Hrow).
  rewrite (bind_outcome_inr _ _ accs Hout).
  rewrite write_results_supported by assumption.
  cbn [trace_of outcome fst snd]. rewrite app_nil_r.
  eexists. split; [reflexivity|].
  split; [apply write_rows_dims|]. split; [apply write_rows_dims|].
  intros j i Hj Hi.
  rewrite mget_write_rows by (try apply NoDup_seqZ; assumption).
  rewrite decide_True by (apply elem_of_seqZ; lia).
  rewrite Hrow by assumption.
  destruct (decide (i < Z.of_nat (length (row_cells
              (final_row rast weights geom default_value default_weight stats
                 max_cells j) quantiles stats)))) as [Hlt|Hge]; [reflexivity|].
  unfold mget, no_init; cbn [mdata]. rewrite lookup_empty.
  symmetry. apply lookup_ge_None. lia.
Qed.

(** A call that passed the checks, with a name outside the catalogue and
    at least one output row. *)
Lemma CPP_stats_unknown rast weights wkb geom default_value default_weight
    stats max_cells quantiles :
  1 <= max_cells ->
  layers_clash rast weights = false ->
  read_wkb wkb = Some geom ->
  forallb (stat_accepted (disaggregating rast weights) quantiles) stats = true ->
  forallb supported stats = false ->
  0 < Z.max (get_nlayers rast) (nweights_of weights) ->
  exists stat, In stat stats /\ supported stat = false /\
    CPP_stats rast weights wkb default_value default_weight stats max_cells quantiles =
    (trace_of (window_phase rast weights geom default_value default_weight
                 stats max_cells), inl (UnknownStat stat)).
Proof.
  intros Hmc Hclash Hwkb Hacc Hsup Hrows.
  rewrite (CPP_stats_checked _ _ _ geom) by assumption.
  destruct (window_phase_outcome rast weights geom default_value default_weight
              stats max_cells) as (accs & Hout & Hlen & Hrow).
  rewrite (bind_outcome_inr _ _ accs Hout).
  destruct (write_results_unsupported accs stats quantiles
              (Z.max (get_nlayers rast) (nweights_of weights))
              (no_init (Z.max (get_nlayers rast) (nweights_of weights))
                       (total_width quantiles stats)) Hsup Hrows Hlen)
    as (stat & Hin & Hns & ->).
  exists stat. split; [exact Hin|]. split; [exact Hns|].
  cbn [trace_of outcome fst snd]. rewrite app_nil_r. reflexivity.
Qed.

(** The trace of any call is empty or that of the window phase, and the
    errors of a call that reached the window phase are unknown names. *)
Lemma CPP_stats_checked_cases rast weights wkb geom default_value default_weight
    stats max_cells quantiles :
  1 <= max_cells ->
  layers_clash rast weights = false ->
  read_wkb wkb = Some geom ->
  forallb (stat_accepted (disaggregating rast weights) quantiles) stats = true ->
  trace_of (CPP_stats rast weights wkb default_value default_weight stats
              max_cells quantiles) =
  trace_of (window_phase rast weights geom default_value default_weight
              stats max_cells) /\
  ((exists m, outcome (CPP_stats rast weights wkb default_value default_weight
                         stats max_cells quantiles) = inr m /\
              nrow m = Z.max (get_nlayers rast) (nweights_of weights) /\
              ncol m = total_width quantiles stats) \/
   (exists stat, In stat stats /\ supported stat = false /\
      outcome (CPP_stats rast weights wkb default_value default_weight stats
                 max_cells quantiles) = inl (UnknownStat stat))).
Proof.
  intros Hmc Hclash Hwkb Hacc.
  rewrite (CPP_stats_checked _ _ _ geom) by assumption.
  destruct (window_phase_outcome rast weights geom default_value default_weight
              stats max_cells) as (accs & Hout & Hlen & Hrow).
  rewrite (bind_outcome_inr _ _ accs Hout).
  cbn [trace_of outcome fst snd].
  destruct (write_results_cases accs stats quantiles
              (Z.max (get_nlayers rast) (nweights_of weights))
              (no_init (Z.max (get_nlayers rast) (nweights_of weights))
                       (total_width quantiles stats)))
    as [(m & Hm)|(stat & Hin & Hns & Hm)].
  - rewrite Hm. cbn [fst snd]. rewrite app_nil_r. split; [reflexivity|].
    left. exists m. split; [reflexivity|].
    destruct (forallb supported stats) eqn:Hs.
    + rewrite write_results_supported in Hm by assumption.
      injection Hm as <-. apply write_rows_dims.
    + destruct (Z.lt_ge_cases 0 (Z.max (get_nlayers rast) (nweights_of weights)))
        as [Hpos|Hnon].
      * destruct (write_results_unsupported accs stats quantiles _
                    (no_init (Z.max (get_nlayers rast) (nweights_of weights))
                             (total_width quantiles stats)) Hs Hpos Hlen)
          as (? & _ & _ & Heq). congruence.
      * rewrite write_results_no_rows in Hm by assumption.
        injection Hm as <-. split; reflexivity.
  - rewrite Hm. cbn [fst snd]. rewrite app_nil_r. split; [reflexivity|].
    right. exists stat. auto.
Qed.

Lemma CPP_stats_inr_inv rast weights wkb default_value default_weight
    stats max_cells quantiles m :
  outcome (CPP_stats rast weights wkb default_value default_weight stats
             max_cells quantiles) = inr m ->
  1 <= max_cells /\ layers_clash rast weights = false /\
  (exists geom, read_wkb wkb = Some geom) /\
  forallb (stat_accepted (disaggregating rast weights) quantiles) stats = true.
Proof.
  intros Hm.
  assert (~ (max_cells < 1 \/ layers_clash rast weights = true \/
             read_wkb wkb = None \/
             forallb (stat_accepted (disaggregating rast weights) quantiles) stats
             = false)) as Hgood.
  { intros Hbad.
    destruct (CPP_stats_unchecked rast weights wkb default_value default_weight
                stats max_cells quantiles Hbad) as (e & He & _).
    rewrite He in Hm. discriminate. }
  split; [lia|].
  split; [destruct (layers_clash rast weights); tauto|].
  split; [destruct (read_wkb wkb) as [geom|]; [eauto|tauto]|].
  destruct (forallb _ stats); tauto.
Qed.

Lemma CPP_stats_inr_supported rast weights wkb default_value default_weight stats
    max_cells quantiles m :
  outcome (CPP_stats rast weights wkb default_value default_weight stats
             max_cells quantiles) = inr m ->
  0 < Z.max (get_nlayers rast) (nweights_of weights) ->
  forallb supported stats = true.
Proof.
  intros Hm Hpos.
  destruct (CPP_stats_inr_inv _ _ _ _ _ _ _ _ _ Hm)
    as (Hmc & Hclash & [geom Hwkb] & Hacc).
  destruct (forallb supported stats) eqn:Hs; [reflexivity|].
  destruct (CPP_stats_unknown rast weights wkb geom default_value default_weight
              stats max_cells quantiles Hmc Hclash Hwkb Hacc Hs Hpos)
    as (stat & _ & _ & Heq).
  rewrite Heq in Hm. discriminate.
Qed.

Lemma forallb_member_false {A} (f : A -> bool) (l : list A) x :
  In x l -> f x = false -> forallb f l = false.
Proof.
  intros Hin Hx. destruct (forallb f l) eqn:E; [|reflexivity].
  rewrite forallb_forall in E. rewrite (E x Hin) in Hx. discriminate.
Qed.

Lemma validate_stats_quantile_error disaggregated quantiles stats store_values n :
  outcome (validate_stats disaggregated quantiles stats store_values n) =
  inl QuantilesNotSpecified ->
  In "quantile" stats /\ qvec_of quantiles = [].
Proof.
  revert store_values n. induction stats as [|stat stats IH]; intros sv n.
  - discriminate.
  - cbn [validate_stats].
    destruct (disaggregated && ((stat == "count") || (stat == "sum")));
      [discriminate|].
    replace (match quantiles with Some qvec => Z.of_nat (length qvec) | None => 0 end)
      with (Z.of_nat (length (qvec_of quantiles))) by (destruct quantiles; reflexivity).
    destruct (stat == "quantile") eqn:Eq.
    + destruct (Z.of_nat (length (qvec_of quantiles)) =? 0) eqn:Hz.
      * intros _. apply String.eqb_eq in Eq as ->. split; [left; reflexivity|].
        apply Z.eqb_eq in Hz. destruct (qvec_of quantiles); [reflexivity|].
        simpl in Hz. lia.
      * intros H. apply IH in H as [Hin Hq]. split; [right; exact Hin|exact Hq].
    + intros H. apply IH in H as [Hin Hq]. split; [right; exact Hin|exact Hq].
Qed.

Lemma validate_stats_aggregated quantiles stats store_values n :
  outcome (validate_stats false quantiles stats store_values n) <>
  inl DisaggregatedCountSum.
Proof.
  revert store_values n. induction stats as [|stat stats IH]; intros sv n Hv;
    [discriminate|].
  cbn [validate_stats andb] in Hv.
  destruct (stat == "quantile");
    [destruct (_ =? 0); [discriminate|]|]; exact (IH _ _ Hv).
Qed.

Lemma row_cells_app rs quantiles xs ys :
  row_cells rs quantiles (xs ++ ys) =
  row_cells rs quantiles xs ++ row_cells rs quantiles ys.
Proof. unfold row_cells. apply flat_map_app. Qed.

End DriverFacts.

(** * The claims about [CPP_stats] that the driver alone decides *)

Section DriverClaims.
Context `{W : World} `{RSO : !RasterStatsOps}.

(** C8: a request with [max_cells_in_memory < 1] stops with the
    invalid-value error before the window planner, the coverage provider
    or a raster source is called (the trace is empty); a request with
    [max_cells_in_memory >= 1] never stops with that error. *)
Theorem max_cells_checked_first rast weights wkb default_value default_weight
    stats max_cells quantiles :
  (max_cells < 1 ->
   CPP_stats rast weights wkb default_value default_weight stats max_cells quantiles =
   ([], inl (InvalidMaxCells max_cells))) /\
  (1 <= max_cells ->
   forall n,
     outcome (CPP_stats rast weights wkb default_value default_weight stats
                max_cells quantiles) <> inl (InvalidMaxCells n)).
Proof.
  split; [apply CPP_stats_max_cells|].
  intros Hmc n Hn.
  destruct (layers_clash rast weights) eqn:Hclash.
  { rewrite CPP_stats_clash in Hn by assumption. discriminate. }
  destruct (read_wkb wkb) as [geom|] eqn:Hwkb.
  2:{ rewrite CPP_stats_bad_wkb in Hn by assumption. discriminate. }
  destruct (forallb (stat_accepted (disaggregating rast weights) quantiles) stats)
    eqn:Hacc.
  - destruct (CPP_stats_checked_cases rast weights wkb geom default_value
                default_weight stats max_cells quantiles Hmc Hclash Hwkb Hacc)
      as [_ [(m & Hm & _)|(stat & _ & _ & Hs)]]; congruence.
  - destruct (CPP_stats_not_accepted rast weights wkb geom default_value
                default_weight stats max_cells quantiles Hmc Hclash Hwkb Hacc)
      as (e & He & _ & [-> | ->]); rewrite He in Hn; discriminate.
Qed.

(** C4: when the value raster and the weight raster both have more than
    one layer and the counts differ, the call stops with a configuration
    error and an empty trace (the layer error, unless [max_cells_in_memory]
    is itself invalid); every matrix the call returns has
    [max nlayers nweights] rows. *)
Theorem layer_counts_checked rast weights wkb default_value default_weight
    stats max_cells quantiles :
  (forall weights_s4,
     weights = Some weights_s4 ->
     1 < get_nlayers rast -> 1 < get_nlayers weights_s4 ->
     get_nlayers rast <> get_nlayers weights_s4 ->
     exists e,
       CPP_stats rast weights wkb default_value default_weight stats max_cells
         quantiles = ([], inl e) /\
       (e = IncompatibleLayers \/ e = InvalidMaxCells max_cells) /\
       (1 <= max_cells -> e = IncompatibleLayers)) /\
  (forall m,
     outcome (CPP_stats rast weights wkb default_value default_weight stats
                max_cells quantiles) = inr m ->
     nrow m = Z.max (get_nlayers rast) (nweights_of weights)).
Proof.
  split.
  - intros weights_s4 -> Hl Hw Hne.
    assert (layers_clash rast (Some weights_s4) = true) as Hclash.
    { unfold layers_clash.
      apply Z.ltb_lt in Hl, Hw. apply Z.eqb_neq in Hne. rewrite Hl, Hw, Hne.
      reflexivity. }
    destruct (Z.lt_ge_cases max_cells 1) as [Hmc|Hmc].
    + eexists. split; [apply CPP_stats_max_cells; exact Hmc|].
      split; [right; reflexivity|]. lia.
    + eexists. split; [apply CPP_stats_clash; assumption|].
      split; [left; reflexivity|]. reflexivity.
  - intros m Hm.
    destruct (CPP_stats_inr_inv _ _ _ _ _ _ _ _ _ Hm)
      as (Hmc & Hclash & (geom & Hwkb) & Hacc).
    destruct (CPP_stats_checked_cases rast weights wkb geom default_value
                default_weight stats max_cells quantiles Hmc Hclash Hwkb Hacc)
      as [_ [(m' & Hm' & Hrows & _)|(stat & _ & _ & Hs)]]; [|congruence].
    rewrite Hm in Hm'. injection Hm' as ->. exact Hrows.
Qed.

(** C3: when the reconciled grid is strictly finer than the value
    raster's grid and "count" or "sum" is requested, the call stops with
    an empty trace, and the error is the disaggregation error once the
    earlier checks pass and the quantile fractions are in order; the same
    rasters with only "mean" requested give a matrix. *)
Theorem disaggregation_checked rast weights wkb default_value default_weight
    stats max_cells quantiles :
  disaggregating rast weights = true ->
  (In "count" stats \/ In "sum" stats ->
   exists e,
     CPP_stats rast weights wkb default_value default_weight stats max_cells
       quantiles = ([], inl e) /\
     (1 <= max_cells -> layers_clash rast weights = false ->
      read_wkb wkb <> None ->
      (In "quantile" stats -> qvec_of quantiles <> []) ->
      e = DisaggregatedCountSum)) /\
  (1 <= max_cells -> layers_clash rast weights = false ->
   read_wkb wkb <> None ->
   exists m,
     outcome (CPP_stats rast weights wkb default_value default_weight ["mean"]
                max_cells quantiles) = inr m).
Proof.
  intros Hdis. split.
  - intros Hreq.
    assert (forallb (stat_accepted (disaggregating rast weights) quantiles) stats
            = false) as Hacc.
    { rewrite Hdis.
      destruct Hreq as [Hin|Hin];
        apply (forallb_member_false _ _ _ Hin); reflexivity. }
    destruct (CPP_stats_unchecked rast weights wkb default_value default_weight
                stats max_cells quantiles) as (e & He & _); [tauto|].
    exists e. split; [exact He|].
    intros Hmc Hclash Hwkb Hq.
    destruct (read_wkb wkb) as [geom|] eqn:Hg; [|congruence].
    destruct (CPP_stats_not_accepted rast weights wkb geom default_value
                default_weight stats max_cells quantiles Hmc Hclash Hg Hacc)
      as (e' & He' & Hv & [-> | ->]); rewrite He in He'; injection He' as ->;
      [reflexivity|].
    exfalso. apply (f_equal snd) in Hv.
    apply validate_stats_quantile_error in Hv as [Hin Hnil]. exact (Hq Hin Hnil).
  - intros Hmc Hclash Hwkb.
    destruct (read_wkb wkb) as [geom|] eqn:Hg; [|congruence].
    destruct (CPP_stats_success rast weights wkb geom default_value default_weight
                ["mean"] max_cells quantiles Hmc Hclash Hg)
      as (m & Hm & _).
    + rewrite Hdis. reflexivity.
    + reflexivity.
    + exists m. rewrite Hm. reflexivity.
Qed.

(** C10: when the bounding box of the geometry misses the extent of the
    reconciled grid, the call logs no collaborator call (no sub-grid, no
    coverage, no raster read), and a request that passes the checks still
    gets a matrix of [max nlayers nweights] rows whose cells are those of
    freshly created accumulators. *)
Theorem disjoint_bbox_reads_nothing rast weights wkb geom default_value
    default_weight stats max_cells quantiles :
  read_wkb wkb = Some geom ->
  box_intersects (geos_get_box geom)
    (grid_extent (reconciled_grid rast weights)) = false ->
  trace_of (CPP_stats rast weights wkb default_value default_weight stats
              max_cells quantiles) = [] /\
  (1 <= max_cells -> layers_clash rast weights = false ->
   forallb (stat_accepted (disaggregating rast weights) quantiles) stats = true ->
   forallb supported stats = true ->
   exists m,
     outcome (CPP_stats rast weights wkb default_value default_weight stats
                max_cells quantiles) = inr m /\
     nrow m = Z.max (get_nlayers rast) (nweights_of weights) /\
     ncol m = total_width quantiles stats /\
     forall j i,
       0 <= j < Z.max (get_nlayers rast) (nweights_of weights) ->
       0 <= i < total_width quantiles stats ->
       mget m j i =
       row_cells (RasterStats_new (stores_values stats)) quantiles stats
         !! Z.to_nat i /\
       is_Some (mget m j i)).
Proof.
  intros Hwkb Hmiss.
  assert (trace_of (window_phase rast weights geom default_value default_weight
                      stats max_cells) = []) as Hquiet.
  { unfold window_phase. rewrite accumulate_disjoint by exact Hmiss. reflexivity. }
  split.
  - destruct (Z.lt_ge_cases max_cells 1) as [Hmc|Hmc].
    { rewrite CPP_stats_max_cells by exact Hmc. reflexivity. }
    destruct (layers_clash rast weights) eqn:Hclash.
    { rewrite CPP_stats_clash by assumption. reflexivity. }
    destruct (forallb (stat_accepted (disaggregating rast weights) quantiles) stats)
      eqn:Hacc.
    + destruct (CPP_stats_checked_cases rast weights wkb geom default_value
                  default_weight stats max_cells quantiles Hmc Hclash Hwkb Hacc)
        as [-> _]. exact Hquiet.
    + destruct (CPP_stats_not_accepted rast weights wkb geom default_value
                  default_weight stats max_cells quantiles Hmc Hclash Hwkb Hacc)
        as (e & -> & _). reflexivity.
  - intros Hmc Hclash Hacc Hsup.
    destruct (CPP_stats_success rast weights wkb geom default_value default_weight
                stats max_cells quantiles Hmc Hclash Hwkb Hacc Hsup)
      as (m & Hm & Hrows & Hcols & Hcells).
    exists m. rewrite Hm. split; [reflexivity|].
    split; [exact Hrows|]. split; [exact Hcols|].
    intros j i Hj Hi.
    assert (mget m j i =
            row_cells (RasterStats_new (stores_values stats)) quantiles stats
              !! Z.to_nat i) as Hget.
    { rewrite Hcells by lia. unfold final_row, visited_subgrids.
      rewrite Hmiss. reflexivity. }
    split; [exact Hget|]. rewrite Hget. apply lookup_lt_is_Some.
    pose proof (row_cells_width (RasterStats_new (stores_values stats))
                  quantiles stats Hsup). lia.
Qed.


(** C9: a request for "quantile" without quantile fractions (none given,
    or an empty list) stops with an empty trace, and with the quantile
    error once the earlier checks pass and no disaggregation error comes
    first; in every matrix returned, the "quantile" entry of the request
    fills as many consecutive columns as there are fractions, the [k]-th
    of them with the quantile of the [k]-th fraction. *)
Theorem quantiles_checked_and_expanded rast weights wkb default_value
    default_weight stats max_cells quantiles :
  (In "quantile" stats -> quantiles = None \/ quantiles = Some [] ->
   exists e,
     CPP_stats rast weights wkb default_value default_weight stats max_cells
       quantiles = ([], inl e) /\
     (1 <= max_cells -> layers_clash rast weights = false ->
      read_wkb wkb <> None -> disaggregating rast weights = false ->
      e = QuantilesNotSpecified)) /\
  (forall m geom,
     outcome (CPP_stats rast weights wkb default_value default_weight stats
                max_cells quantiles) = inr m ->
     read_wkb wkb = Some geom ->
     ncol m = total_width quantiles stats /\
     forall pre post j k q,
       stats = pre ++ "quantile" :: post ->
       0 <= j < nrow m ->
       qvec_of quantiles !! k = Some q ->
       mget m j (total_width quantiles pre + Z.of_nat k) =
       Some (value_or_NA
               (rs_quantile (final_row rast weights geom default_value
                               default_weight stats max_cells j) q))).
Proof.
  split.
  - intros Hin Hnone.
    assert (qvec_of quantiles = []) as Hq by (destruct Hnone as [-> | ->]; reflexivity).
    assert (forallb (stat_accepted (disaggregating rast weights) quantiles) stats
            = false) as Hacc.
    { apply (forallb_member_false _ _ _ Hin). unfold stat_accepted.
      rewrite Hq. cbn. apply andb_false_r. }
    destruct (CPP_stats_unchecked rast weights wkb default_value default_weight
                stats max_cells quantiles) as (e & He & _); [tauto|].
    exists e. split; [exact He|].
    intros Hmc Hclash Hwkb Hdis.
    destruct (read_wkb wkb) as [geom|] eqn:Hg; [|congruence].
    destruct (CPP_stats_not_accepted rast weights wkb geom default_value
                default_weight stats max_cells quantiles Hmc Hclash Hg Hacc)
      as (e' & He' & Hv & [-> | ->]); rewrite He in He'; injection He' as ->;
      [|reflexivity].
    exfalso. rewrite Hdis in Hv. apply (f_equal snd) in Hv.
    exact (validate_stats_aggregated _ _ _ _ Hv).
  - intros m geom Hm Hwkb.
    destruct (CPP_stats_inr_inv _ _ _ _ _ _ _ _ _ Hm)
      as (Hmc & Hclash & _ & Hacc).
    destruct (CPP_stats_checked_cases rast weights wkb geom default_value
                default_weight stats max_cells quantiles Hmc Hclash Hwkb Hacc)
      as [_ [(m' & Hm' & Hrows & Hcols)|(stat & _ & _ & Hs)]]; [|congruence].
    rewrite Hm in Hm'. injection Hm' as <-.
    split; [exact Hcols|].
    intros pre post j k q Hstats Hj Hk.
    destruct (forallb supported stats) eqn:Hsup.
    2:{ destruct (CPP_stats_unknown rast weights wkb geom default_value
                    default_weight stats max_cells quantiles
                    Hmc Hclash Hwkb Hacc Hsup) as (stat & _ & _ & Hs); [lia|].
        rewrite Hs in Hm. discriminate. }
    destruct (CPP_stats_success rast weights wkb geom default_value default_weight
                stats max_cells quantiles Hmc Hclash Hwkb Hacc Hsup)
      as (m' & Hm' & _ & _ & Hcells).
    rewrite Hm' in Hm. injection Hm as ->.
    assert (forallb supported pre = true) as Hpre.
    { rewrite Hstats, forallb_app in Hsup. apply andb_prop in Hsup as [? _].
      assumption. }
    pose proof (row_cells_width
                  (final_row rast weights geom default_value default_weight
                     stats max_cells j) quantiles pre Hpre) as Hw.
    assert (0 <= total_width quantiles pre) as Hpos by lia.
    rewrite Hcells by lia.
    rewrite Hstats at 2. rewrite row_cells_app.
    rewrite lookup_app_r by lia.
    replace (Z.to_nat (total_width quantiles pre + Z.of_nat k) -
             length (row_cells (final_row rast weights geom default_value
                                  default_weight stats max_cells j)
                       quantiles pre))%nat with k by lia.
    unfold row_cells at 1. cbn [flat_map]. cbn.
    rewrite lookup_app_l
      by (rewrite length_map; apply lookup_lt_Some in Hk; exact Hk).
    rewrite list_lookup_fmap, Hk. reflexivity.
Qed.

(** Two requests that pass the same checks and end with the same
    accumulators have the same outcome. *)
Lemma CPP_stats_outcome_ext rast weights rast' weights' wkb default_value
    default_weight stats max_cells max_cells' quantiles :
  max_cells = max_cells' \/ (1 <= max_cells /\ 1 <= max_cells') ->
  layers_clash rast weights = layers_clash rast' weights' ->
  disaggregating rast weights = disaggregating rast' weights' ->
  Z.max (get_nlayers rast) (nweights_of weights) =
  Z.max (get_nlayers rast') (nweights_of weights') ->
  (forall geom j,
     read_wkb wkb = Some geom ->
     0 <= j < Z.max (get_nlayers rast) (nweights_of weights) ->
     final_row rast weights geom default_value default_weight stats max_cells j =
     final_row rast' weights' geom default_value default_weight stats max_cells' j) ->
  outcome (CPP_stats rast weights wkb default_value default_weight stats
             max_cells quantiles) =
  outcome (CPP_stats rast' weights' wkb default_value default_weight stats
             max_cells' quantiles).
Proof.
  intros Hcells Hclash Hdis Hmax Hrows.
  destruct (Z.lt_ge_cases max_cells 1) as [Hmc|Hmc].
  { assert (max_cells = max_cells') as <- by lia.
    rewrite !CPP_stats_max_cells by exact Hmc. reflexivity. }
  assert (1 <= max_cells') as Hmc' by lia.
  destruct (layers_clash rast weights) eqn:Hc.
  { rewrite !CPP_stats_clash by congruence. reflexivity. }
  destruct (read_wkb wkb) as [geom|] eqn:Hwkb.
  2:{ rewrite !CPP_stats_bad_wkb by congruence. reflexivity. }
  destruct (forallb (stat_accepted (disaggregating rast weights) quantiles) stats)
    eqn:Hacc.
  - rewrite (CPP_stats_checked rast weights wkb geom) by assumption.
    rewrite (CPP_stats_checked rast' weights' wkb geom) by congruence.
    destruct (window_phase_outcome rast weights geom default_value default_weight
                stats max_cells) as (accs & Hout & Hlen & Hrow).
    destruct (window_phase_outcome rast' weights' geom default_value
                default_weight stats max_cells') as (accs' & Hout' & Hlen' & Hrow').
    rewrite (bind_outcome _ _ accs Hout), (bind_outcome _ _ accs' Hout').
    rewrite <- Hmax.
    replace accs' with accs; [reflexivity|].
    apply list_eq. intros k.
    destruct (decide (k < length accs)%nat) as [Hk|Hk].
    + specialize (Hrow (Z.of_nat k)). specialize (Hrow' (Z.of_nat k)).
      rewrite Nat2Z.id in Hrow, Hrow'.
      rewrite Hrow, Hrow' by lia. f_equal. apply Hrows; [reflexivity|lia].
    + rewrite !lookup_ge_None_2 by lia. reflexivity.
  - destruct (CPP_stats_not_accepted rast weights wkb geom default_value
                default_weight stats max_cells quantiles Hmc Hc Hwkb Hacc)
      as (e & -> & Hv & _).
    assert (layers_clash rast' weights' = false) as Hc' by congruence.
    rewrite Hdis in Hacc, Hv.
    destruct (CPP_stats_not_accepted rast' weights' wkb geom default_value
                default_weight stats max_cells' quantiles Hmc' Hc' Hwkb Hacc)
      as (e' & -> & Hv' & _).
    congruence.
Qed.

Lemma row_after_windows_ext rsrc rweights nlayers nweights rsrc' rweights'
    nlayers' nweights' geom subgrids i a :
  (forall cov,
     row_update rsrc rweights nlayers nweights cov i =
     row_update rsrc' rweights' nlayers' nweights' cov i) ->
  row_after_windows rsrc rweights nlayers nweights geom subgrids i a =
  row_after_windows rsrc' rweights' nlayers' nweights' geom subgrids i a.
Proof.
  intros H. unfold row_after_windows. apply fold_left_ext.
  intros a' g. cbn zeta. rewrite H. reflexivity.
Qed.

(** With weights, row [j] is fed the pair of layers that [layer_pair]
    gives. *)
Lemma final_row_paired rast weights_s4 geom default_value default_weight stats
    max_cells j :
  final_row rast (Some weights_s4) geom default_value default_weight stats
    max_cells j =
  paired_row rast weights_s4 default_value default_weight geom
    (visited_subgrids (reconciled_grid rast (Some weights_s4)) geom max_cells)
    (fst (layer_pair (get_nlayers rast) (get_nlayers weights_s4) j))
    (snd (layer_pair (get_nlayers rast) (get_nlayers weights_s4) j))
    (RasterStats_new (stores_values stats)).
Proof.
  unfold final_row, row_after_windows, paired_row. apply fold_left_ext.
  intros a g. cbv zeta.
  unfold row_update, weight_source, value_source, read_box.
  cbn [fmap option_fmap option_map src_rast src_default nweights_of].
  destruct (grid_empty (coverage_grid (raster_cell_intersection g geom)));
    reflexivity.
Qed.

Lemma CPP_stats_weighted_rows rast weights_s4 wkb geom default_value
    default_weight stats max_cells quantiles m :
  read_wkb wkb = Some geom ->
  outcome (CPP_stats rast (Some weights_s4) wkb default_value default_weight
             stats max_cells quantiles) = inr m ->
  nrow m = Z.max (get_nlayers rast) (get_nlayers weights_s4) /\
  forall j i,
    0 <= j < Z.max (get_nlayers rast) (get_nlayers weights_s4) -> 0 <= i ->
    mget m j i =
    row_cells
      (paired_row rast weights_s4 default_value default_weight geom
         (visited_subgrids (reconciled_grid rast (Some weights_s4)) geom
            max_cells)
         (fst (layer_pair (get_nlayers rast) (get_nlayers weights_s4) j))
         (snd (layer_pair (get_nlayers rast) (get_nlayers weights_s4) j))
         (RasterStats_new (stores_values stats)))
      quantiles stats !! Z.to_nat i.
Proof.
  intros Hwkb Hm.
  destruct (CPP_stats_inr_inv _ _ _ _ _ _ _ _ _ Hm) as (Hmc & Hclash & _ & Hacc).
  destruct (CPP_stats_checked_cases rast (Some weights_s4) wkb geom default_value
              default_weight stats max_cells quantiles Hmc Hclash Hwkb Hacc)
    as [_ [(m' & Hm' & Hrows & _)|(stat & _ & _ & Hs)]]; [|congruence].
  rewrite Hm in Hm'. injection Hm' as <-.
  split; [exact Hrows|]. intros j i Hj Hi.
  assert (forallb supported stats = true) as Hsup
    by (apply (CPP_stats_inr_supported _ _ _ _ _ _ _ _ _ Hm); cbn; lia).
  destruct (CPP_stats_success rast (Some weights_s4) wkb geom default_value
              default_weight stats max_cells quantiles Hmc Hclash Hwkb Hacc Hsup)
    as (m' & Hm' & _ & _ & Hcells).
  rewrite Hm' in Hm. injection Hm as ->.
  rewrite Hcells by assumption. rewrite final_row_paired. reflexivity.
Qed.

(** C6: with one weight layer and several value layers, row [j] of the
    matrix holds the statistics of the accumulator that was fed, window
    after window, value layer [j] against weight layer 0; with one value
    layer and several weight layers, value layer 0 against weight layer
    [j]; and in both cases the statistics equal those of the request in
    which the single-layer raster is replaced by one holding that layer
    once per layer of the other side, paired by index. *)
Theorem recycling_equals_duplication wkb default_value default_weight
    stats max_cells quantiles :
  (forall rast single geom m,
     get_nlayers single = 1 -> 1 < get_nlayers rast ->
     read_wkb wkb = Some geom ->
     outcome (CPP_stats rast (Some single) wkb default_value default_weight
                stats max_cells quantiles) = inr m ->
     nrow m = get_nlayers rast /\
     forall j i, 0 <= j < get_nlayers rast -> 0 <= i ->
       mget m j i =
       row_cells
         (paired_row rast single default_value default_weight geom
            (visited_subgrids (reconciled_grid rast (Some single)) geom max_cells)
            j 0 (RasterStats_new (stores_values stats)))
         quantiles stats !! Z.to_nat i) /\
  (forall single weights_s4 geom m,
     get_nlayers single = 1 -> 1 < get_nlayers weights_s4 ->
     read_wkb wkb = Some geom ->
     outcome (CPP_stats single (Some weights_s4) wkb default_value default_weight
                stats max_cells quantiles) = inr m ->
     nrow m = get_nlayers weights_s4 /\
     forall j i, 0 <= j < get_nlayers weights_s4 -> 0 <= i ->
       mget m j i =
       row_cells
         (paired_row single weights_s4 default_value default_weight geom
            (visited_subgrids (reconciled_grid single (Some weights_s4)) geom
               max_cells)
            0 j (RasterStats_new (stores_values stats)))
         quantiles stats !! Z.to_nat i) /\
  (forall rast single copies,
     get_nlayers single = 1 -> 1 < get_nlayers rast ->
     get_nlayers copies = get_nlayers rast ->
     make_grid copies = make_grid single ->
     (forall b i, 0 <= i < get_nlayers rast ->
        getValuesBlock copies default_weight b i =
        getValuesBlock single default_weight b 0) ->
     outcome (CPP_stats rast (Some single) wkb default_value default_weight
                stats max_cells quantiles) =
     outcome (CPP_stats rast (Some copies) wkb default_value default_weight
                stats max_cells quantiles)) /\
  (forall single copies weights_s4,
     get_nlayers single = 1 -> 1 < get_nlayers weights_s4 ->
     get_nlayers copies = get_nlayers weights_s4 ->
     make_grid copies = make_grid single ->
     (forall b i, 0 <= i < get_nlayers weights_s4 ->
        getValuesBlock copies default_value b i =
        getValuesBlock single default_value b 0) ->
     outcome (CPP_stats single (Some weights_s4) wkb default_value default_weight
                stats max_cells quantiles) =
     outcome (CPP_stats copies (Some weights_s4) wkb default_value default_weight
                stats max_cells quantiles)).
Proof.
  split; [|split].
  - intros rast single geom m H1 Hn Hwkb Hm.
    destruct (CPP_stats_weighted_rows _ _ _ _ _ _ _ _ _ _ Hwkb Hm)
      as [Hrows Hcells].
    rewrite H1, Z.max_l in Hrows, Hcells by lia.
    split; [exact Hrows|]. intros j i Hj Hi. rewrite Hcells by assumption.
    unfold layer_pair.
    replace (1 <? get_nlayers rast) with true by (symmetry; apply Z.ltb_lt; lia).
    reflexivity.
  - intros single weights_s4 geom m H1 Hn Hwkb Hm.
    destruct (CPP_stats_weighted_rows _ _ _ _ _ _ _ _ _ _ Hwkb Hm)
      as [Hrows Hcells].
    rewrite H1, Z.max_r in Hrows, Hcells by lia.
    split; [exact Hrows|]. intros j i Hj Hi. rewrite Hcells by assumption.
    unfold layer_pair.
    replace (get_nlayers weights_s4 <? 1) with false
      by (symmetry; apply Z.ltb_ge; lia).
    replace (1 <? get_nlayers weights_s4) with true
      by (symmetry; apply Z.ltb_lt; lia).
    reflexivity.
  - split.
    + intros rast single copies H1 Hn Hc Hgrid Hblock.
      apply CPP_stats_outcome_ext; [left; reflexivity|..].
      * unfold layers_clash. rewrite H1, Hc, Z.eqb_refl.
        destruct (1 <? get_nlayers rast); reflexivity.
      * unfold disaggregating, reconciled_grid. rewrite Hgrid. reflexivity.
      * cbn [nweights_of]. rewrite H1, Hc. lia.
      * cbn [nweights_of]. rewrite H1, Z.max_l by lia. intros geom j _ Hj.
        unfold final_row. cbn [nweights_of reconciled_grid]. rewrite Hgrid.
        apply row_after_windows_ext. intros cov.
        unfold row_update, weight_source, layer_pair, read_box.
        cbn [fmap option_fmap option_map src_rast src_default fst snd].
        rewrite H1, Hc, Z.ltb_irrefl.
        replace (1 <? get_nlayers rast) with true by (symmetry; apply Z.ltb_lt; lia).
        cbn [fst snd]. rewrite Hblock by exact Hj. reflexivity.
    + intros single copies weights_s4 H1 Hn Hc Hgrid Hblock.
      apply CPP_stats_outcome_ext; [left; reflexivity|..].
      * unfold layers_clash. rewrite H1, Hc, Z.eqb_refl.
        destruct (1 <? get_nlayers weights_s4); reflexivity.
      * unfold disaggregating, reconciled_grid. rewrite Hgrid. reflexivity.
      * cbn [nweights_of]. rewrite H1, Hc. lia.
      * cbn [nweights_of]. rewrite H1, Z.max_r by lia. intros geom j _ Hj.
        unfold final_row. cbn [nweights_of reconciled_grid]. rewrite Hgrid.
        rewrite H1, Hc.
        apply row_after_windows_ext. intros cov.
        unfold row_update, weight_source, value_source, layer_pair, read_box.
        cbn [fmap option_fmap option_map src_rast src_default fst snd].
        rewrite Z.ltb_irrefl.
        replace (get_nlayers weights_s4 <? 1) with false
          by (symmetry; apply Z.ltb_ge; lia).
        replace (1 <? get_nlayers weights_s4) with true
          by (symmetry; apply Z.ltb_lt; lia).
        cbn [fst snd]. rewrite Hblock by exact Hj. reflexivity.
Qed.

End DriverClaims.

(** * The claims that rest on the accumulator of the spec *)

Section AccumulatorClaims.
Context `{W : World} `{QR : !QuantileRule}.
#[local] Existing Instance spec_stats.

Lemma covered_triples_none cov (value weight : Cell -> num) :
  (forall cell c, In (cell, c) (cov_cells cov) -> nltb n0 c = false) ->
  covered_triples cov value weight = [].
Proof.
  unfold covered_triples. induction (cov_cells cov) as [|[cell c] l IH]; intros H.
  - reflexivity.
  - cbn [omap list_omap]. rewrite (H cell c) by (left; reflexivity).
    apply IH. intros cell' c' Hin. apply (H cell' c'). right. exact Hin.
Qed.

Lemma row_update_none rsrc rweights nlayers nweights cov i (a : StatsAccumulator) :
  (forall cell c, In (cell, c) (cov_cells cov) -> nltb n0 c = false) ->
  row_update rsrc rweights nlayers nweights cov i a = a.
Proof.
  intros H. unfold row_update. destruct rweights as [rw|]; cbn.
  - unfold acc_process_weighted. rewrite covered_triples_none by exact H.
    reflexivity.
  - unfold acc_process. rewrite covered_triples_none by exact H. reflexivity.
Qed.

Lemma final_row_nothing_covered rast weights geom default_value default_weight
    stats max_cells j :
  nothing_covered (reconciled_grid rast weights) geom max_cells ->
  final_row rast weights geom default_value default_weight stats max_cells j =
  acc_new (stores_values stats).
Proof.
  unfold nothing_covered, final_row, row_after_windows.
  generalize (visited_subgrids (reconciled_grid rast weights) geom max_cells).
  intros gs H.
  change (RasterStats_new (stores_values stats)) with (acc_new (stores_values stats)).
  generalize (acc_new (stores_values stats)). intros a.
  induction gs as [|g gs IH]; [reflexivity|].
  cbn [fold_left].
  assert (forall cell c,
            In (cell, c) (cov_cells (raster_cell_intersection g geom)) ->
            nltb n0 c = false) as Hg
    by (intros cell c; apply H; left; reflexivity).
  rewrite (row_update_none _ _ _ _ _ _ a Hg).
  destruct (negb (grid_empty (coverage_grid (raster_cell_intersection g geom))));
    apply IH; intros g' cell c Hin; apply H; right; exact Hin.
Qed.

Lemma no_cells_new store_values : no_cells (acc_new store_values) = true.
Proof. unfold no_cells. apply bool_decide_eq_true. reflexivity. Qed.

Lemma stat_cells_new store_values quantiles stat :
  supported stat = true ->
  stat_cells (acc_new store_values) quantiles stat =
  Some (degenerate_cells quantiles stat).
Proof.
  unfold supported, catalogue, stat_cells, degenerate_cells. cbn [existsb].
  cbn [rs_mean rs_sum rs_count rs_min rs_max rs_quantile rs_mode rs_minority
       rs_variety rs_weighted_mean rs_weighted_sum rs_variance rs_stdev
       rs_coefficient_of_variation spec_stats].
  unfold acc_mean, acc_sum, acc_count, acc_min_value, acc_max_value,
    acc_quantile, acc_mode, acc_minority, acc_variety, acc_weighted_mean,
    acc_weighted_sum, acc_variance, acc_stdev, acc_coefficient_of_variation,
    guarded, guarded_opt.
  rewrite no_cells_new. cbn [value_or_NA sum_ci acc_new].
  destruct (stat == "mean") eqn:E1.
  { apply String.eqb_eq in E1 as ->. reflexivity. }
  destruct (stat == "sum") eqn:E2.
  { apply String.eqb_eq in E2 as ->. reflexivity. }
  destruct (stat == "count") eqn:E3; [reflexivity|].
  destruct (stat == "min") eqn:E4.
  { apply String.eqb_eq in E4 as ->. reflexivity. }
  destruct (stat == "max") eqn:E5.
  { apply String.eqb_eq in E5 as ->. reflexivity. }
  destruct (stat == "median") eqn:E6.
  { apply String.eqb_eq in E6 as ->. reflexivity. }
  destruct (stat == "mode") eqn:E7.
  { apply String.eqb_eq in E7 as ->. reflexivity. }
  destruct (stat == "majority") eqn:E8.
  { apply String.eqb_eq in E8 as ->. reflexivity. }
  destruct (stat == "minority") eqn:E9.
  { apply String.eqb_eq in E9 as ->. reflexivity. }
  destruct (stat == "variety") eqn:E10; [reflexivity|].
  destruct (stat == "weighted_mean") eqn:E11.
  { apply String.eqb_eq in E11 as ->. reflexivity. }
  destruct (stat == "weighted_sum") eqn:E12.
  { apply String.eqb_eq in E12 as ->. reflexivity. }
  destruct (stat == "variance") eqn:E13.
  { apply String.eqb_eq in E13 as ->. reflexivity. }
  destruct (stat == "stdev") eqn:E14.
  { apply String.eqb_eq in E14 as ->. reflexivity. }
  destruct (stat == "coefficient_of_variation") eqn:E15.
  { apply String.eqb_eq in E15 as ->. reflexivity. }
  destruct (stat == "quantile") eqn:E16; [|discriminate].
  intros _. cbn [orb]. f_equal.
  induction (qvec_of quantiles) as [|q l IH]; [reflexivity|].
  cbn [map length replicate]. rewrite IH. reflexivity.
Qed.

Lemma row_cells_new store_values quantiles stats :
  forallb supported stats = true ->
  row_cells (acc_new store_values) quantiles stats = degenerate_row quantiles stats.
Proof.
  induction stats as [|stat stats IH]; intros Hs; [reflexivity|].
  simpl in Hs. apply andb_prop in Hs as [Hs Hrest].
  unfold row_cells, degenerate_row. cbn [flat_map].
  rewrite (stat_cells_new _ _ _ Hs). cbn [default from_option id].
  f_equal. apply IH. exact Hrest.
Qed.

(** C5: when no cell of any window has a positive coverage fraction - in
    particular when the bounding box of the geometry misses the grid, so
    that no window is visited - a request that passes the checks gets a
    matrix in which, on every row, "count" and "variety" are 0 and every
    other requested statistic is the missing-value sentinel. *)
Theorem zero_coverage_degenerate rast weights wkb geom default_value
    default_weight stats max_cells quantiles :
  read_wkb wkb = Some geom ->
  nothing_covered (reconciled_grid rast weights) geom max_cells ->
  1 <= max_cells ->
  layers_clash rast weights = false ->
  forallb (stat_accepted (disaggregating rast weights) quantiles) stats = true ->
  forallb supported stats = true ->
  exists m,
    outcome (CPP_stats rast weights wkb default_value default_weight stats
               max_cells quantiles) = inr m /\
    nrow m = Z.max (get_nlayers rast) (nweights_of weights) /\
    ncol m = total_width quantiles stats /\
    Z.of_nat (length (degenerate_row quantiles stats)) = total_width quantiles stats /\
    forall j i,
      0 <= j < Z.max (get_nlayers rast) (nweights_of weights) -> 0 <= i ->
      mget m j i = degenerate_row quantiles stats !! Z.to_nat i.
Proof.
  intros Hwkb Hnone Hmc Hclash Hacc Hsup.
  destruct (CPP_stats_success rast weights wkb geom default_value default_weight
              stats max_cells quantiles Hmc Hclash Hwkb Hacc Hsup)
    as (m & Hm & Hrows & Hcols & Hcells).
  exists m. rewrite Hm. split; [reflexivity|].
  split; [exact Hrows|]. split; [exact Hcols|]. split.
  - rewrite <- (row_cells_new (stores_values stats)) by exact Hsup.
    apply (row_cells_width (RSO := spec_stats)). exact Hsup.
  - intros j i Hj Hi. rewrite Hcells by assumption.
    rewrite final_row_nothing_covered by exact Hnone.
    rewrite row_cells_new by exact Hsup. reflexivity.
Qed.

(** *** The windows as streams of triples *)












End AccumulatorClaims.

(** * The extraction table *)

Section ExtractFacts.
Context `{W : World}.

Lemma bind_inr_inv {A B} (m : M A) (f : A -> M B) b :
  outcome (m ≫= f) = inr b ->
  exists a, outcome m = inr a /\ outcome (f a) = inr b.
Proof.
  rewrite bind_unfold. destruct m as [t [e|a]]; cbn; [discriminate|].
  intros H. exists a. split; [reflexivity|exact H].
Qed.

(** A property of the loop state that every successful pass keeps holds
    after a loop that succeeds. *)
Lemma for_each_inv {A S} (P : list A -> S -> Prop) (l : list A)
    (body : A -> S -> M S) s0 s' :
  P [] s0 ->
  (forall done x s s1,
     P done s -> outcome (body x s) = inr s1 -> P (done ++ [x]) s1) ->
  outcome (for_each l body s0) = inr s' ->
  P l s'.
Proof.
  intros H0 Hstep.
  assert (forall done s, P done s -> outcome (for_each l body s) = inr s' ->
                         P (done ++ l) s') as Hgen.
  { induction l as [|x l IH]; intros done s HP Hrun.
    - cbn in Hrun. injection Hrun as <-. rewrite app_nil_r. exact HP.
    - cbn [for_each] in Hrun. apply bind_inr_inv in Hrun as (s1 & Hx & Hrun).
      replace (done ++ x :: l) with ((done ++ [x]) ++ l)
        by (rewrite <- app_assoc; reflexivity).
      apply (IH (done ++ [x]) s1); [|exact Hrun].
      apply (Hstep done x s s1); assumption. }
  intros Hrun. apply (Hgen [] s0 H0 Hrun).
Qed.

Lemma set_named_names l name v :
  map fst (set_named l name v) = assign (map fst l) name.
Proof.
  unfold assign. induction l as [|[n x] l IH]; [reflexivity|].
  cbn [set_named map fst existsb].
  destruct (n == name); [reflexivity|].
  cbn [map fst orb]. rewrite IH.
  destruct (existsb (fun n0 => n0 == name) (map fst l)); reflexivity.
Qed.

Lemma containsElementNamed_names l name :
  containsElementNamed l name = existsb (fun n => n == name) (map fst l).
Proof.
  unfold containsElementNamed. induction l as [|[n x] l IH]; [reflexivity|].
  cbn [existsb map fst]. rewrite IH. reflexivity.
Qed.

Lemma In_set_named l name v e :
  In e (set_named l name v) -> In e l \/ snd e = v.
Proof.
  induction l as [|[n x] l IH]; cbn [set_named].
  - intros [<-|[]]. right. reflexivity.
  - destruct (n == name).
    + intros [<-|Hin]; [right; reflexivity|left; right; exact Hin].
    + intros [<-|Hin]; [left; left; reflexivity|].
      destruct (IH Hin) as [?|?]; [left; right; assumption|right; assumption].
Qed.

Lemma numeric_rows_set_num k l name v :
  numeric_rows k l -> length v = k -> numeric_rows k (set_named l name (ColNum v)).
Proof.
  intros Hl Hv n v' Hin. apply In_set_named in Hin as [Hin|Heq].
  - exact (Hl n v' Hin).
  - cbn in Heq. injection Heq as ->. exact Hv.
Qed.

Lemma numeric_rows_set_pass k l name p :
  numeric_rows k l -> numeric_rows k (set_named l name (ColPass p)).
Proof.
  intros Hl n v' Hin. apply In_set_named in Hin as [Hin|Heq].
  - exact (Hl n v' Hin).
  - discriminate.
Qed.

Lemma subset_logical_inv v mask v' :
  outcome (subset_logical v mask) = inr v' ->
  length v = length mask /\ v' = mask_select v mask.
Proof.
  unfold subset_logical. destruct (length v =? length mask)%nat eqn:E.
  - intros [= <-]. apply Nat.eqb_eq in E. split; [exact E|reflexivity].
  - discriminate.
Qed.

(** Selecting by the coverage mask keeps one entry per covered cell. *)
Lemma mask_select_covered cov (v : list num) :
  length v = length (coverage_vector cov) ->
  length (mask_select v (map (fun c => nltb n0 c) (coverage_vector cov))) =
  length (covered_cells cov).
Proof.
  unfold coverage_vector, covered_cells. revert v.
  induction (cov_cells cov) as [|[cell c] l IH]; intros v Hlen.
  - destruct v; reflexivity.
  - destruct v as [|x v]; [discriminate|]. cbn [map snd mask_select].
    rewrite filter_cons. injection Hlen as Hlen.
    destruct (decide (is_covered (cell, c) = true)) as [Hc|Hc];
      unfold is_covered in Hc; cbn [snd] in Hc.
    + rewrite Hc. cbn [length]. f_equal. apply IH. exact Hlen.
    + apply not_true_is_false in Hc. rewrite Hc. apply IH. exact Hlen.
Qed.

Lemma mask_select_coverage cov :
  mask_select (coverage_vector cov)
    (map (fun c => nltb n0 c) (coverage_vector cov)) =
  map snd (covered_cells cov).
Proof.
  unfold coverage_vector, covered_cells.
  induction (cov_cells cov) as [|[cell c] l IH]; [reflexivity|].
  cbn [map snd mask_select]. rewrite filter_cons.
  destruct (decide (is_covered (cell, c) = true)) as [Hc|Hc];
    unfold is_covered in Hc; cbn [snd] in Hc.
  - rewrite Hc. cbn [map snd]. f_equal. exact IH.
  - apply not_true_is_false in Hc. rewrite Hc. exact IH.
Qed.

Lemma subset_covered cov v v' :
  outcome (subset_logical v (map (fun c => nltb n0 c) (coverage_vector cov))) =
  inr v' ->
  length v' = length (covered_cells cov).
Proof.
  intros H. apply subset_logical_inv in H as [Hlen ->].
  rewrite length_map in Hlen. apply mask_select_covered. exact Hlen.
Qed.

Lemma get_named_set_named (l : named_list) name v :
  get_named (set_named l name v) name = Some v.
Proof.
  induction l as [|[n x] l IH]; cbn [set_named get_named].
  - rewrite String.eqb_refl. reflexivity.
  - destruct (n == name) eqn:E; cbn [get_named]; rewrite E; [reflexivity|exact IH].
Qed.

Lemma call_coverage_outcome g geom :
  outcome (call_coverage g geom) = inr (raster_cell_intersection g geom).
Proof. reflexivity. Qed.

Lemma table_inv_set_num k names cols name v :
  table_inv k names cols -> length v = k ->
  table_inv k (assign names name) (set_named cols name (ColNum v)).
Proof.
  intros [Hn Hr] Hv. split.
  - rewrite set_named_names, Hn. reflexivity.
  - apply numeric_rows_set_num; assumption.
Qed.

Ltac inv_bind H x Hx :=
  cbv zeta in H; apply bind_inr_inv in H as (x & Hx & H).

(** The columns of a table that was built. *)
Lemma extract_table_columns rast weights wkb include_xy include_cell_number
    include_cols src_names grid weights_grid common_grid rsrc rweights
    weights_nlayers weights_names cols :
  outcome (extract_table rast weights wkb include_xy include_cell_number
             include_cols src_names grid weights_grid common_grid rsrc rweights
             weights_nlayers weights_names) = inr cols ->
  exists geom, read_wkb wkb = Some geom /\
    let cov := raster_cell_intersection
                 (grid_crop common_grid (geos_get_box geom)) geom in
    table_inv (length (covered_cells cov))
      (table_names (map fst (default [] include_cols))
         (layer_names src_names (get_nlayers rast))
         (match rweights with
          | Some _ => layer_names weights_names weights_nlayers
          | None => []
          end)
         include_xy include_cell_number) cols /\
    get_named cols "coverage_fraction" = Some (ColNum (map snd (covered_cells cov))) /\
    length (layer_names src_names (get_nlayers rast)) = Z.to_nat (get_nlayers rast) /\
    (is_Some rweights ->
     length (layer_names weights_names weights_nlayers) = Z.to_nat weights_nlayers).
Proof.
  intros H. unfold extract_table in H.
  inv_bind H geom Hgeom.
  destruct (read_wkb wkb) as [g|] eqn:Hwkb; [|discriminate].
  injection Hgeom as ->. exists geom. split; [reflexivity|].
  inv_bind H cov Hcov. rewrite call_coverage_outcome in Hcov. injection Hcov as <-.
  set (cov := raster_cell_intersection
                (grid_crop common_grid (geos_get_box geom)) geom) in *.
  set (k := length (covered_cells cov)).
  inv_bind H c1 H1. inv_bind H c2 H2. inv_bind H c3 H3.
  inv_bind H c4 H4. inv_bind H c5 H5. inv_bind H cf Hcf.
  injection H as <-.
  unfold table_names.
  set (names1 := fold_left assign (map fst (default [] include_cols)) []).
  assert (table_inv k names1 c1) as I1.
  { subst names1. destruct include_cols as [l|].
    - apply (for_each_inv
               (fun done cols => table_inv k (fold_left assign done []) cols))
        in H1; [exact H1| |].
      + split; [reflexivity|]. intros ? ? [].
      + intros done x s s1 [Hn Hr] Hb.
        destruct (get_named l x); [|discriminate]. injection Hb as <-. split.
        * rewrite set_named_names, Hn, fold_left_app. reflexivity.
        * apply numeric_rows_set_pass. exact Hr.
    - injection H1 as <-. split; [reflexivity|]. intros ? ? []. }
  set (names2 := fold_left assign (layer_names src_names (get_nlayers rast)) names1).
  assert (table_inv k names2 c2 /\
          length (layer_names src_names (get_nlayers rast)) =
          Z.to_nat (get_nlayers rast)) as [I2 L2].
  { subst names2. unfold layer_names, for_range in *.
    rewrite <- (length_seqZ 0 (get_nlayers rast)).
    apply (for_each_inv
             (fun done cols =>
                table_inv k
                  (fold_left assign
                     (omap (fun i => src_names !! Z.to_nat i) done) names1) cols /\
                length (omap (fun i => src_names !! Z.to_nat i) done) = length done))
      in H2; [exact H2|split; [exact I1|reflexivity]|].
    intros done i s s1 [Hs Hl] Hb.
    inv_bind Hb r Hr. inv_bind Hb vv Hvv. inv_bind Hb name Hname.
    injection Hb as <-. unfold name_at in Hname.
    destruct (src_names !! Z.to_nat i) as [n|] eqn:E; [|discriminate].
    injection Hname as ->.
    rewrite omap_app, fold_left_app. cbn [omap list_omap fold_left]. rewrite E.
    cbn [fold_left]. split.
    - apply table_inv_set_num; [exact Hs|]. apply (subset_covered cov _ _ Hvv).
    - rewrite !length_app, Hl. reflexivity. }
  set (names3 :=
         fold_left assign_weight
           (match rweights with
            | Some _ => layer_names weights_names weights_nlayers
            | None => []
            end) names2).
  assert (table_inv k names3 c3 /\
          (is_Some rweights ->
           length (layer_names weights_names weights_nlayers) =
           Z.to_nat weights_nlayers)) as [I3 L3].
  { subst names3. unfold layer_names, for_range in *. destruct rweights as [rw|].
    - rewrite <- (length_seqZ 0 weights_nlayers).
      cut (table_inv k
             (fold_left assign_weight
                (omap (fun i => weights_names !! Z.to_nat i) (seqZ 0 weights_nlayers))
                names2) c3 /\
           length (omap (fun i => weights_names !! Z.to_nat i)
                        (seqZ 0 weights_nlayers)) =
           length (seqZ 0 weights_nlayers)); [tauto|].
      apply (for_each_inv
               (fun done cols =>
                  table_inv k
                    (fold_left assign_weight
                       (omap (fun i => weights_names !! Z.to_nat i) done) names2)
                    cols /\
                  length (omap (fun i => weights_names !! Z.to_nat i) done) =
                  length done))
        in H3; [exact H3|split; [exact I2|reflexivity]|].
      intros done i s s1 [Hs Hl] Hb.
      inv_bind Hb r Hr. inv_bind Hb wv Hwv. inv_bind Hb name Hname.
      injection Hb as <-. unfold name_at in Hname.
      destruct (weights_names !! Z.to_nat i) as [n|] eqn:E; [|discriminate].
      injection Hname as ->.
      rewrite omap_app, fold_left_app. cbn [omap list_omap fold_left]. rewrite E.
      cbn [fold_left]. unfold assign_weight.
      rewrite containsElementNamed_names. destruct Hs as [Hn Hrows].
      rewrite Hn. split.
      + apply table_inv_set_num; [split; assumption|].
        apply (subset_covered cov _ _ Hwv).
      + rewrite !length_app, Hl. reflexivity.
    - split; [|intros [? [=]]].
      apply (for_each_inv (fun _ cols => table_inv k names2 cols))
        in H3; [exact H3|exact I2|].
      intros done i s s1 Hs Hb. injection Hb as <-. exact Hs. }
  set (names4 := if include_xy then assign (assign names3 "x") "y" else names3).
  assert (table_inv k names4 c4) as I4.
  { subst names4. destruct include_xy.
    - inv_bind H4 x Hx. inv_bind H4 y Hy. injection H4 as <-.
      apply table_inv_set_num; [apply table_inv_set_num; [exact I3|]|].
      + apply (subset_covered cov _ _ Hx).
      + apply (subset_covered cov _ _ Hy).
    - injection H4 as <-. exact I3. }
  set (names5 := if include_cell_number then assign names4 "cell" else names4).
  assert (table_inv k names5 c5) as I5.
  { subst names5. destruct include_cell_number.
    - inv_bind H5 cell Hcell. injection H5 as <-.
      apply table_inv_set_num; [exact I4|]. apply (subset_covered cov _ _ Hcell).
    - injection H5 as <-. exact I4. }
  split; [|split; [|split; [exact L2|exact L3]]].
  - apply table_inv_set_num; [exact I5|]. apply (subset_covered cov _ _ Hcf).
  - rewrite get_named_set_named. do 2 f_equal.
    apply subset_logical_inv in Hcf as [_ ->]. apply mask_select_coverage.
Qed.

Lemma CPP_exact_extract_columns rast weights wkb default_value default_weight
    include_xy include_cell_number include_cols src_names p_weights_names
    warn_on_disaggregate cols :
  outcome (CPP_exact_extract rast weights wkb default_value default_weight
             include_xy include_cell_number include_cols src_names
             p_weights_names warn_on_disaggregate) = inr cols ->
  exists geom, read_wkb wkb = Some geom /\
    table_inv (length (covered_cells (extract_coverage rast weights geom)))
      (table_names (map fst (default [] include_cols))
         (layer_names src_names (get_nlayers rast))
         (layer_names (default [] p_weights_names) (nweights_of weights))
         include_xy include_cell_number) cols /\
    get_named cols "coverage_fraction" =
    Some (ColNum (map snd (covered_cells (extract_coverage rast weights geom)))) /\
    length (layer_names src_names (get_nlayers rast)) = Z.to_nat (get_nlayers rast) /\
    length (layer_names (default [] p_weights_names) (nweights_of weights)) =
    Z.to_nat (nweights_of weights).
Proof.
  intros H. unfold CPP_exact_extract in H.
  inv_bind H setup Hsetup. destruct weights as [weights_s4|].
  - inv_bind Hsetup u Hu. injection Hsetup as <-.
    apply extract_table_columns in H as (geom & Hwkb & Hinv & Hcf & Hl & Hw).
    exists geom. split; [exact Hwkb|]. split; [exact Hinv|].
    split; [exact Hcf|]. split; [exact Hl|]. apply Hw. eauto.
  - injection Hsetup as <-.
    apply extract_table_columns in H as (geom & Hwkb & Hinv & Hcf & Hl & _).
    exists geom. split; [exact Hwkb|]. split; [exact Hinv|].
    split; [exact Hcf|]. split; [exact Hl|]. reflexivity.
Qed.

(** *** Distinct names *)

Lemma assign_fresh names name :
  ~ In name names -> assign names name = names ++ [name].
Proof.
  intros Hn. unfold assign.
  destruct (existsb (fun n => n == name) names) eqn:E; [|reflexivity].
  apply existsb_exists in E as (n & Hin & Heq).
  apply String.eqb_eq in Heq as ->. contradiction.
Qed.

Lemma NoDup_app_fresh (names rest : list string) name :
  NoDup (names ++ name :: rest) -> ~ In name names.
Proof.
  intros Hnd Hin. apply NoDup_app in Hnd as (_ & Hdisj & _).
  apply (Hdisj name); [apply list_elem_of_In; exact Hin|left].
Qed.

Lemma NoDup_app_prefix (xs ys : list string) : NoDup (xs ++ ys) -> NoDup xs.
Proof.
  intros H. apply NoDup_app in H as (H & _). exact H.
Qed.

Lemma fold_assign_fresh names l :
  NoDup (names ++ l) -> fold_left assign l names = names ++ l.
Proof.
  revert names. induction l as [|x l IH]; intros names Hnd.
  - rewrite app_nil_r. reflexivity.
  - cbn [fold_left]. rewrite assign_fresh by (eapply NoDup_app_fresh; exact Hnd).
    rewrite IH; rewrite <- app_assoc; [reflexivity|exact Hnd].
Qed.

Lemma fold_assign_weight_fresh names ws :
  NoDup (names ++ place_weight_names names ws) ->
  fold_left assign_weight ws names = names ++ place_weight_names names ws.
Proof.
  revert names. induction ws as [|w ws IH]; intros names Hnd.
  - rewrite app_nil_r. reflexivity.
  - cbn [fold_left place_weight_names] in *. unfold assign_weight at 2.
    rewrite assign_fresh by (eapply NoDup_app_fresh; exact Hnd).
    rewrite IH; rewrite <- app_assoc; [reflexivity|exact Hnd].
Qed.

(** With pairwise distinct names, the names left are those of the spec,
    in its order. *)
Lemma table_names_distinct include_names value_names weight_names
    include_xy include_cell_number :
  NoDup (expected_names include_names value_names weight_names include_xy
           include_cell_number) ->
  table_names include_names value_names weight_names include_xy
    include_cell_number =
  expected_names include_names value_names weight_names include_xy
    include_cell_number.
Proof.
  unfold expected_names, table_names. intros Hnd.
  rewrite !app_assoc in Hnd.
  assert (NoDup (((include_names ++ value_names) ++
                  place_weight_names (include_names ++ value_names) weight_names) ++
                 (if include_xy then ["x"; "y"] else [])) ) as H4
    by (do 2 apply NoDup_app_prefix in Hnd; exact Hnd).
  pose proof (NoDup_app_prefix _ _ H4) as H3.
  pose proof (NoDup_app_prefix _ _ H3) as H2.
  pose proof (NoDup_app_prefix _ _ H2) as H1.
  rewrite (fold_assign_fresh [] include_names) by exact H1. cbn [app].
  rewrite (fold_assign_fresh include_names value_names) by exact H2.
  rewrite fold_assign_weight_fresh by exact H3.
  set (names3 := (include_names ++ value_names) ++
                 place_weight_names (include_names ++ value_names) weight_names)
    in *.
  assert ((if include_xy then assign (assign names3 "x") "y" else names3) =
          names3 ++ (if include_xy then ["x"; "y"] else [])) as ->.
  { destruct include_xy; [|rewrite app_nil_r; reflexivity].
    rewrite (assign_fresh names3 "x") by (eapply NoDup_app_fresh; exact H4).
    rewrite assign_fresh; [rewrite <- app_assoc; reflexivity|].
    eapply NoDup_app_fresh. rewrite <- app_assoc. exact H4. }
  set (names4 := names3 ++ (if include_xy then ["x"; "y"] else [])) in *.
  assert (NoDup (names4 ++ (if include_cell_number then ["cell"] else []))) as H5
    by (apply NoDup_app_prefix in Hnd; exact Hnd).
  assert ((if include_cell_number then assign names4 "cell" else names4) =
          names4 ++ (if include_cell_number then ["cell"] else [])) as ->.
  { destruct include_cell_number; [|rewrite app_nil_r; reflexivity].
    apply assign_fresh. eapply NoDup_app_fresh. exact H5. }
  rewrite assign_fresh by (eapply NoDup_app_fresh; exact Hnd).
  subst names4 names3. rewrite <- !app_assoc. reflexivity.
Qed.

Lemma last_named (cols : named_list) pre name c :
  map fst cols = pre ++ [name] -> NoDup (pre ++ [name]) ->
  get_named cols name = Some c ->
  last cols = Some (name, c).
Proof.
  revert pre. induction cols as [|[n x] cols IH]; intros pre Hn Hnd Hget.
  - destruct pre; discriminate.
  - destruct pre as [|p pre]; cbn [map fst app] in Hn.
    + injection Hn as -> Hrest. destruct cols; [|discriminate].
      cbn [get_named] in Hget. rewrite String.eqb_refl in Hget.
      injection Hget as ->. reflexivity.
    + injection Hn as -> Hrest. cbn [app] in Hnd.
      apply NoDup_cons in Hnd as [Hp Hnd].
      cbn [get_named] in Hget.
      destruct (p == name) eqn:E.
      { apply String.eqb_eq in E as ->. exfalso. apply Hp.
        apply elem_of_app. right. left. }
      destruct cols as [|e cols']; [destruct pre; discriminate|].
      change (last ((p, x) :: e :: cols')) with (last (e :: cols')).
      apply (IH pre); assumption.
Qed.

(** X20: when the names so formed are pairwise
    distinct, the table's columns are, in this order, the pass-through
    columns, one column per value layer, one column per weight layer (with
    ".1" appended, once, to a weight name that duplicates a column already
    placed), x and y if asked for, the cell index if asked for, and the
    coverage fraction last; every numeric column has one entry per cell of
    the cropped common grid whose coverage fraction is positive, and the
    last column holds the fractions of these cells. *)
Theorem extraction_table_layout rast weights wkb default_value default_weight
    include_xy include_cell_number include_cols src_names p_weights_names
    warn_on_disaggregate cols :
  outcome (CPP_exact_extract rast weights wkb default_value default_weight
             include_xy include_cell_number include_cols src_names
             p_weights_names warn_on_disaggregate) = inr cols ->
  NoDup (expected_names (map fst (default [] include_cols))
           (layer_names src_names (get_nlayers rast))
           (layer_names (default [] p_weights_names) (nweights_of weights))
           include_xy include_cell_number) ->
  exists geom, read_wkb wkb = Some geom /\
    map fst cols =
    expected_names (map fst (default [] include_cols))
      (layer_names src_names (get_nlayers rast))
      (layer_names (default [] p_weights_names) (nweights_of weights))
      include_xy include_cell_number /\
    length (layer_names src_names (get_nlayers rast)) = Z.to_nat (get_nlayers rast) /\
    length (layer_names (default [] p_weights_names) (nweights_of weights)) =
    Z.to_nat (nweights_of weights) /\
    numeric_rows (length (covered_cells (extract_coverage rast weights geom)))
      cols /\
    last cols =
    Some ("coverage_fraction",
          ColNum (map snd (covered_cells (extract_coverage rast weights geom)))).
Proof.
  intros H Hnd.
  apply CPP_exact_extract_columns in H
    as (geom & Hwkb & [Hnames Hrows] & Hcf & Hl & Hw).
  rewrite table_names_distinct in Hnames by exact Hnd.
  exists geom. split; [exact Hwkb|]. split; [exact Hnames|].
  split; [exact Hl|]. split; [exact Hw|]. split; [exact Hrows|].
  unfold expected_names in Hnames, Hnd. rewrite !app_assoc in Hnames, Hnd.
  apply (last_named cols _ _ _ Hnames Hnd Hcf).
Qed.

End ExtractFacts.

(** * Further properties of [CPP_stats] *)

Section StatsFurther.
Context `{W : World} `{RSO : !RasterStatsOps}.

(** A loop whose body logs [t x] and never stops. *)
Lemma for_each_run {A S} (l : list A) (body : A -> S -> M S)
    (t : A -> list event) (g : A -> S -> S) s :
  (forall x s, body x s = (t x, inr (g x s))) ->
  for_each l body s = (flat_map t l, inr (fold_left (fun s x => g x s) l s)).
Proof.
  intros Hb. revert s. induction l as [|x l IH]; intros s; [reflexivity|].
  cbn [for_each flat_map fold_left]. rewrite bind_unfold, Hb. cbn [fst snd].
  rewrite IH. reflexivity.
Qed.

Lemma flat_map_singleton {A B} (f : A -> B) (l : list A) :
  flat_map (fun x => [f x]) l = map f l.
Proof. induction l as [|x l IH]; [reflexivity|]. cbn. rewrite IH. reflexivity. Qed.

Lemma bind_run {A B} (m : M A) (f : A -> M B) t a :
  m = (t, inr a) -> m ≫= f = (t ++ trace_of (f a), outcome (f a)).
Proof. intros ->. rewrite bind_unfold. reflexivity. Qed.

Lemma read_values_run rsrc b i :
  read_values rsrc b i = ([EvReadValues b i], inr (read_box rsrc b i)).
Proof. reflexivity. Qed.

Lemma read_weights_run rw b i :
  read_weights rw b i = ([EvReadWeights b i], inr (read_box rw b i)).
Proof. reflexivity. Qed.

Lemma call_coverage_run g geom :
  call_coverage g geom = ([EvCoverage g], inr (raster_cell_intersection g geom)).
Proof. reflexivity. Qed.

Lemma process_window_trace rsrc rweights nlayers nweights cov raster_stats :
  trace_of (process_window rsrc rweights nlayers nweights cov raster_stats) =
  if negb (grid_empty (coverage_grid cov))
  then window_reads (present rweights) nlayers nweights
         (grid_extent (coverage_grid cov))
  else [].
Proof.
  unfold process_window, window_reads, for_range.
  destruct (negb (grid_empty (coverage_grid cov))); [|reflexivity].
  destruct rweights as [rw|]; cbn [present].
  - destruct (nweights <? nlayers).
    + rewrite (bind_run _ _ _ _ (read_weights_run _ _ _)).
      erewrite for_each_run by (intros; reflexivity).
      cbn [trace_of fst app]. f_equal;
        try apply (flat_map_singleton (EvReadValues _)).
    + destruct (nlayers <? nweights).
      * rewrite (bind_run _ _ _ _ (read_values_run _ _ _)).
        erewrite for_each_run by (intros; reflexivity).
        cbn [trace_of fst app]. f_equal;
          try apply (flat_map_singleton (EvReadWeights _)).
      * erewrite for_each_run by (intros; reflexivity). reflexivity.
  - erewrite for_each_run by (intros; reflexivity).
    cbn [trace_of fst]. apply (flat_map_singleton (EvReadValues _)).
Qed.

Lemma process_window_run rsrc rweights nlayers nweights cov raster_stats :
  (rweights = None -> nweights = 0) ->
  process_window rsrc rweights nlayers nweights cov raster_stats =
  ((if negb (grid_empty (coverage_grid cov))
    then window_reads (present rweights) nlayers nweights
           (grid_extent (coverage_grid cov))
    else []),
   inr (window_update rsrc rweights nlayers nweights cov raster_stats)).
Proof.
  intros Hnw.
  rewrite <- process_window_trace with (rsrc := rsrc) (raster_stats := raster_stats).
  rewrite <- (process_window_outcome rsrc rweights nlayers nweights cov
                raster_stats Hnw).
  destruct (process_window rsrc rweights nlayers nweights cov raster_stats);
    reflexivity.
Qed.

Lemma process_subgrids_run rsrc rweights nlayers nweights geom subgrids raster_stats :
  (rweights = None -> nweights = 0) ->
  trace_of (process_subgrids rsrc rweights nlayers nweights geom subgrids
              raster_stats) =
  flat_map (window_events (present rweights) nlayers nweights geom) subgrids.
Proof.
  intros Hnw. unfold process_subgrids.
  erewrite for_each_run; [reflexivity|].
  intros subgrid accs.
  rewrite (bind_run _ _ _ _ (call_coverage_run _ _)).
  rewrite process_window_run by exact Hnw. reflexivity.
Qed.

Lemma window_phase_trace rast weights geom default_value default_weight stats
    max_cells :
  trace_of (window_phase rast weights geom default_value default_weight stats
              max_cells) =
  stats_events rast weights geom max_cells.
Proof.
  unfold window_phase, accumulate, stats_events.
  destruct (box_intersects (geos_get_box geom)
              (grid_extent (reconciled_grid rast weights))); [|reflexivity].
  assert (forall g n, call_subdivide g n = ([EvSubdivide g n], inr (subdivide g n)))
    as Hsub by reflexivity.
  rewrite (bind_run _ _ _ _ (Hsub _ _)). cbn [trace_of fst app].
  rewrite process_subgrids_run by apply weight_source_none.
  destruct weights; reflexivity.
Qed.

(** The trace of a call: nothing when a check fails, the window phase
    otherwise. *)
Lemma CPP_stats_trace rast weights wkb default_value default_weight stats
    max_cells quantiles :
  trace_of (CPP_stats rast weights wkb default_value default_weight stats
              max_cells quantiles) =
  match read_wkb wkb with
  | Some geom =>
    if (1 <=? max_cells) && negb (layers_clash rast weights) &&
       forallb (stat_accepted (disaggregating rast weights) quantiles) stats
    then stats_events rast weights geom max_cells
    else []
  | None => []
  end.
Proof.
  destruct (Z.lt_ge_cases max_cells 1) as [Hmc|Hmc].
  { rewrite CPP_stats_max_cells by exact Hmc.
    replace (1 <=? max_cells) with false by (symmetry; apply Z.leb_gt; lia).
    destruct (read_wkb wkb); reflexivity. }
  replace (1 <=? max_cells) with true by (symmetry; apply Z.leb_le; lia).
  destruct (layers_clash rast weights) eqn:Hclash.
  { rewrite CPP_stats_clash by assumption. destruct (read_wkb wkb); reflexivity. }
  destruct (read_wkb wkb) as [geom|] eqn:Hwkb.
  2:{ rewrite CPP_stats_bad_wkb by assumption. reflexivity. }
  destruct (forallb (stat_accepted (disaggregating rast weights) quantiles) stats)
    eqn:Hacc; cbn [negb andb].
  - destruct (CPP_stats_checked_cases rast weights wkb geom default_value
                default_weight stats max_cells quantiles Hmc Hclash Hwkb Hacc)
      as [-> _]. apply window_phase_trace.
  - destruct (CPP_stats_not_accepted rast weights wkb geom default_value
                default_weight stats max_cells quantiles Hmc Hclash Hwkb Hacc)
      as (e & -> & _). reflexivity.
Qed.

Lemma CPP_stats_trace_checked rast weights wkb geom default_value default_weight
    stats max_cells quantiles :
  read_wkb wkb = Some geom ->
  1 <= max_cells ->
  layers_clash rast weights = false ->
  forallb (stat_accepted (disaggregating rast weights) quantiles) stats = true ->
  trace_of (CPP_stats rast weights wkb default_value default_weight stats
              max_cells quantiles) =
  stats_events rast weights geom max_cells.
Proof.
  intros Hwkb Hmc Hclash Hacc. rewrite CPP_stats_trace, Hwkb, Hclash, Hacc.
  replace (1 <=? max_cells) with true by (symmetry; apply Z.leb_le; exact Hmc).
  reflexivity.
Qed.

(** *** Reading the trace *)

Lemma omap_flat_map {A B C} (f : B -> option C) (g : A -> list B) (l : list A) :
  omap f (flat_map g l) = flat_map (fun x => omap f (g x)) l.
Proof.
  induction l as [|x l IH]; [reflexivity|].
  cbn [flat_map]. rewrite omap_app, IH. reflexivity.
Qed.

Lemma omap_map_some {A B C} (f : B -> option C) (g : A -> B) (h : A -> C) l :
  (forall x, f (g x) = Some (h x)) -> omap f (map g l) = map h l.
Proof.
  intros H. induction l as [|x l IH]; [reflexivity|].
  cbn [map omap list_omap]. rewrite H, IH. reflexivity.
Qed.

Lemma omap_map_none {A B C} (f : B -> option C) (g : A -> B) l :
  (forall x, f (g x) = None) -> omap f (map g l) = [].
Proof.
  intros H. induction l as [|x l IH]; [reflexivity|].
  cbn [map omap list_omap]. rewrite H, IH. reflexivity.
Qed.

Lemma flat_map_nil {A B} (l : list A) : flat_map (fun _ => @nil B) l = [].
Proof. induction l as [|x l IH]; [reflexivity|exact IH]. Qed.

Lemma flat_map_nonempty {B} geom (f : Grid -> list B) (subgrids : list Grid) :
  flat_map (fun subgrid =>
      if negb (grid_empty (coverage_grid (raster_cell_intersection subgrid geom)))
      then f subgrid else []) subgrids =
  flat_map f (nonempty_windows geom subgrids).
Proof.
  unfold nonempty_windows. induction subgrids as [|g gs IH]; [reflexivity|].
  cbn [flat_map]. rewrite filter_cons.
  destruct (grid_empty (coverage_grid (raster_cell_intersection g geom))) eqn:E.
  - rewrite decide_False by discriminate. cbn [negb app]. exact IH.
  - rewrite decide_True by reflexivity. cbn [negb flat_map]. rewrite IH.
    reflexivity.
Qed.

Lemma window_reads_coverage weighted nlayers nweights ext :
  coverage_calls (window_reads weighted nlayers nweights ext) = [] /\
  planner_calls (window_reads weighted nlayers nweights ext) = [] /\
  Forall (fun ev => is_warning ev = false)
         (window_reads weighted nlayers nweights ext).
Proof.
  unfold window_reads, coverage_calls, planner_calls.
  assert (forall (f : Z -> event) l,
            (forall i, is_warning (f i) = false) ->
            Forall (fun ev => is_warning ev = false) (map f l)) as Hmap.
  { intros f l Hf. apply Forall_forall. intros ev Hin.
    apply list_elem_of_In, in_map_iff in Hin as (i & <- & _). apply Hf. }
  destruct weighted; [destruct (nweights <? nlayers);
                      [|destruct (nlayers <? nweights)]|].
  - cbn [omap list_omap]. rewrite !omap_map_none by reflexivity.
    repeat split. constructor; [reflexivity|]. apply Hmap. reflexivity.
  - cbn [omap list_omap]. rewrite !omap_map_none by reflexivity.
    repeat split. constructor; [reflexivity|]. apply Hmap. reflexivity.
  - rewrite !omap_flat_map. cbn [omap list_omap]. rewrite !flat_map_nil.
    repeat split. apply Forall_forall. intros ev Hin.
    apply list_elem_of_In, in_flat_map in Hin as (i & _ & [<-|[<-|[]]]);
      reflexivity.
  - rewrite !omap_map_none by reflexivity. repeat split.
    apply Hmap. reflexivity.
Qed.

Lemma window_reads_layers weighted nlayers nweights ext :
  value_reads (window_reads weighted nlayers nweights ext) =
  map (pair ext) (value_layers_read weighted nlayers nweights) /\
  weight_reads (window_reads weighted nlayers nweights ext) =
  map (pair ext) (weight_layers_read weighted nlayers nweights).
Proof.
  unfold window_reads, value_reads, weight_reads, value_layers_read,
    weight_layers_read.
  destruct weighted; [destruct (nweights <? nlayers);
                      [|destruct (nlayers <? nweights)]|]; cbn [andb negb];
    split; cbn [omap list_omap map];
    first [ rewrite (omap_map_some _ _ (pair ext)) by reflexivity; reflexivity
          | rewrite omap_map_none by reflexivity; reflexivity
          | rewrite omap_flat_map; apply (flat_map_singleton (pair ext)) ].
Qed.

Lemma window_events_calls weighted nlayers nweights geom g :
  coverage_calls (window_events weighted nlayers nweights geom g) = [g] /\
  planner_calls (window_events weighted nlayers nweights geom g) = [] /\
  Forall (fun ev => is_warning ev = false)
         (window_events weighted nlayers nweights geom g).
Proof.
  unfold window_events. cbv zeta.
  destruct (negb (grid_empty (coverage_grid (raster_cell_intersection g geom)))).
  - destruct (window_reads_coverage weighted nlayers nweights
                (grid_extent (coverage_grid (raster_cell_intersection g geom))))
      as (Hc & Hp & Hw).
    split; [|split].
    + unfold coverage_calls in *. cbn [omap list_omap]. rewrite Hc. reflexivity.
    + unfold planner_calls in *. cbn [omap list_omap]. exact Hp.
    + constructor; [reflexivity|exact Hw].
  - repeat split. constructor; [reflexivity|constructor].
Qed.

Lemma stats_events_calls rast weights geom max_cells :
  coverage_calls (stats_events rast weights geom max_cells) =
  visited_subgrids (reconciled_grid rast weights) geom max_cells /\
  planner_calls (stats_events rast weights geom max_cells) =
  (if box_intersects (geos_get_box geom)
        (grid_extent (reconciled_grid rast weights))
   then [(grid_crop (reconciled_grid rast weights) (geos_get_box geom), max_cells)]
   else []) /\
  Forall (fun ev => is_warning ev = false)
         (stats_events rast weights geom max_cells).
Proof.
  unfold stats_events, visited_subgrids.
  destruct (box_intersects (geos_get_box geom)
              (grid_extent (reconciled_grid rast weights)));
    [|repeat split; constructor].
  generalize (subdivide (grid_crop (reconciled_grid rast weights)
                           (geos_get_box geom)) max_cells).
  intros gs. cbv zeta. split; [|split].
  - unfold coverage_calls. cbn [omap list_omap]. rewrite omap_flat_map.
    erewrite flat_map_ext
      by (intros g; apply (proj1 (window_events_calls _ _ _ _ g))).
    rewrite (flat_map_singleton (fun g : Grid => g)). apply map_id.
  - unfold planner_calls. cbn [omap list_omap]. rewrite omap_flat_map.
    erewrite flat_map_ext
      by (intros g; apply (proj1 (proj2 (window_events_calls _ _ _ _ g)))).
    rewrite flat_map_nil. reflexivity.
  - constructor; [reflexivity|]. apply Forall_forall. intros ev Hin.
    apply list_elem_of_In, in_flat_map in Hin as (g & _ & Hin).
    pose proof (proj2 (proj2 (window_events_calls (present weights)
                                (get_nlayers rast) (nweights_of weights)
                                geom g))) as Hf.
    rewrite Forall_forall in Hf. apply Hf. apply list_elem_of_In. exact Hin.
Qed.

Lemma stats_events_reads rast weights geom max_cells :
  value_reads (stats_events rast weights geom max_cells) =
  flat_map (fun subgrid =>
              map (pair (window_extent geom subgrid))
                  (value_layers_read (present weights) (get_nlayers rast)
                     (nweights_of weights)))
           (nonempty_windows geom
              (visited_subgrids (reconciled_grid rast weights) geom max_cells)) /\
  weight_reads (stats_events rast weights geom max_cells) =
  flat_map (fun subgrid =>
              map (pair (window_extent geom subgrid))
                  (weight_layers_read (present weights) (get_nlayers rast)
                     (nweights_of weights)))
           (nonempty_windows geom
              (visited_subgrids (reconciled_grid rast weights) geom max_cells)).
Proof.
  unfold stats_events, visited_subgrids.
  destruct (box_intersects (geos_get_box geom)
              (grid_extent (reconciled_grid rast weights)));
    [|split; reflexivity].
  generalize (subdivide (grid_crop (reconciled_grid rast weights)
                           (geos_get_box geom)) max_cells).
  intros gs. unfold value_reads, weight_reads. cbn [omap list_omap].
  rewrite !omap_flat_map. unfold window_events. cbn [omap list_omap].
  rewrite <- !flat_map_nonempty. unfold window_extent.
  split; apply flat_map_ext; intros g;
    destruct (negb (grid_empty (coverage_grid (raster_cell_intersection g geom))));
    try reflexivity.
  - apply (proj1 (window_reads_layers _ _ _ _)).
  - apply (proj2 (window_reads_layers _ _ _ _)).
Qed.

(** X9: a call that passes its checks asks the window planner at most
    once - once, for the grid cropped to the bounding box, exactly when the
    bounding box meets the grid - computes the coverage once per sub-grid,
    in the planner's order, and issues no warning. *)
Theorem coverage_once_per_subgrid rast weights wkb geom default_value
    default_weight stats max_cells quantiles :
  read_wkb wkb = Some geom ->
  1 <= max_cells ->
  layers_clash rast weights = false ->
  forallb (stat_accepted (disaggregating rast weights) quantiles) stats = true ->
  let tr := trace_of (CPP_stats rast weights wkb default_value default_weight
                        stats max_cells quantiles) in
  coverage_calls tr =
  visited_subgrids (reconciled_grid rast weights) geom max_cells /\
  planner_calls tr =
  (if box_intersects (geos_get_box geom)
        (grid_extent (reconciled_grid rast weights))
   then [(grid_crop (reconciled_grid rast weights) (geos_get_box geom), max_cells)]
   else []) /\
  Forall (fun ev => is_warning ev = false) tr.
Proof.
  intros Hwkb Hmc Hclash Hacc. cbv zeta.
  rewrite (CPP_stats_trace_checked _ _ _ geom) by assumption.
  apply stats_events_calls.
Qed.

(** X10: when the weights are recycled (fewer weight layers than value
    layers), weight layer 0 is read exactly once per window with a
    non-empty coverage grid, at the extent of that grid, and every value
    layer once per such window; and the same with the roles exchanged
    when the values are recycled. *)
Theorem recycled_layer_read_once rast weights_s4 wkb geom default_value
    default_weight stats max_cells quantiles :
  read_wkb wkb = Some geom ->
  1 <= max_cells ->
  layers_clash rast (Some weights_s4) = false ->
  forallb (stat_accepted (disaggregating rast (Some weights_s4)) quantiles) stats
  = true ->
  let tr := trace_of (CPP_stats rast (Some weights_s4) wkb default_value
                        default_weight stats max_cells quantiles) in
  let windows :=
    nonempty_windows geom
      (visited_subgrids (reconciled_grid rast (Some weights_s4)) geom max_cells) in
  (get_nlayers weights_s4 < get_nlayers rast ->
   weight_reads tr = map (fun subgrid => (window_extent geom subgrid, 0)) windows /\
   value_reads tr =
   flat_map (fun subgrid =>
               map (pair (window_extent geom subgrid)) (seqZ 0 (get_nlayers rast)))
            windows) /\
  (get_nlayers rast < get_nlayers weights_s4 ->
   value_reads tr = map (fun subgrid => (window_extent geom subgrid, 0)) windows /\
   weight_reads tr =
   flat_map (fun subgrid =>
               map (pair (window_extent geom subgrid))
                   (seqZ 0 (get_nlayers weights_s4)))
            windows).
Proof.
  intros Hwkb Hmc Hclash Hacc. cbv zeta.
  rewrite (CPP_stats_trace_checked _ _ _ geom) by assumption.
  destruct (stats_events_reads rast (Some weights_s4) geom max_cells)
    as [Hv Hw].
  rewrite Hv, Hw. unfold value_layers_read, weight_layers_read.
  cbn [present nweights_of andb].
  split; intros Hlt.
  - replace (get_nlayers weights_s4 <? get_nlayers rast) with true
      by (symmetry; apply Z.ltb_lt; exact Hlt).
    cbn [negb andb map]. split; [|reflexivity].
    apply (flat_map_singleton (fun subgrid => (window_extent geom subgrid, 0))).
  - replace (get_nlayers weights_s4 <? get_nlayers rast) with false
      by (symmetry; apply Z.ltb_ge; lia).
    replace (get_nlayers rast <? get_nlayers weights_s4) with true
      by (symmetry; apply Z.ltb_lt; exact Hlt).
    cbn [negb andb map]. split; [|reflexivity].
    apply (flat_map_singleton (fun subgrid => (window_extent geom subgrid, 0))).
Qed.

(** X11: with at least one value layer (and at least one weight layer
    when there are weights), every read of a call that passes its checks
    asks for a layer that exists, at the extent of the coverage grid of a
    visited window whose coverage grid is not empty; without weights the
    weight raster is never read. *)
Theorem reads_within_bounds rast weights wkb geom default_value default_weight
    stats max_cells quantiles :
  read_wkb wkb = Some geom ->
  1 <= max_cells ->
  layers_clash rast weights = false ->
  forallb (stat_accepted (disaggregating rast weights) quantiles) stats = true ->
  1 <= get_nlayers rast ->
  (forall weights_s4, weights = Some weights_s4 -> 1 <= get_nlayers weights_s4) ->
  let tr := trace_of (CPP_stats rast weights wkb default_value default_weight
                        stats max_cells quantiles) in
  let visited := visited_subgrids (reconciled_grid rast weights) geom max_cells in
  (forall b i, In (b, i) (value_reads tr) ->
     0 <= i < get_nlayers rast /\
     exists subgrid, In subgrid visited /\
       grid_empty (coverage_grid (raster_cell_intersection subgrid geom)) = false /\
       b = window_extent geom subgrid) /\
  (forall b i, In (b, i) (weight_reads tr) ->
     0 <= i < nweights_of weights /\
     exists subgrid, In subgrid visited /\
       grid_empty (coverage_grid (raster_cell_intersection subgrid geom)) = false /\
       b = window_extent geom subgrid) /\
  (weights = None -> weight_reads tr = []).
Proof.
  intros Hwkb Hmc Hclash Hacc Hnl Hnw. cbv zeta.
  rewrite (CPP_stats_trace_checked _ _ _ geom) by assumption.
  destruct (stats_events_reads rast weights geom max_cells) as [Hv Hw].
  rewrite Hv, Hw.
  assert (forall (layers : list Z) n b i,
            (forall k, In k layers -> 0 <= k < n) ->
            In (b, i)
               (flat_map (fun subgrid => map (pair (window_extent geom subgrid)) layers)
                  (nonempty_windows geom
                     (visited_subgrids (reconciled_grid rast weights) geom
                        max_cells))) ->
            0 <= i < n /\
            exists subgrid,
              In subgrid (visited_subgrids (reconciled_grid rast weights) geom
                            max_cells) /\
              grid_empty (coverage_grid (raster_cell_intersection subgrid geom))
              = false /\
              b = window_extent geom subgrid) as Hin.
  { intros layers n b i Hl H.
    apply in_flat_map in H as (subgrid & Hs & H).
    apply in_map_iff in H as (k & [= <- <-] & Hk).
    unfold nonempty_windows in Hs.
    apply list_elem_of_In, list_elem_of_filter in Hs as [He Hs].
    split; [apply Hl; exact Hk|].
    exists subgrid. split; [apply list_elem_of_In; exact Hs|].
    split; [exact He|reflexivity]. }
  split; [|split].
  - intros b i H. eapply Hin; [|exact H].
    intros k Hk. unfold value_layers_read in Hk.
    destruct (present weights && negb (nweights_of weights <? get_nlayers rast) &&
              (get_nlayers rast <? nweights_of weights)).
    + destruct Hk as [<-|[]]. lia.
    + apply list_elem_of_In, elem_of_seqZ in Hk. lia.
  - intros b i H. eapply Hin; [|exact H].
    intros k Hk. unfold weight_layers_read in Hk.
    destruct weights as [weights_s4|]; cbn [present nweights_of] in *;
      [|destruct Hk].
    specialize (Hnw weights_s4 eq_refl).
    destruct (get_nlayers weights_s4 <? get_nlayers rast) eqn:E1.
    + destruct Hk as [<-|[]]. lia.
    + apply Z.ltb_ge in E1.
      destruct (get_nlayers rast <? get_nlayers weights_s4) eqn:E2.
      * apply list_elem_of_In, elem_of_seqZ in Hk. lia.
      * apply Z.ltb_ge in E2. apply list_elem_of_In, elem_of_seqZ in Hk. lia.
  - intros ->. cbn [present weight_layers_read map]. apply flat_map_nil.
Qed.

(** *** The order of the checks *)

(** X1: a geometry that cannot be parsed is reported after the checks of
    [max_cells_in_memory] and of the layer counts and before any
    statistic name is looked at, with no collaborator call. *)
Theorem geometry_checked_third rast weights wkb default_value default_weight
    stats max_cells quantiles :
  read_wkb wkb = None ->
  CPP_stats rast weights wkb default_value default_weight stats max_cells quantiles =
  ([], inl (if max_cells <? 1 then InvalidMaxCells max_cells
            else if layers_clash rast weights then IncompatibleLayers
            else GeometryError)).
Proof.
  intros Hwkb. destruct (max_cells <? 1) eqn:Hmc.
  { apply CPP_stats_max_cells. apply Z.ltb_lt. exact Hmc. }
  apply Z.ltb_ge in Hmc. destruct (layers_clash rast weights) eqn:Hclash.
  - apply CPP_stats_clash; assumption.
  - apply CPP_stats_bad_wkb; assumption.
Qed.

Lemma validate_stats_first_offender disaggregated quantiles pre stat post
    store_values n :
  forallb (stat_accepted disaggregated quantiles) pre = true ->
  stat_accepted disaggregated quantiles stat = false ->
  validate_stats disaggregated quantiles (pre ++ stat :: post) store_values n =
  ([], inl (if disaggregated && ((stat == "count") || (stat == "sum"))
            then DisaggregatedCountSum else QuantilesNotSpecified)).
Proof.
  intros Hpre Hbad. revert store_values n.
  induction pre as [|p pre IH]; intros sv n.
  - cbn [app validate_stats]. unfold stat_accepted in Hbad.
    destruct (disaggregated && ((stat == "count") || (stat == "sum")));
      [reflexivity|].
    cbn [negb andb] in Hbad. apply negb_false_iff, andb_prop in Hbad as [Hq Hz].
    rewrite Hq.
    replace (match quantiles with Some qvec => Z.of_nat (length qvec) | None => 0 end)
      with (Z.of_nat (length (qvec_of quantiles))) by (destruct quantiles; reflexivity).
    rewrite Hz. reflexivity.
  - cbn [forallb] in Hpre. apply andb_prop in Hpre as [Hp Hpre].
    unfold stat_accepted in Hp. apply andb_prop in Hp as [Hd Hq].
    apply negb_true_iff in Hd, Hq.
    cbn [app validate_stats]. rewrite Hd.
    replace (match quantiles with Some qvec => Z.of_nat (length qvec) | None => 0 end)
      with (Z.of_nat (length (qvec_of quantiles))) by (destruct quantiles; reflexivity).
    destruct (p == "quantile").
    + cbn [andb] in Hq. rewrite Hq. apply IH. exact Hpre.
    + apply IH. exact Hpre.
Qed.

(** X2: among the names the validation loop rejects, the first one in the
    order of the request decides the error: the disaggregation error when
    it is "count" or "sum" on a disaggregated raster, the quantile error
    otherwise. *)
Theorem first_rejected_name_decides rast weights wkb default_value default_weight
    pre stat post max_cells quantiles :
  1 <= max_cells ->
  layers_clash rast weights = false ->
  read_wkb wkb <> None ->
  forallb (stat_accepted (disaggregating rast weights) quantiles) pre = true ->
  stat_accepted (disaggregating rast weights) quantiles stat = false ->
  CPP_stats rast weights wkb default_value default_weight (pre ++ stat :: post)
    max_cells quantiles =
  ([], inl (if disaggregating rast weights &&
               ((stat == "count") || (stat == "sum"))
            then DisaggregatedCountSum else QuantilesNotSpecified)).
Proof.
  intros Hmc Hclash Hwkb Hpre Hbad.
  destruct (read_wkb wkb) as [geom|] eqn:Hg; [|congruence].
  destruct (CPP_stats_not_accepted rast weights wkb geom default_value
              default_weight (pre ++ stat :: post) max_cells quantiles
              Hmc Hclash Hg) as (e & -> & Hv & _).
  - rewrite forallb_app. cbn [forallb]. rewrite Hbad.
    rewrite andb_false_r. reflexivity.
  - rewrite validate_stats_first_offender in Hv by assumption.
    injection Hv as <-. reflexivity.
Qed.

Lemma write_row_first_unknown rs quantiles j pre stat post m i :
  forallb supported pre = true ->
  supported stat = false ->
  for_each (pre ++ stat :: post) (write_stat rs quantiles j) (m, i) =
  ([], inl (UnknownStat stat)).
Proof.
  intros Hpre Hbad. revert m i. induction pre as [|p pre IH]; intros m i.
  - cbn [app for_each]. rewrite write_stat_cells.
    destruct (stat_cells rs quantiles stat) as [cells|] eqn:Hc; [|reflexivity].
    assert (supported stat = true)
      by (apply (supported_stat_cells rs quantiles); eauto).
    congruence.
  - cbn [forallb] in Hpre. apply andb_prop in Hpre as [Hp Hpre].
    apply (supported_stat_cells rs quantiles) in Hp as [cells Hc].
    cbn [app for_each]. rewrite write_stat_cells, Hc.
    erewrite bind_silent by reflexivity. apply IH. exact Hpre.
Qed.

(** X3: when the checks made before the windows pass and there is at
    least one output row, the error names the first name of the request
    that is outside the catalogue, and the trace is that of the complete
    window phase. *)
Theorem first_unknown_name_reported rast weights wkb geom default_value
    default_weight pre stat post max_cells quantiles :
  1 <= max_cells ->
  layers_clash rast weights = false ->
  read_wkb wkb = Some geom ->
  forallb (stat_accepted (disaggregating rast weights) quantiles)
          (pre ++ stat :: post) = true ->
  forallb supported pre = true ->
  supported stat = false ->
  0 < Z.max (get_nlayers rast) (nweights_of weights) ->
  CPP_stats rast weights wkb default_value default_weight (pre ++ stat :: post)
    max_cells quantiles =
  (stats_events rast weights geom max_cells, inl (UnknownStat stat)).
Proof.
  intros Hmc Hclash Hwkb Hacc Hpre Hbad Hrows.
  rewrite (CPP_stats_checked _ _ _ geom) by assumption.
  destruct (window_phase_outcome rast weights geom default_value default_weight
              (pre ++ stat :: post) max_cells) as (accs & Hout & Hlen & _).
  rewrite (bind_outcome_inr _ _ accs Hout), window_phase_trace.
  unfold write_results, for_range. rewrite seqZ_cons by exact Hrows.
  cbn [for_each].
  destruct (accs !! Z.to_nat 0) as [rs|] eqn:Hrs.
  - rewrite write_row_first_unknown by assumption.
    cbn [trace_of outcome fst snd mbind M_bind]. rewrite app_nil_r. reflexivity.
  - apply lookup_ge_None in Hrs. cbn in Hrs. lia.
Qed.

(** *** The matrix of a call that returns *)

Lemma mget_write_rows_outside raster_stats stats quantiles js m j i :
  j ∉ js \/ i < 0 ->
  mget (write_rows raster_stats stats quantiles js m) j i = mget m j i.
Proof.
  unfold write_rows. revert m. induction js as [|j0 js IH]; intros m Hout;
    [reflexivity|].
  cbn [fold_left]. rewrite IH.
  - destruct (raster_stats !! Z.to_nat j0); [|reflexivity].
    rewrite mget_write_cells. rewrite decide_False; [reflexivity|].
    intros [-> Hi]. destruct Hout as [Hnin|Hneg]; [|lia].
    apply Hnin. left.
  - destruct Hout as [Hnin|Hneg]; [left|right; exact Hneg].
    intros Hin. apply Hnin. right. exact Hin.
Qed.

(** The matrix of a call that returns: the rows written from accumulators,
    one per output row when every name is in the catalogue, none
    otherwise (there is then no output row). *)
Lemma CPP_stats_matrix rast weights wkb default_value default_weight stats
    max_cells quantiles m :
  outcome (CPP_stats rast weights wkb default_value default_weight stats
             max_cells quantiles) = inr m ->
  exists raster_stats,
    length raster_stats = Z.to_nat (Z.max (get_nlayers rast) (nweights_of weights)) /\
    m = write_rows raster_stats stats quantiles
          (if forallb supported stats
           then seqZ 0 (Z.max (get_nlayers rast) (nweights_of weights)) else [])
          (no_init (Z.max (get_nlayers rast) (nweights_of weights))
                   (total_width quantiles stats)).
Proof.
  intros Hm.
  destruct (CPP_stats_inr_inv _ _ _ _ _ _ _ _ _ Hm)
    as (Hmc & Hclash & [geom Hwkb] & Hacc).
  rewrite (CPP_stats_checked _ _ _ geom) in Hm by assumption.
  destruct (window_phase_outcome rast weights geom default_value default_weight
              stats max_cells) as (accs & Hout & Hlen & _).
  rewrite (bind_outcome_inr _ _ accs Hout) in Hm. cbn [outcome snd] in Hm.
  exists accs. split; [exact Hlen|].
  destruct (forallb supported stats) eqn:Hs.
  - rewrite write_results_supported in Hm by assumption.
    injection Hm as <-. reflexivity.
  - destruct (Z.lt_ge_cases 0 (Z.max (get_nlayers rast) (nweights_of weights)))
      as [Hpos|Hnon].
    + destruct (write_results_unsupported accs stats quantiles _
                  (no_init (Z.max (get_nlayers rast) (nweights_of weights))
                           (total_width quantiles stats)) Hs Hpos Hlen)
        as (? & _ & _ & Heq).
      rewrite Heq in Hm. discriminate.
    + rewrite write_results_no_rows in Hm by assumption.
      injection Hm as <-. reflexivity.
Qed.

(** X4: the matrix a call returns is created uninitialised, and every one
    of its cells has been assigned by the time it is returned: a cell
    holds a value exactly when it lies inside the matrix. *)
Theorem returned_matrix_fully_written rast weights wkb default_value
    default_weight stats max_cells quantiles m :
  outcome (CPP_stats rast weights wkb default_value default_weight stats
             max_cells quantiles) = inr m ->
  forall j i, is_Some (mget m j i) <-> 0 <= j < nrow m /\ 0 <= i < ncol m.
Proof.
  intros Hm j i.
  destruct (CPP_stats_matrix _ _ _ _ _ _ _ _ _ Hm) as (accs & Hlen & ->).
  destruct (write_rows_dims accs stats quantiles
              (if forallb supported stats
               then seqZ 0 (Z.max (get_nlayers rast) (nweights_of weights)) else [])
              (no_init (Z.max (get_nlayers rast) (nweights_of weights))
                       (total_width quantiles stats))) as [-> ->].
  cbn [nrow ncol no_init].
  assert (forall j i, mget (no_init (Z.max (get_nlayers rast) (nweights_of weights))
                              (total_width quantiles stats)) j i = None) as Hnone
    by (intros; apply lookup_empty).
  destruct (Z.lt_ge_cases 0 (Z.max (get_nlayers rast) (nweights_of weights)))
    as [Hpos|Hnon].
  - rewrite (CPP_stats_inr_supported _ _ _ _ _ _ _ _ _ Hm Hpos).
    destruct (decide (0 <= j < Z.max (get_nlayers rast) (nweights_of weights) /\
                      0 <= i)) as [[Hj Hi]|Hout].
    + rewrite mget_write_rows by (try apply NoDup_seqZ; assumption).
      rewrite decide_True by (apply elem_of_seqZ; lia).
      destruct (accs !! Z.to_nat j) as [rs|] eqn:Hrs.
      2:{ apply lookup_ge_None in Hrs. lia. }
      rewrite row_cells_width
        by exact (CPP_stats_inr_supported _ _ _ _ _ _ _ _ _ Hm Hpos).
      destruct (decide (i < total_width quantiles stats)) as [Hlt|Hge].
      * split; [intros _; lia|]. intros _. apply lookup_lt_is_Some.
        apply Nat2Z.inj_lt.
        rewrite row_cells_width
          by exact (CPP_stats_inr_supported _ _ _ _ _ _ _ _ _ Hm Hpos).
        lia.
      * rewrite Hnone. split; [intros [? [=]]|lia].
    + rewrite mget_write_rows_outside, Hnone.
      * split; [intros [? [=]]|lia].
      * destruct (decide (i < 0)) as [?|?]; [right; assumption|left].
        intros Hin%elem_of_seqZ. lia.
  - replace (if forallb supported stats
             then seqZ 0 (Z.max (get_nlayers rast) (nweights_of weights)) else [])
      with (@nil Z) by (destruct (forallb supported stats);
                        [rewrite seqZ_nil by lia|]; reflexivity).
    cbn [write_rows fold_left]. rewrite Hnone. split; [intros [? [=]]|lia].
Qed.

(** The cells of one name of a request, in a row of the matrix. *)
Lemma CPP_stats_column rast weights wkb geom default_value default_weight
    pre stat post max_cells quantiles m j cells k :
  read_wkb wkb = Some geom ->
  outcome (CPP_stats rast weights wkb default_value default_weight
             (pre ++ stat :: post) max_cells quantiles) = inr m ->
  0 <= j < Z.max (get_nlayers rast) (nweights_of weights) ->
  stat_cells (final_row rast weights geom default_value default_weight
                (pre ++ stat :: post) max_cells j) quantiles stat = Some cells ->
  (k < length cells)%nat ->
  mget m j (total_width quantiles pre + Z.of_nat k) = cells !! k.
Proof.
  intros Hwkb Hm Hj Hcells Hk.
  assert (forallb supported (pre ++ stat :: post) = true) as Hsup
    by (apply (CPP_stats_inr_supported _ _ _ _ _ _ _ _ _ Hm); lia).
  destruct (CPP_stats_inr_inv _ _ _ _ _ _ _ _ _ Hm)
    as (Hmc & Hclash & _ & Hacc).
  destruct (CPP_stats_success rast weights wkb geom default_value default_weight
              (pre ++ stat :: post) max_cells quantiles Hmc Hclash Hwkb Hacc Hsup)
    as (m' & Heq & _ & _ & Hget).
  rewrite Heq in Hm. injection Hm as ->.
  assert (forallb supported pre = true) as Hpre
    by (rewrite forallb_app in Hsup; apply andb_prop in Hsup as [? _]; assumption).
  pose proof (row_cells_width
                (final_row rast weights geom default_value default_weight
                   (pre ++ stat :: post) max_cells j) quantiles pre Hpre) as Hw.
  rewrite Hget by lia.
  rewrite row_cells_app. unfold row_cells at 2. cbn [flat_map].
  rewrite Hcells. cbn [default from_option id].
  rewrite lookup_app_r by lia.
  replace (Z.to_nat (total_width quantiles pre + Z.of_nat k) -
           length (row_cells
                     (final_row rast weights geom default_value default_weight
                        (pre ++ stat :: post) max_cells j) quantiles pre))%nat
    with k by lia.
  apply lookup_app_l. exact Hk.
Qed.

(** X13: in the matrix of a call that returns, the cells of a requested
    name start at the column equal to the number of columns of the names
    before it in the request, and hold the values the dispatch takes from
    the accumulator of that row after all windows. *)
Theorem statistic_columns_follow_request rast weights wkb geom default_value
    default_weight pre stat post max_cells quantiles m :
  read_wkb wkb = Some geom ->
  outcome (CPP_stats rast weights wkb default_value default_weight
             (pre ++ stat :: post) max_cells quantiles) = inr m ->
  forall j, 0 <= j < nrow m ->
    exists cells,
      stat_cells (final_row rast weights geom default_value default_weight
                    (pre ++ stat :: post) max_cells j) quantiles stat = Some cells /\
      Z.of_nat (length cells) = stat_width quantiles stat /\
      forall k, (k < length cells)%nat ->
        mget m j (total_width quantiles pre + Z.of_nat k) = cells !! k.
Proof.
  intros Hwkb Hm j Hj.
  assert (nrow m = Z.max (get_nlayers rast) (nweights_of weights)) as Hrows.
  { destruct (CPP_stats_matrix _ _ _ _ _ _ _ _ _ Hm) as (accs & _ & ->).
    apply write_rows_dims. }
  rewrite Hrows in Hj.
  assert (forallb supported (pre ++ stat :: post) = true) as Hsup
    by (apply (CPP_stats_inr_supported _ _ _ _ _ _ _ _ _ Hm); lia).
  rewrite forallb_app in Hsup. cbn [forallb] in Hsup.
  apply andb_prop in Hsup as [_ [Hs _]%andb_prop].
  apply (supported_stat_cells
           (final_row rast weights geom default_value default_weight
              (pre ++ stat :: post) max_cells j) quantiles) in Hs as [cells Hc].
  exists cells. split; [exact Hc|]. split; [exact (stat_cells_width _ _ _ _ Hc)|].
  intros k Hk. eapply CPP_stats_column; eassumption.
Qed.

(** X6: "majority" is another name of "mode": requested together, they
    fill their columns with the same value in every row of the matrix. *)
Theorem majority_column_equals_mode rast weights wkb default_value default_weight
    stats pre post pre' post' max_cells quantiles m :
  outcome (CPP_stats rast weights wkb default_value default_weight stats
             max_cells quantiles) = inr m ->
  stats = pre ++ "mode" :: post ->
  stats = pre' ++ "majority" :: post' ->
  forall j, 0 <= j < nrow m ->
    is_Some (mget m j (total_width quantiles pre)) /\
    mget m j (total_width quantiles pre') = mget m j (total_width quantiles pre).
Proof.
  intros Hm Hmode Hmaj j Hj.
  assert (nrow m = Z.max (get_nlayers rast) (nweights_of weights)) as Hrows.
  { destruct (CPP_stats_matrix _ _ _ _ _ _ _ _ _ Hm) as (accs & _ & ->).
    apply write_rows_dims. }
  rewrite Hrows in Hj.
  destruct (CPP_stats_inr_inv _ _ _ _ _ _ _ _ _ Hm) as (_ & _ & [geom Hwkb] & _).
  pose proof Hm as Hm'. rewrite Hmode in Hm. rewrite Hmaj in Hm'.
  pose proof (CPP_stats_column rast weights wkb geom default_value default_weight
                pre "mode" post max_cells quantiles m j _ 0%nat Hwkb Hm Hj
                eq_refl (Nat.lt_0_1)) as H1.
  pose proof (CPP_stats_column rast weights wkb geom default_value default_weight
                pre' "majority" post' max_cells quantiles m j _ 0%nat Hwkb Hm' Hj
                eq_refl (Nat.lt_0_1)) as H2.
  rewrite Z.add_0_r in H1, H2. rewrite H1, H2.
  rewrite <- Hmode, <- Hmaj. split; [eexists|]; reflexivity.
Qed.

(** X7: "median" is the quantile 0.5: requested together with "quantile",
    its column equals the quantile column of every 0.5 among the requested
    quantiles, in every row of the matrix. *)
Theorem median_column_equals_half_quantile rast weights wkb default_value
    default_weight stats pre post pre' post' max_cells qvec k m :
  outcome (CPP_stats rast weights wkb default_value default_weight stats
             max_cells (Some qvec)) = inr m ->
  stats = pre ++ "median" :: post ->
  stats = pre' ++ "quantile" :: post' ->
  qvec !! k = Some nhalf ->
  forall j, 0 <= j < nrow m ->
    is_Some (mget m j (total_width (Some qvec) pre)) /\
    mget m j (total_width (Some qvec) pre' + Z.of_nat k) =
    mget m j (total_width (Some qvec) pre).
Proof.
  intros Hm Hmed Hq Hk j Hj.
  assert (nrow m = Z.max (get_nlayers rast) (nweights_of weights)) as Hrows.
  { destruct (CPP_stats_matrix _ _ _ _ _ _ _ _ _ Hm) as (accs & _ & ->).
    apply write_rows_dims. }
  rewrite Hrows in Hj.
  destruct (CPP_stats_inr_inv _ _ _ _ _ _ _ _ _ Hm) as (_ & _ & [geom Hwkb] & _).
  pose proof Hm as Hm'. rewrite Hmed in Hm. rewrite Hq in Hm'.
  pose proof (CPP_stats_column rast weights wkb geom default_value default_weight
                pre "median" post max_cells (Some qvec) m j _ 0%nat Hwkb Hm Hj
                eq_refl (Nat.lt_0_1)) as H1.
  pose proof (lookup_lt_Some _ _ _ Hk) as Hlt.
  pose proof (CPP_stats_column rast weights wkb geom default_value default_weight
                pre' "quantile" post' max_cells (Some qvec) m j _ k Hwkb Hm' Hj
                eq_refl) as H2.
  rewrite length_map in H2. specialize (H2 Hlt).
  rewrite Z.add_0_r in H1. rewrite H1, H2.
  rewrite list_lookup_fmap. cbn [qvec_of default from_option id]. rewrite Hk.
  rewrite <- Hmed, <- Hq. split; [eexists|]; reflexivity.
Qed.

(** *** What the request decides *)

Lemma bind_ext {A B} (m : M A) (f g : A -> M B) :
  (forall a, f a = g a) -> m ≫= f = m ≫= g.
Proof.
  intros H. rewrite !bind_unfold. destruct m as [t [e|a]]; [reflexivity|].
  rewrite H. reflexivity.
Qed.

Lemma for_each_ext_in {A S} (l : list A) (body body' : A -> S -> M S) s :
  (forall x s, In x l -> body x s = body' x s) ->
  for_each l body s = for_each l body' s.
Proof.
  revert s. induction l as [|x l IH]; intros s H; [reflexivity|].
  cbn [for_each]. rewrite H by (left; reflexivity).
  apply bind_ext. intros s'. apply IH. intros y s'' Hy. apply H. right. exact Hy.
Qed.

Lemma validate_stats_no_quantile disaggregated quantiles quantiles' stats
    store_values n :
  ~ In "quantile" stats ->
  validate_stats disaggregated quantiles stats store_values n =
  validate_stats disaggregated quantiles' stats store_values n.
Proof.
  revert store_values n. induction stats as [|stat stats IH]; intros sv n Hq;
    [reflexivity|].
  cbn [validate_stats].
  destruct (disaggregated && ((stat == "count") || (stat == "sum")));
    [reflexivity|].
  destruct (stat == "quantile") eqn:Eq.
  - apply String.eqb_eq in Eq. exfalso. apply Hq. left. exact Eq.
  - apply IH. intros Hin. apply Hq. right. exact Hin.
Qed.

Lemma write_stat_no_quantile rs quantiles quantiles' j stat st :
  stat <> "quantile" ->
  write_stat rs quantiles j stat st = write_stat rs quantiles' j stat st.
Proof.
  intros Hne. destruct st as [m i]. rewrite !write_stat_cells.
  unfold stat_cells.
  repeat (destruct (stat == _) eqn:?; [reflexivity|]).
  destruct (stat == "quantile") eqn:Eq; [|reflexivity].
  apply String.eqb_eq in Eq. contradiction.
Qed.

(** X5: the [quantiles] argument is never looked at unless "quantile" is
    among the requested names: two calls that differ only in it have the
    same calls and the same result or error. *)
Theorem quantiles_unused_without_quantile rast weights wkb default_value
    default_weight stats max_cells quantiles quantiles' :
  ~ In "quantile" stats ->
  CPP_stats rast weights wkb default_value default_weight stats max_cells quantiles =
  CPP_stats rast weights wkb default_value default_weight stats max_cells quantiles'.
Proof.
  intros Hq. unfold CPP_stats.
  destruct (max_cells <? 1); [reflexivity|]. cbv zeta.
  apply bind_ext. intros [rweights nweights].
  apply bind_ext. intros geom.
  rewrite (validate_stats_no_quantile _ quantiles quantiles') by exact Hq.
  apply bind_ext. intros [store_values size].
  apply bind_ext. intros raster_stats.
  unfold write_results, for_range. apply for_each_ext_in. intros j m' _.
  destruct (raster_stats !! Z.to_nat j) as [rs|]; [|reflexivity].
  f_equal. apply for_each_ext_in. intros stat st Hin.
  apply write_stat_no_quantile. intros ->. contradiction.
Qed.

Lemma write_rows_nil raster_stats quantiles js m :
  write_rows raster_stats [] quantiles js m = m.
Proof.
  unfold write_rows. revert m. induction js as [|j js IH]; intros m; [reflexivity|].
  cbn [fold_left]. destruct (raster_stats !! Z.to_nat j); apply IH.
Qed.

(** X8: a request with no name still visits every window - the planner,
    the coverage and the reads of a call with names - and returns a matrix
    with one row per output layer and no column. *)
Theorem empty_request_still_reads rast weights wkb geom default_value
    default_weight max_cells quantiles :
  1 <= max_cells ->
  layers_clash rast weights = false ->
  read_wkb wkb = Some geom ->
  CPP_stats rast weights wkb default_value default_weight [] max_cells quantiles =
  (stats_events rast weights geom max_cells,
   inr (no_init (Z.max (get_nlayers rast) (nweights_of weights)) 0)).
Proof.
  intros Hmc Hclash Hwkb.
  rewrite (CPP_stats_checked _ _ _ geom) by (try reflexivity; assumption).
  destruct (window_phase_outcome rast weights geom default_value default_weight
              [] max_cells) as (accs & Hout & _).
  rewrite (bind_outcome_inr _ _ accs Hout), window_phase_trace.
  rewrite write_results_supported by reflexivity.
  cbn [trace_of outcome fst snd]. rewrite app_nil_r, write_rows_nil. reflexivity.
Qed.

Lemma row_after_empty_windows rsrc rweights nlayers nweights geom subgrids i a :
  (forall subgrid, In subgrid subgrids ->
     grid_empty (coverage_grid (raster_cell_intersection subgrid geom)) = true) ->
  row_after_windows rsrc rweights nlayers nweights geom subgrids i a = a.
Proof.
  unfold row_after_windows. revert a.
  induction subgrids as [|g gs IH]; intros a H; [reflexivity|].
  cbn [fold_left]. rewrite (H g) by (left; reflexivity). cbn [negb].
  apply IH. intros g' Hg'. apply H. right. exact Hg'.
Qed.

(** X12: when the coverage grid of every visited window is empty, no
    raster is read, although the coverage of each window is computed, and
    every row of the matrix holds the statistics of an accumulator that
    has seen no cell. *)
Theorem empty_coverage_windows_skipped rast weights wkb geom default_value
    default_weight stats max_cells quantiles :
  1 <= max_cells ->
  layers_clash rast weights = false ->
  read_wkb wkb = Some geom ->
  forallb (stat_accepted (disaggregating rast weights) quantiles) stats = true ->
  forallb supported stats = true ->
  (forall subgrid,
     In subgrid (visited_subgrids (reconciled_grid rast weights) geom max_cells) ->
     grid_empty (coverage_grid (raster_cell_intersection subgrid geom)) = true) ->
  exists m,
    CPP_stats rast weights wkb default_value default_weight stats max_cells quantiles =
    (stats_events rast weights geom max_cells, inr m) /\
    value_reads (stats_events rast weights geom max_cells) = [] /\
    weight_reads (stats_events rast weights geom max_cells) = [] /\
    coverage_calls (stats_events rast weights geom max_cells) =
    visited_subgrids (reconciled_grid rast weights) geom max_cells /\
    forall j i, 0 <= j < nrow m -> 0 <= i ->
      mget m j i =
      row_cells (RasterStats_new (stores_values stats)) quantiles stats
        !! Z.to_nat i.
Proof.
  intros Hmc Hclash Hwkb Hacc Hsup Hempty.
  destruct (CPP_stats_success rast weights wkb geom default_value default_weight
              stats max_cells quantiles Hmc Hclash Hwkb Hacc Hsup)
    as (m & Heq & Hrows & _ & Hget).
  exists m. rewrite window_phase_trace in Heq. split; [exact Heq|].
  destruct (stats_events_reads rast weights geom max_cells) as [-> ->].
  assert (nonempty_windows geom
            (visited_subgrids (reconciled_grid rast weights) geom max_cells) = [])
    as ->.
  { unfold nonempty_windows.
    induction (visited_subgrids (reconciled_grid rast weights) geom max_cells)
      as [|g gs IH]; [reflexivity|].
    rewrite filter_cons, decide_False
      by (rewrite (Hempty g) by (left; reflexivity); discriminate).
    apply IH. intros g' Hg'. apply Hempty. right. exact Hg'. }
  split; [reflexivity|]. split; [reflexivity|].
  split; [apply stats_events_calls|].
  intros j i Hj Hi. rewrite Hrows in Hj. rewrite Hget by assumption.
  unfold final_row. rewrite row_after_empty_windows by exact Hempty. reflexivity.
Qed.

End StatsFurther.

(** * Further properties of [CPP_exact_extract] *)

Section ExtractFurther.
Context `{W : World}.

(** *** The trace of a call *)

Lemma bind_trace {A B} (m : M A) (f : A -> M B) :
  trace_of (m ≫= f) =
  trace_of m ++ match outcome m with
                | inr a => trace_of (f a)
                | inl _ => []
                end.
Proof.
  rewrite bind_unfold. destruct m as [t [e|a]]; cbn [trace_of outcome fst snd];
    [rewrite app_nil_r|]; reflexivity.
Qed.

Lemma bind_trace_inr {A B} (m : M A) (f : A -> M B) b :
  outcome (m ≫= f) = inr b ->
  exists a, outcome m = inr a /\ outcome (f a) = inr b /\
            trace_of (m ≫= f) = trace_of m ++ trace_of (f a).
Proof.
  intros H. destruct (bind_inr_inv _ _ _ H) as (a & Ha & Hb).
  exists a. split; [exact Ha|]. split; [exact Hb|].
  rewrite bind_trace, Ha. reflexivity.
Qed.

Section Reads.
Variable P : event -> Prop.

Lemma trace_bind_all {A B} (m : M A) (f : A -> M B) :
  Forall P (trace_of m) -> (forall a, Forall P (trace_of (f a))) ->
  Forall P (trace_of (m ≫= f)).
Proof.
  intros Hm Hf. rewrite bind_trace. apply Forall_app. split; [exact Hm|].
  destruct (outcome m); [constructor|apply Hf].
Qed.

Lemma trace_for_each_all {A S} (l : list A) (body : A -> S -> M S) s :
  (forall x s, Forall P (trace_of (body x s))) ->
  Forall P (trace_of (for_each l body s)).
Proof.
  intros Hb. revert s. induction l as [|x l IH]; intros s; [constructor|].
  cbn [for_each]. apply trace_bind_all; [apply Hb|exact IH].
Qed.

Lemma trace_subset_all v mask : Forall P (trace_of (subset_logical v mask)).
Proof. unfold subset_logical. destruct (_ =? _)%nat; constructor. Qed.

Lemma trace_name_at_all names i : Forall P (trace_of (name_at names i)).
Proof. unfold name_at. destruct (names !! Z.to_nat i); constructor. Qed.

End Reads.

Lemma trace_read_values rsrc b i :
  Forall (fun ev => is_read ev = true) (trace_of (read_values rsrc b i)).
Proof. constructor; [reflexivity|constructor]. Qed.

Lemma trace_read_weights rw b i :
  Forall (fun ev => is_read ev = true) (trace_of (read_weights rw b i)).
Proof. constructor; [reflexivity|constructor]. Qed.

Ltac only_reads :=
  repeat (cbv zeta;
          first [ apply trace_read_values
                | apply trace_read_weights
                | apply trace_subset_all
                | apply trace_name_at_all
                | apply Forall_nil_2
                | apply trace_bind_all; [|intros ?]
                | apply trace_for_each_all; intros ? ?
                | match goal with
                  | |- Forall _ (trace_of (match ?x with _ => _ end)) => destruct x
                  end ]).

(** The calls of [extract_table]: the coverage of the cropped common grid,
    then reads only; nothing when the geometry cannot be parsed. *)
Lemma extract_table_trace rast weights wkb include_xy include_cell_number
    include_cols src_names grid weights_grid common_grid rsrc rweights
    weights_nlayers weights_names :
  exists rest,
    trace_of (extract_table rast weights wkb include_xy include_cell_number
                include_cols src_names grid weights_grid common_grid rsrc rweights
                weights_nlayers weights_names) =
    match read_wkb wkb with
    | Some geom => EvCoverage (grid_crop common_grid (geos_get_box geom)) :: rest
    | None => []
    end /\
    Forall (fun ev => is_read ev = true) rest /\
    (read_wkb wkb = None ->
     outcome (extract_table rast weights wkb include_xy include_cell_number
                include_cols src_names grid weights_grid common_grid rsrc rweights
                weights_nlayers weights_names) = inl GeometryError).
Proof.
  unfold extract_table. destruct (read_wkb wkb) as [geom|].
  - rewrite bind_ret. cbv zeta.
    rewrite (bind_run _ _ _ _ (call_coverage_run _ _)).
    eexists. split; [reflexivity|]. split; [|discriminate].
    cbn [trace_of fst]. only_reads.
  - exists []. split; [reflexivity|]. split; [constructor|reflexivity].
Qed.

Lemma CPP_exact_extract_trace rast weights wkb default_value default_weight
    include_xy include_cell_number include_cols src_names p_weights_names
    warn_on_disaggregate :
  exists rest,
    trace_of (CPP_exact_extract rast weights wkb default_value default_weight
                include_xy include_cell_number include_cols src_names
                p_weights_names warn_on_disaggregate) =
    (if present weights && warn_on_disaggregate && disaggregating rast weights
     then disaggregation_warning else []) ++
    match read_wkb wkb with
    | Some geom =>
      EvCoverage (grid_crop (reconciled_grid rast weights) (geos_get_box geom))
      :: rest
    | None => []
    end /\
    Forall (fun ev => is_read ev = true) rest /\
    (read_wkb wkb = None ->
     outcome (CPP_exact_extract rast weights wkb default_value default_weight
                include_xy include_cell_number include_cols src_names
                p_weights_names warn_on_disaggregate) = inl GeometryError).
Proof.
  unfold CPP_exact_extract. cbv zeta. destruct weights as [weights_s4|].
  - cbn [present andb reconciled_grid]. unfold disaggregating, reconciled_grid.
    destruct (extract_table_trace rast (Some weights_s4) wkb include_xy
                include_cell_number include_cols src_names (make_grid rast)
                (make_grid weights_s4)
                (grid_common_grid (make_grid rast) (make_grid weights_s4))
                {| src_rast := rast; src_default := default_value |}
                (Some {| src_rast := weights_s4; src_default := default_weight |})
                (get_nlayers weights_s4) (default [] p_weights_names))
      as (rest & Htr & Hrest & Herr).
    exists rest.
    destruct (warn_on_disaggregate &&
              (nltb (grid_dx (grid_common_grid (make_grid rast) (make_grid weights_s4)))
                    (grid_dx (make_grid rast)) ||
               nltb (grid_dy (grid_common_grid (make_grid rast) (make_grid weights_s4)))
                    (grid_dy (make_grid rast)))); cbv iota.
    + assert (forall (msg : string) A (a : A),
                (emit (EvWarning msg) ≫= fun _ : () => mret a) =
                ([EvWarning msg], inr a)) as Hsetup by reflexivity.
      rewrite (bind_run _ _ _ _ (Hsetup _ _ _)).
      cbn [trace_of outcome fst snd]. rewrite Htr. split; [reflexivity|].
      split; [exact Hrest|exact Herr].
    + rewrite !bind_ret. rewrite Htr. split; [reflexivity|].
      split; [exact Hrest|exact Herr].
  - cbn [present andb reconciled_grid app]. rewrite bind_ret.
    apply extract_table_trace.
Qed.

Lemma reads_no_calls (tr : list event) :
  Forall (fun ev => is_read ev = true) tr ->
  coverage_calls tr = [] /\ planner_calls tr = [] /\
  Forall (fun ev => is_warning ev = false) tr.
Proof.
  induction 1 as [|ev tr Hev _ (IH1 & IH2 & IH3)]; [repeat split; constructor|].
  unfold coverage_calls, planner_calls in *. cbn [omap list_omap].
  destruct ev; try discriminate; rewrite ?IH1, ?IH2;
    (split; [reflexivity|split; [reflexivity|constructor; [reflexivity|exact IH3]]]).
Qed.

(** X15: the disaggregation warning is issued exactly when weights are
    given, [warn_on_disaggregate] is set and the common grid is finer than
    the grid of the values; it comes before every other call, at most
    once, whether or not the call then succeeds. *)
Theorem warning_first_and_only_when_disaggregating rast weights wkb default_value
    default_weight include_xy include_cell_number include_cols src_names
    p_weights_names warn_on_disaggregate :
  exists rest,
    trace_of (CPP_exact_extract rast weights wkb default_value default_weight
                include_xy include_cell_number include_cols src_names
                p_weights_names warn_on_disaggregate) =
    (if present weights && warn_on_disaggregate && disaggregating rast weights
     then disaggregation_warning else []) ++ rest /\
    Forall (fun ev => is_warning ev = false) rest.
Proof.
  destruct (CPP_exact_extract_trace rast weights wkb default_value default_weight
              include_xy include_cell_number include_cols src_names
              p_weights_names warn_on_disaggregate) as (rest & -> & Hrest & _).
  eexists. split; [reflexivity|].
  destruct (read_wkb wkb); [|constructor].
  constructor; [reflexivity|]. apply reads_no_calls. exact Hrest.
Qed.

(** X16: a geometry that cannot be parsed stops the extraction with the
    geometry error before the coverage is computed or any raster read;
    only the disaggregation warning, which precedes the parsing, can have
    been issued. *)
Theorem extract_bad_geometry rast weights wkb default_value default_weight
    include_xy include_cell_number include_cols src_names p_weights_names
    warn_on_disaggregate :
  read_wkb wkb = None ->
  CPP_exact_extract rast weights wkb default_value default_weight
    include_xy include_cell_number include_cols src_names p_weights_names
    warn_on_disaggregate =
  ((if present weights && warn_on_disaggregate && disaggregating rast weights
    then disaggregation_warning else []), inl GeometryError).
Proof.
  intros Hwkb.
  destruct (CPP_exact_extract_trace rast weights wkb default_value default_weight
              include_xy include_cell_number include_cols src_names
              p_weights_names warn_on_disaggregate) as (rest & Htr & _ & Herr).
  rewrite Hwkb, app_nil_r in Htr. specialize (Herr Hwkb).
  destruct (CPP_exact_extract _ _ _ _ _ _ _ _ _ _ _) as [t r].
  cbn [trace_of outcome fst snd] in *. subst. reflexivity.
Qed.

(** X17: the extraction never asks the window planner: whatever the size
    of the region, it computes the coverage exactly once, on the whole
    common grid cropped to the bounding box of the geometry. *)
Theorem extract_single_window rast weights wkb geom default_value default_weight
    include_xy include_cell_number include_cols src_names p_weights_names
    warn_on_disaggregate :
  read_wkb wkb = Some geom ->
  let tr := trace_of (CPP_exact_extract rast weights wkb default_value
                        default_weight include_xy include_cell_number include_cols
                        src_names p_weights_names warn_on_disaggregate) in
  coverage_calls tr =
  [grid_crop (reconciled_grid rast weights) (geos_get_box geom)] /\
  planner_calls tr = [].
Proof.
  intros Hwkb. cbv zeta.
  destruct (CPP_exact_extract_trace rast weights wkb default_value default_weight
              include_xy include_cell_number include_cols src_names
              p_weights_names warn_on_disaggregate) as (rest & -> & Hrest & _).
  rewrite Hwkb. apply reads_no_calls in Hrest as (Hc & Hp & _).
  unfold coverage_calls, planner_calls in *. rewrite !omap_app.
  cbn [omap list_omap]. rewrite Hc, Hp.
  destruct (present weights && warn_on_disaggregate && disaggregating rast weights);
    split; reflexivity.
Qed.

(** *** Distinct column names *)

Lemma assign_NoDup names name : NoDup names -> NoDup (assign names name).
Proof.
  intros Hnd. unfold assign.
  destruct (existsb (fun n => n == name) names) eqn:E; [exact Hnd|].
  apply NoDup_app. split; [exact Hnd|]. split; [|apply NoDup_singleton].
  intros x Hx Hin. apply list_elem_of_singleton in Hin as ->.
  assert (existsb (fun n => n == name) names = true); [|congruence].
  apply existsb_exists. exists name.
  split; [apply list_elem_of_In; exact Hx|apply String.eqb_refl].
Qed.

Lemma fold_assign_NoDup l names :
  NoDup names -> NoDup (fold_left assign l names).
Proof.
  revert names. induction l as [|x l IH]; intros names Hnd; [exact Hnd|].
  cbn [fold_left]. apply IH, assign_NoDup, Hnd.
Qed.

Lemma fold_assign_weight_NoDup l names :
  NoDup names -> NoDup (fold_left assign_weight l names).
Proof.
  revert names. induction l as [|x l IH]; intros names Hnd; [exact Hnd|].
  cbn [fold_left]. apply IH. unfold assign_weight. apply assign_NoDup, Hnd.
Qed.

Lemma table_names_NoDup include_names value_names weight_names include_xy
    include_cell_number :
  NoDup (table_names include_names value_names weight_names include_xy
           include_cell_number).
Proof.
  unfold table_names. cbv zeta. apply assign_NoDup.
  assert (NoDup (fold_left assign_weight weight_names
                   (fold_left assign value_names
                      (fold_left assign include_names [])))) as H3
    by (apply fold_assign_weight_NoDup, fold_assign_NoDup, fold_assign_NoDup,
          NoDup_nil_2).
  destruct include_xy, include_cell_number;
    repeat apply assign_NoDup; exact H3.
Qed.

Lemma assign_keeps names name x : In x names -> In x (assign names name).
Proof.
  unfold assign. destruct (existsb _ names); [tauto|].
  intros H. apply in_or_app. left. exact H.
Qed.

Lemma assign_has names name : In name (assign names name).
Proof.
  unfold assign. destruct (existsb (fun n => n == name) names) eqn:E.
  - apply existsb_exists in E as (n & Hin & Heq).
    apply String.eqb_eq in Heq as ->. exact Hin.
  - apply in_or_app. right. left. reflexivity.
Qed.

(** X14: whatever the layer names, the pass-through names and the options,
    no two columns of a table that is returned have the same name, one of
    them is "coverage_fraction" and holds the positive coverage fractions
    of the cropped common grid, and every numeric column has one entry per
    such fraction. *)
Theorem extract_columns_distinct rast weights wkb default_value default_weight
    include_xy include_cell_number include_cols src_names p_weights_names
    warn_on_disaggregate cols :
  outcome (CPP_exact_extract rast weights wkb default_value default_weight
             include_xy include_cell_number include_cols src_names
             p_weights_names warn_on_disaggregate) = inr cols ->
  NoDup (map fst cols) /\
  exists geom, read_wkb wkb = Some geom /\
    get_named cols "coverage_fraction" =
    Some (ColNum (map snd (covered_cells (extract_coverage rast weights geom)))) /\
    forall name v, In (name, ColNum v) cols ->
      length v = length (covered_cells (extract_coverage rast weights geom)).
Proof.
  intros H.
  apply CPP_exact_extract_columns in H
    as (geom & Hwkb & [Hnames Hrows] & Hcf & _).
  split; [rewrite Hnames; apply table_names_NoDup|].
  exists geom. split; [exact Hwkb|]. split; [exact Hcf|exact Hrows].
Qed.

(** *** The reads of a call that returns *)

Lemma for_each_trace_inr {A S} (l : list A) (body : A -> S -> M S)
    (t : A -> list event) s s' :
  outcome (for_each l body s) = inr s' ->
  (forall x s s1, outcome (body x s) = inr s1 -> trace_of (body x s) = t x) ->
  trace_of (for_each l body s) = flat_map t l.
Proof.
  intros H Hb. revert s H. induction l as [|x l IH]; intros s H; [reflexivity|].
  cbn [for_each] in *. apply bind_trace_inr in H as (s1 & H1 & H2 & ->).
  cbn [flat_map]. rewrite (Hb _ _ _ H1), (IH _ H2). reflexivity.
Qed.

Lemma silent_inr_trace {A} (m : M A) a :
  Forall (fun _ => False) (trace_of m) -> outcome m = inr a -> trace_of m = [].
Proof. intros H _. destruct (trace_of m); [reflexivity|inversion H; contradiction]. Qed.

Lemma extract_table_reads rast weights wkb include_xy include_cell_number
    include_cols src_names grid weights_grid common_grid rsrc rweights
    weights_nlayers weights_names cols geom :
  read_wkb wkb = Some geom ->
  outcome (extract_table rast weights wkb include_xy include_cell_number
             include_cols src_names grid weights_grid common_grid rsrc rweights
             weights_nlayers weights_names) = inr cols ->
  let ext := grid_extent (coverage_grid (raster_cell_intersection
               (grid_crop common_grid (geos_get_box geom)) geom)) in
  trace_of (extract_table rast weights wkb include_xy include_cell_number
              include_cols src_names grid weights_grid common_grid rsrc rweights
              weights_nlayers weights_names) =
  EvCoverage (grid_crop common_grid (geos_get_box geom)) ::
  map (EvReadValues ext) (seqZ 0 (get_nlayers rast)) ++
  (if present rweights then map (EvReadWeights ext) (seqZ 0 weights_nlayers)
   else []).
Proof.
  intros Hwkb H. cbv zeta. unfold extract_table in *. rewrite Hwkb in *.
  rewrite bind_ret in *. cbv zeta in *.
  rewrite (bind_run _ _ _ _ (call_coverage_run _ _)) in *.
  cbn [trace_of outcome fst snd app] in *. f_equal.
  set (cov := raster_cell_intersection
                (grid_crop common_grid (geos_get_box geom)) geom) in *.
  apply bind_trace_inr in H as (c1 & H1 & H & ->).
  apply bind_trace_inr in H as (c2 & H2 & H & ->).
  apply bind_trace_inr in H as (c3 & H3 & H & ->).
  apply bind_trace_inr in H as (c4 & H4 & H & ->).
  apply bind_trace_inr in H as (c5 & H5 & H & ->).
  apply bind_trace_inr in H as (cf & H6 & H & ->).
  assert (forall A (m : M A), Forall (fun _ : event => False) (trace_of m) ->
                              trace_of m = []) as Hsil
    by (intros A m Hm; destruct (trace_of m); [reflexivity|inversion Hm; contradiction]).
  unfold for_range in *.
  match type of H1 with
  | outcome ?m = _ =>
    assert (trace_of m = []) as ->
      by (apply Hsil; destruct include_cols; [|constructor];
          apply trace_for_each_all; intros x s0;
          destruct (get_named _ x); constructor)
  end.
  match type of H4 with
  | outcome ?m = _ =>
    assert (trace_of m = []) as ->
      by (apply Hsil; destruct include_xy; [|constructor];
          apply trace_bind_all; [apply trace_subset_all|intros ?];
          apply trace_bind_all; [apply trace_subset_all|intros ?]; constructor)
  end.
  match type of H5 with
  | outcome ?m = _ =>
    assert (trace_of m = []) as ->
      by (apply Hsil; destruct include_cell_number; [|constructor];
          apply trace_bind_all; [apply trace_subset_all|intros ?]; constructor)
  end.
  rewrite (Hsil _ _ (trace_subset_all _ _ _)).
  cbn [trace_of fst mret M_ret app]. rewrite !app_nil_r.
  rewrite (for_each_trace_inr _ _ (fun i => [EvReadValues
             (grid_extent (coverage_grid cov)) i]) _ _ H2).
  2:{ intros i s0 s1 _. rewrite (bind_run _ _ _ _ (read_values_run _ _ _)).
      unfold trace_of at 1. cbn [fst]. rewrite Hsil; [reflexivity|].
      apply trace_bind_all; [apply trace_subset_all|intros ?].
      apply trace_bind_all; [apply trace_name_at_all|intros ?]. constructor. }
  rewrite (flat_map_singleton (EvReadValues (grid_extent (coverage_grid cov)))).
  f_equal. destruct rweights as [rw|]; cbn [present].
  - rewrite (for_each_trace_inr _ _ (fun i => [EvReadWeights
               (grid_extent (coverage_grid cov)) i]) _ _ H3).
    + apply (flat_map_singleton (EvReadWeights (grid_extent (coverage_grid cov)))).
    + intros i s0 s1 _. rewrite (bind_run _ _ _ _ (read_weights_run _ _ _)).
      unfold trace_of at 1. cbn [fst]. rewrite Hsil; [reflexivity|].
      apply trace_bind_all; [apply trace_subset_all|intros ?].
      apply trace_bind_all; [apply trace_name_at_all|intros ?]. constructor.
  - apply Hsil. apply trace_for_each_all. intros; constructor.
Qed.

(** X18: a call that returns a table has read every value layer once, in
    order, and then every weight layer once, in order, each at the extent
    of the coverage grid of the cropped common grid; without weights the
    weight raster is not read. *)
Theorem extract_reads_each_layer_once rast weights wkb geom default_value
    default_weight include_xy include_cell_number include_cols src_names
    p_weights_names warn_on_disaggregate cols :
  read_wkb wkb = Some geom ->
  outcome (CPP_exact_extract rast weights wkb default_value default_weight
             include_xy include_cell_number include_cols src_names
             p_weights_names warn_on_disaggregate) = inr cols ->
  let tr := trace_of (CPP_exact_extract rast weights wkb default_value
                        default_weight include_xy include_cell_number include_cols
                        src_names p_weights_names warn_on_disaggregate) in
  let ext := grid_extent (coverage_grid (extract_coverage rast weights geom)) in
  filter (fun ev => is_read ev = true) tr =
  map (EvReadValues ext) (seqZ 0 (get_nlayers rast)) ++
  map (EvReadWeights ext) (seqZ 0 (nweights_of weights)).
Proof.
  intros Hwkb H. cbv zeta. unfold CPP_exact_extract in *. cbv zeta in *.
  assert (forall (f : Z -> event) l, (forall i, is_read (f i) = true) ->
            filter (fun ev => is_read ev = true) (map f l) = map f l) as Hmap.
  { intros f l Hf. induction l as [|x l IH]; [reflexivity|].
    cbn [map]. rewrite filter_cons, decide_True by apply Hf. rewrite IH.
    reflexivity. }
  destruct weights as [weights_s4|].
  - assert (forall (msg : string) A (a : A),
              (emit (EvWarning msg) ≫= fun _ : () => mret a) =
              ([EvWarning msg], inr a)) as Hsetup by reflexivity.
    cbn [nweights_of].
    destruct (warn_on_disaggregate && _); cbv iota in H |- *.
    + rewrite (bind_run _ _ _ _ (Hsetup _ _ _)) in H |- *.
      unfold outcome at 1 in H. cbn [snd] in H. unfold trace_of at 1. cbn [fst].
      rewrite (extract_table_reads _ _ _ _ _ _ _ _ _ _ _ _ _ _ _ _ Hwkb H).
      cbn [present app].
      rewrite !filter_cons, decide_False by discriminate.
      rewrite decide_False by discriminate.
      rewrite filter_app, !Hmap by reflexivity. reflexivity.
    + rewrite !bind_ret in H |- *.
      rewrite (extract_table_reads _ _ _ _ _ _ _ _ _ _ _ _ _ _ _ _ Hwkb H).
      cbn [present]. rewrite filter_cons, decide_False by discriminate.
      rewrite filter_app, !Hmap by reflexivity. reflexivity.
  - rewrite bind_ret in *.
    rewrite (extract_table_reads _ _ _ _ _ _ _ _ _ _ _ _ _ _ _ _ Hwkb H).
    cbn [present nweights_of]. rewrite filter_cons, decide_False by discriminate.
    rewrite filter_app, Hmap by reflexivity.
    rewrite (seqZ_nil 0 0) by lia. reflexivity.
Qed.

(** *** Where the coordinates come from *)

Lemma get_named_set_named_ne (l : named_list) name name' v :
  name <> name' ->
  get_named (set_named l name v) name' = get_named l name'.
Proof.
  intros Hne. induction l as [|[n x] l IH]; cbn [set_named get_named].
  - destruct (name == name') eqn:E; [|reflexivity].
    apply String.eqb_eq in E. contradiction.
  - destruct (n == name) eqn:E; cbn [get_named].
    + destruct (n == name') eqn:E'; [|reflexivity].
      apply String.eqb_eq in E, E'. congruence.
    + destruct (n == name'); [reflexivity|exact IH].
Qed.

Ltac inv_run H x Hx :=
  cbv zeta in H; apply bind_inr_inv in H as (x & Hx & H).

Lemma extract_table_coordinates rast weights wkb include_xy include_cell_number
    include_cols src_names grid weights_grid common_grid rsrc rweights
    weights_nlayers weights_names cols geom :
  read_wkb wkb = Some geom ->
  outcome (extract_table rast weights wkb include_xy include_cell_number
             include_cols src_names grid weights_grid common_grid rsrc rweights
             weights_nlayers weights_names) = inr cols ->
  let cov := raster_cell_intersection
               (grid_crop common_grid (geos_get_box geom)) geom in
  let covered := map (fun c => nltb n0 c) (coverage_vector cov) in
  let src :=
    match weights with
    | Some weights_s4 =>
      if (0 <? weights_nlayers) &&
         (nltb (grid_dx weights_grid) (grid_dx grid) ||
          nltb (grid_dy weights_grid) (grid_dy grid))
      then weights_s4 else rast
    | None => rast
    end in
  (include_xy = true ->
   get_named cols "x" =
   Some (ColNum (mask_select (get_x_values src (coverage_grid cov)) covered)) /\
   get_named cols "y" =
   Some (ColNum (mask_select (get_y_values src (coverage_grid cov)) covered))) /\
  (include_cell_number = true ->
   get_named cols "cell" =
   Some (ColNum (mask_select (get_cell_numbers rast (coverage_grid cov)) covered))).
Proof.
  intros Hwkb H. cbv zeta. unfold extract_table in H. rewrite Hwkb in H.
  rewrite bind_ret in H.
  inv_run H cov Hcov. rewrite call_coverage_outcome in Hcov. injection Hcov as <-.
  inv_run H c1 H1. inv_run H c2 H2. inv_run H c3 H3.
  inv_run H c4 H4. inv_run H c5 H5. inv_run H cf Hcf.
  injection H as <-.
  split.
  - intros ->.
    assert (forall n, n = "x" \/ n = "y" -> get_named c5 n = get_named c4 n) as H45.
    { intros n Hn. destruct include_cell_number.
      - inv_run H5 cell Hcell. injection H5 as <-.
        apply get_named_set_named_ne. destruct Hn as [-> | ->]; discriminate.
      - injection H5 as <-. reflexivity. }
    inv_run H4 x Hx. inv_run H4 y Hy. injection H4 as <-.
    apply subset_logical_inv in Hx as [_ ->].
    apply subset_logical_inv in Hy as [_ ->].
    split.
    + rewrite get_named_set_named_ne by discriminate.
      rewrite H45 by (left; reflexivity).
      rewrite get_named_set_named_ne by discriminate.
      apply get_named_set_named.
    + rewrite get_named_set_named_ne by discriminate.
      rewrite H45 by (right; reflexivity).
      apply get_named_set_named.
  - intros ->. inv_run H5 cell Hcell. injection H5 as <-.
    apply subset_logical_inv in Hcell as [_ ->].
    rewrite get_named_set_named_ne by discriminate.
    apply get_named_set_named.
Qed.

(** X19: in a table that is returned, the columns "x" and "y" hold the
    coordinates, at the covered cells, taken from the weight raster
    exactly when it has at least one layer and a finer cell size than the
    value raster in x or in y, and from the value raster otherwise; the
    column "cell" always holds the cell numbers of the value raster. *)
Theorem extract_coordinates_source rast weights wkb geom default_value
    default_weight include_xy include_cell_number include_cols src_names
    p_weights_names warn_on_disaggregate cols :
  read_wkb wkb = Some geom ->
  outcome (CPP_exact_extract rast weights wkb default_value default_weight
             include_xy include_cell_number include_cols src_names
             p_weights_names warn_on_disaggregate) = inr cols ->
  let cov := extract_coverage rast weights geom in
  let covered := map (fun c => nltb n0 c) (coverage_vector cov) in
  let src :=
    match weights with
    | Some weights_s4 =>
      if (0 <? get_nlayers weights_s4) &&
         (nltb (grid_dx (make_grid weights_s4)) (grid_dx (make_grid rast)) ||
          nltb (grid_dy (make_grid weights_s4)) (grid_dy (make_grid rast)))
      then weights_s4 else rast
    | None => rast
    end in
  (include_xy = true ->
   get_named cols "x" =
   Some (ColNum (mask_select (get_x_values src (coverage_grid cov)) covered)) /\
   get_named cols "y" =
   Some (ColNum (mask_select (get_y_values src (coverage_grid cov)) covered))) /\
  (include_cell_number = true ->
   get_named cols "cell" =
   Some (ColNum (mask_select (get_cell_numbers rast (coverage_grid cov)) covered))).
Proof.
  intros Hwkb H. unfold CPP_exact_extract in H.
  inv_run H setup Hsetup. destruct weights as [weights_s4|].
  - inv_run Hsetup u Hu. injection Hsetup as <-.
    exact (extract_table_coordinates _ _ _ _ _ _ _ _ _ _ _ _ _ _ _ _ Hwkb H).
  - injection Hsetup as <-.
    exact (extract_table_coordinates _ _ _ _ _ _ _ _ _ _ _ _ _ _ _ _ Hwkb H).
Qed.

End ExtractFurther.

(** * The claims on concrete requests *)

Import Toy.
#[local] Existing Instance spec_stats.

(** Evaluate the left-hand side of an equation (the goal's, or that of a
    hypothesis) and leave its type alone. *)
Ltac eval_lhs :=
  match goal with
  | |- ?l = _ => let l' := eval vm_compute in l in change l with l'
  end.

Ltac eval_lhs_in H :=
  match type of H with
  | ?l = _ => let l' := eval vm_compute in l in change l with l' in H
  end.

(** The scenario of the spec: values 1, 2, 3, 4 fully covered give count
    4, sum 10, mean 2.5, min 1, max 4, variety 4 and median 2.5, whether
    the grid is read in one window or in two. *)
Example square_scenario :
  forall max_cells, max_cells = 2 \/ max_cells = 100 ->
  match outcome (CPP_stats square None (wkb_of 0 0 2 2) 0 0
                   ["count"; "sum"; "mean"; "min"; "max"; "variety"; "median"]
                   max_cells None) with
  | inr m => Some (nrow m, ncol m, map (mget m 0) (seqZ 0 7))
  | inl _ => None
  end =
  Some (1, 7,
        [Some (Dbl 4000); Some (Dbl 10000); Some (Dbl 2500); Some (Dbl 1000);
         Some (Dbl 4000); Some (Dbl 4000); Some (Dbl 2500)]).
Proof. intros max_cells [-> | ->]; eval_lhs; reflexivity. Qed.

Lemma max_cells_checked_first_witness :
  CPP_stats square None (wkb_of 0 0 2 2) 0 0 ["mean"] 0 None =
  ([], inl (InvalidMaxCells 0)) /\
  (forall n,
     outcome (CPP_stats square None (wkb_of 0 0 2 2) 0 0 ["mean"] 1 None) <>
     inl (InvalidMaxCells n)).
Proof.
  split.
  - apply (proj1 (max_cells_checked_first square None (wkb_of 0 0 2 2) 0 0
                    ["mean"] 0 None)). lia.
  - apply (proj2 (max_cells_checked_first square None (wkb_of 0 0 2 2) 0 0
                    ["mean"] 1 None)). lia.
Defined.

Lemma layer_counts_checked_witness :
  (exists e,
     CPP_stats (layered 2) (Some (uniform 3 7000)) (wkb_of 0 0 2 2) 0 0
       ["mean"] 10 None = ([], inl e) /\ e = IncompatibleLayers) /\
  (exists m,
     outcome (CPP_stats (layered 3) (Some (uniform 1 7000)) (wkb_of 0 0 2 2) 0 0
                ["mean"] 10 None) = inr m /\ nrow m = 3).
Proof.
  destruct (layer_counts_checked (layered 2) (Some (uniform 3 7000))
              (wkb_of 0 0 2 2) 0 0 ["mean"] 10 None) as [Hclash _].
  destruct (Hclash (uniform 3 7000) eq_refl) as (e & He & _ & Hlayer);
    [reflexivity|reflexivity|discriminate|].
  split.
  - exists e. split; [exact He|]. apply Hlayer. lia.
  - assert (exists m,
              outcome (CPP_stats (layered 3) (Some (uniform 1 7000))
                         (wkb_of 0 0 2 2) 0 0 ["mean"] 10 None) = inr m)
      as [m Hm] by (eexists; eval_lhs; reflexivity).
    exists m. split; [exact Hm|].
    apply (proj2 (layer_counts_checked (layered 3) (Some (uniform 1 7000))
                    (wkb_of 0 0 2 2) 0 0 ["mean"] 10 None)). exact Hm.
Defined.

Lemma disaggregation_checked_witness :
  (exists e,
     CPP_stats coarse (Some fine) (wkb_of 0 0 4 4) 0 0 ["mean"; "sum"] 100 None =
     ([], inl e) /\ e = DisaggregatedCountSum) /\
  (exists m,
     outcome (CPP_stats coarse (Some fine) (wkb_of 0 0 4 4) 0 0 ["mean"] 100 None) =
     inr m).
Proof.
  destruct (disaggregation_checked coarse (Some fine) (wkb_of 0 0 4 4) 0 0
              ["mean"; "sum"] 100 None eq_refl) as [Hreject Hmean].
  split.
  - destruct (Hreject (or_intror (or_intror (or_introl eq_refl))))
      as (e & He & Hsharp).
    exists e. split; [exact He|].
    apply Hsharp; [lia|reflexivity|discriminate|].
    intros [H|[H|[]]]; discriminate.
  - apply Hmean; [lia|reflexivity|discriminate].
Defined.

Lemma disjoint_bbox_reads_nothing_witness :
  trace_of (CPP_stats square None (wkb_of 5 5 7 7) 0 0
              ["count"; "mean"; "variety"] 4 None) = [] /\
  exists m,
    outcome (CPP_stats square None (wkb_of 5 5 7 7) 0 0
               ["count"; "mean"; "variety"] 4 None) = inr m /\
    nrow m = 1 /\ ncol m = 3 /\
    mget m 0 0 = Some (Dbl 0) /\ mget m 0 1 = Some NA_REAL /\
    mget m 0 2 = Some (Dbl 0).
Proof.
  destruct (disjoint_bbox_reads_nothing square None (wkb_of 5 5 7 7)
              {| xmin := 5; ymin := 5; xmax := 7; ymax := 7 |} 0 0
              ["count"; "mean"; "variety"] 4 None eq_refl eq_refl)
    as [Hquiet Hshape].
  split; [exact Hquiet|].
  destruct Hshape as (m & Hm & Hrows & Hcols & Hcells);
    [lia|reflexivity|reflexivity|reflexivity|].
  exists m. split; [exact Hm|]. split; [exact Hrows|]. split; [exact Hcols|].
  split; [|split].
  - apply (proj1 (Hcells 0 0 ltac:(cbn; lia) ltac:(cbn; lia))).
  - apply (proj1 (Hcells 0 1 ltac:(cbn; lia) ltac:(cbn; lia))).
  - apply (proj1 (Hcells 0 2 ltac:(cbn; lia) ltac:(cbn; lia))).
Defined.



Lemma quantiles_checked_and_expanded_witness :
  (exists e,
     CPP_stats square None (wkb_of 0 0 2 2) 0 0 ["mean"; "quantile"] 100 None =
     ([], inl e) /\ e = QuantilesNotSpecified) /\
  (exists m,
     outcome (CPP_stats square None (wkb_of 0 0 2 2) 0 0
                ["mean"; "quantile"; "max"] 100 (Some [250; 500; 750])) = inr m /\
     ncol m = 5 /\
     mget m 0 1 = Some (Dbl 1500) /\ mget m 0 2 = Some (Dbl 2500) /\
     mget m 0 3 = Some (Dbl 3500)).
Proof.
  split.
  - destruct (proj1 (quantiles_checked_and_expanded square None (wkb_of 0 0 2 2)
                       0 0 ["mean"; "quantile"] 100 None)
                (or_intror (or_introl eq_refl)) (or_introl eq_refl))
      as (e & He & Hsharp).
    exists e. split; [exact He|].
    apply Hsharp; [lia|reflexivity|discriminate|reflexivity].
  - assert (exists m,
              outcome (CPP_stats square None (wkb_of 0 0 2 2) 0 0
                         ["mean"; "quantile"; "max"] 100
                         (Some [250; 500; 750])) = inr m /\ nrow m = 1)
      as (m & Hm & Hrows) by (eexists; split; [eval_lhs; reflexivity|reflexivity]).
    destruct (proj2 (quantiles_checked_and_expanded square None (wkb_of 0 0 2 2)
                       0 0 ["mean"; "quantile"; "max"] 100
                       (Some [250; 500; 750]))
                m {| xmin := 0; ymin := 0; xmax := 2; ymax := 2 |} Hm eq_refl)
      as [Hcols Hq].
    exists m. split; [exact Hm|]. split; [exact Hcols|].
    assert (0 <= 0 < nrow m) as Hj by lia.
    split; [|split].
    + refine (eq_trans (Hq ["mean"] ["max"] 0 0%nat 250 eq_refl Hj eq_refl) _).
      eval_lhs. reflexivity.
    + refine (eq_trans (Hq ["mean"] ["max"] 0 1%nat 500 eq_refl Hj eq_refl) _).
      eval_lhs. reflexivity.
    + refine (eq_trans (Hq ["mean"] ["max"] 0 2%nat 750 eq_refl Hj eq_refl) _).
      eval_lhs. reflexivity.
Defined.

Lemma recycling_equals_duplication_witness :
  (exists m,
     outcome (CPP_stats (layered 3) (Some (uniform 1 7000)) (wkb_of 0 0 2 2) 0 0
                ["mean"; "weighted_mean"; "weighted_sum"] 3 None) = inr m /\
     nrow m = 3 /\ mget m 2 2 = Some (Dbl 602000)) /\
  (exists m,
     outcome (CPP_stats (uniform 1 7000) (Some (layered 3)) (wkb_of 0 0 2 2) 0 0
                ["mean"; "weighted_mean"; "weighted_sum"] 3 None) = inr m /\
     nrow m = 3 /\ mget m 1 2 = Some (Dbl 322000)) /\
  outcome (CPP_stats (layered 3) (Some (uniform 1 7000)) (wkb_of 0 0 2 2) 0 0
             ["mean"; "weighted_mean"; "weighted_sum"] 3 None) =
  outcome (CPP_stats (layered 3) (Some (uniform 3 7000)) (wkb_of 0 0 2 2) 0 0
             ["mean"; "weighted_mean"; "weighted_sum"] 3 None) /\
  outcome (CPP_stats (uniform 1 7000) (Some (layered 3)) (wkb_of 0 0 2 2) 0 0
             ["mean"; "weighted_mean"; "weighted_sum"] 3 None) =
  outcome (CPP_stats (uniform 3 7000) (Some (layered 3)) (wkb_of 0 0 2 2) 0 0
             ["mean"; "weighted_mean"; "weighted_sum"] 3 None).
Proof.
  destruct (recycling_equals_duplication (W := toy_world) (wkb_of 0 0 2 2) 0 0
              ["mean"; "weighted_mean"; "weighted_sum"] 3 None)
    as (Hrecycled_weights & Hrecycled_values & Hweights & Hvalues).
  split; [|split; [|split]].
  - assert (exists m,
              outcome (CPP_stats (layered 3) (Some (uniform 1 7000))
                         (wkb_of 0 0 2 2) 0 0
                         ["mean"; "weighted_mean"; "weighted_sum"] 3 None) = inr m)
      as [m Hm] by (eexists; eval_lhs; reflexivity).
    destruct (Hrecycled_weights (layered 3) (uniform 1 7000)
                {| xmin := 0; ymin := 0; xmax := 2; ymax := 2 |} m
                eq_refl ltac:(cbn; lia) eq_refl Hm) as [Hrows Hcells].
    exists m. split; [exact Hm|]. split; [exact Hrows|].
    refine (eq_trans (Hcells 2 2 ltac:(cbn; lia) ltac:(lia)) _).
    eval_lhs. reflexivity.
  - assert (exists m,
              outcome (CPP_stats (uniform 1 7000) (Some (layered 3))
                         (wkb_of 0 0 2 2) 0 0
                         ["mean"; "weighted_mean"; "weighted_sum"] 3 None) = inr m)
      as [m Hm] by (eexists; eval_lhs; reflexivity).
    destruct (Hrecycled_values (uniform 1 7000) (layered 3)
                {| xmin := 0; ymin := 0; xmax := 2; ymax := 2 |} m
                eq_refl ltac:(cbn; lia) eq_refl Hm) as [Hrows Hcells].
    exists m. split; [exact Hm|]. split; [exact Hrows|].
    refine (eq_trans (Hcells 1 2 ltac:(cbn; lia) ltac:(lia)) _).
    eval_lhs. reflexivity.
  - apply (Hweights (layered 3) (uniform 1 7000) (uniform 3 7000));
      [reflexivity|reflexivity|reflexivity|reflexivity|].
    intros b i Hi. reflexivity.
  - apply (Hvalues (uniform 1 7000) (uniform 3 7000) (layered 3));
      [reflexivity|reflexivity|reflexivity|reflexivity|].
    intros b i Hi. reflexivity.
Defined.

Lemma zero_coverage_degenerate_witness :
  exists m,
    outcome (CPP_stats square None (wkb_of 0 0 2 0) 0 0
               ["count"; "sum"; "variety"; "quantile"] 2 (Some [250; 500])) =
    inr m /\
    nrow m = 1 /\ ncol m = 5 /\
    mget m 0 0 = Some (Dbl 0) /\ mget m 0 1 = Some NA_REAL /\
    mget m 0 2 = Some (Dbl 0) /\ mget m 0 3 = Some NA_REAL /\
    mget m 0 4 = Some NA_REAL.
Proof.
  assert (nothing_covered (reconciled_grid square None)
            {| xmin := 0; ymin := 0; xmax := 2; ymax := 0 |} 2) as Hnone.
  { intros subgrid cell c Hs Hc.
    assert (visited_subgrids (reconciled_grid square None)
              {| xmin := 0; ymin := 0; xmax := 2; ymax := 0 |} 2 =
            [unit_grid 0 0 2 0]) as Hv by (eval_lhs; reflexivity).
    rewrite Hv in Hs. destruct Hs as [<-|[]].
    assert (cov_cells (raster_cell_intersection (unit_grid 0 0 2 0)
                         {| xmin := 0; ymin := 0; xmax := 2; ymax := 0 |}) = [])
      as Hcells by (eval_lhs; reflexivity).
    rewrite Hcells in Hc. destruct Hc. }
  destruct (zero_coverage_degenerate square None (wkb_of 0 0 2 0)
              {| xmin := 0; ymin := 0; xmax := 2; ymax := 0 |} 0 0
              ["count"; "sum"; "variety"; "quantile"] 2 (Some [250; 500])
              eq_refl Hnone ltac:(lia) eq_refl eq_refl eq_refl)
    as (m & Hm & Hrows & Hcols & _ & Hcells).
  exists m. split; [exact Hm|]. split; [exact Hrows|]. split; [exact Hcols|].
  repeat split.
  - apply (Hcells 0 0); cbn; lia.
  - apply (Hcells 0 1); cbn; lia.
  - apply (Hcells 0 2); cbn; lia.
  - apply (Hcells 0 3); cbn; lia.
  - apply (Hcells 0 4); cbn; lia.
Defined.






(** C7: with the value layers "a" and "a.1" and the weight layer "a" -
    names that are unique within each stack - the table has three columns,
    not four: the weight column, renamed to "a.1", has replaced the column
    of the second value layer, although the comment of lines 153-157 calls
    the single suffix safe. *)
Lemma weight_suffix_replaces_value_column :
  outcome (CPP_exact_extract (layered 2) (Some (uniform 1 7000)) (wkb_of 0 0 2 1)
             0 0 false false None ["a"; "a.1"] (Some ["a"]) false) =
  inr [("a", ColNum [0; 1000]); ("a.1", ColNum [7000; 7000]);
       ("coverage_fraction", ColNum [1000; 1000])] /\
  expected_names [] ["a"; "a.1"] ["a"] false false =
  ["a"; "a.1"; "a.1"; "coverage_fraction"].
Proof. split; [eval_lhs; reflexivity|reflexivity]. Qed.

Lemma extraction_table_layout_witness :
  exists cols,
    outcome (CPP_exact_extract (layered 2) (Some (uniform 1 7000))
               (wkb_of 0 0 2 1) 0 0 true true (Some [("id", "f1")])
               ["a"; "b"] (Some ["a"]) false) = inr cols /\
    map fst cols =
    ["id"; "a"; "b"; "a.1"; "x"; "y"; "cell"; "coverage_fraction"] /\
    numeric_rows 2 cols /\
    last cols = Some ("coverage_fraction", ColNum [1000; 1000]).
Proof.
  eexists. split; [eval_lhs; reflexivity|].
  match goal with
  | |- map fst ?cols = _ /\ _ =>
    assert (outcome (CPP_exact_extract (layered 2) (Some (uniform 1 7000))
                       (wkb_of 0 0 2 1) 0 0 true true (Some [("id", "f1")])
                       ["a"; "b"] (Some ["a"]) false) = inr cols) as Hrun
      by (eval_lhs; reflexivity)
  end.
  assert (NoDup (expected_names (map fst (default [] (Some [("id", "f1")])))
                   (layer_names ["a"; "b"] (get_nlayers (layered 2)))
                   (layer_names (default [] (Some ["a"]))
                      (nweights_of (Some (uniform 1 7000))))
                   true true)) as Hnd.
  { apply (bool_decide_unpack _). vm_compute. exact I. }
  destruct (extraction_table_layout _ _ _ _ _ _ _ _ _ _ _ _ Hrun Hnd)
    as (geom & Hwkb & Hnames & _ & _ & Hrows & Hlast).
  injection Hwkb as <-.
  split; [exact Hnames|]. split; [exact Hrows|exact Hlast].
Defined.

(** * Further properties on concrete requests *)

Lemma geometry_checked_third_witness :
  CPP_stats square None [] 0 0 ["bogus"] 5 None = ([], inl GeometryError) /\
  CPP_stats (layered 2) (Some (uniform 3 7000)) [] 0 0 ["bogus"] 5 None =
  ([], inl IncompatibleLayers).
Proof.
  split.
  - exact (geometry_checked_third square None [] 0 0 ["bogus"] 5 None eq_refl).
  - exact (geometry_checked_third (layered 2) (Some (uniform 3 7000)) [] 0 0
             ["bogus"] 5 None eq_refl).
Defined.

Lemma first_rejected_name_decides_witness :
  CPP_stats coarse (Some fine) (wkb_of 0 0 4 4) 0 0 ["mean"; "quantile"; "sum"]
    100 None = ([], inl QuantilesNotSpecified) /\
  CPP_stats coarse (Some fine) (wkb_of 0 0 4 4) 0 0 ["mean"; "sum"; "quantile"]
    100 None = ([], inl DisaggregatedCountSum).
Proof.
  split.
  - apply (first_rejected_name_decides coarse (Some fine) (wkb_of 0 0 4 4) 0 0
             ["mean"] "quantile" ["sum"] 100 None);
      [lia|reflexivity|discriminate|reflexivity|reflexivity].
  - apply (first_rejected_name_decides coarse (Some fine) (wkb_of 0 0 4 4) 0 0
             ["mean"] "sum" ["quantile"] 100 None);
      [lia|reflexivity|discriminate|reflexivity|reflexivity].
Defined.

Lemma first_unknown_name_reported_witness :
  CPP_stats square None (wkb_of 0 0 2 2) 0 0 ["count"; "bogus"; "worse"] 2 None =
  (stats_events square None {| xmin := 0; ymin := 0; xmax := 2; ymax := 2 |} 2,
   inl (UnknownStat "bogus")).
Proof.
  apply (first_unknown_name_reported square None (wkb_of 0 0 2 2)
           {| xmin := 0; ymin := 0; xmax := 2; ymax := 2 |} 0 0
           ["count"] "bogus" ["worse"] 2 None);
    [lia|reflexivity|reflexivity|reflexivity|reflexivity|reflexivity|cbn; lia].
Defined.

Lemma returned_matrix_fully_written_witness :
  exists m,
    outcome (CPP_stats (layered 3) (Some (uniform 1 7000)) (wkb_of 0 0 2 2) 0 0
               ["mean"; "quantile"; "max"] 3 (Some [250; 750])) = inr m /\
    nrow m = 3 /\ ncol m = 4 /\
    forall j i, is_Some (mget m j i) <-> 0 <= j < nrow m /\ 0 <= i < ncol m.
Proof.
  assert (exists m,
            outcome (CPP_stats (layered 3) (Some (uniform 1 7000)) (wkb_of 0 0 2 2)
                       0 0 ["mean"; "quantile"; "max"] 3 (Some [250; 750])) = inr m /\
            nrow m = 3 /\ ncol m = 4)
    as (m & Hm & Hrows & Hcols)
    by (eexists; split; [eval_lhs; reflexivity|split; reflexivity]).
  exists m. split; [exact Hm|]. split; [exact Hrows|]. split; [exact Hcols|].
  exact (returned_matrix_fully_written _ _ _ _ _ _ _ _ m Hm).
Defined.

Lemma quantiles_unused_without_quantile_witness :
  CPP_stats square None (wkb_of 0 0 2 2) 0 0 ["mean"; "median"] 2 None =
  CPP_stats square None (wkb_of 0 0 2 2) 0 0 ["mean"; "median"] 2 (Some [250; 750]).
Proof.
  apply quantiles_unused_without_quantile.
  intros [H|[H|[]]]; discriminate.
Defined.

Lemma majority_column_equals_mode_witness :
  exists m,
    outcome (CPP_stats square None (wkb_of 0 0 2 2) 0 0
               ["mode"; "count"; "majority"] 2 None) = inr m /\
    is_Some (mget m 0 0) /\ mget m 0 2 = mget m 0 0.
Proof.
  assert (exists m,
            outcome (CPP_stats square None (wkb_of 0 0 2 2) 0 0
                       ["mode"; "count"; "majority"] 2 None) = inr m /\ nrow m = 1)
    as (m & Hm & Hrows) by (eexists; split; [eval_lhs; reflexivity|reflexivity]).
  exists m. split; [exact Hm|].
  assert (0 <= 0 < nrow m) as Hj by lia.
  exact (majority_column_equals_mode square None (wkb_of 0 0 2 2) 0 0
           ["mode"; "count"; "majority"] [] ["count"; "majority"]
           ["mode"; "count"] [] 2 None m Hm eq_refl eq_refl 0 Hj).
Defined.

Lemma median_column_equals_half_quantile_witness :
  exists m,
    outcome (CPP_stats square None (wkb_of 0 0 2 2) 0 0
               ["median"; "quantile"] 2 (Some [250; 500])) = inr m /\
    is_Some (mget m 0 0) /\ mget m 0 2 = mget m 0 0.
Proof.
  assert (exists m,
            outcome (CPP_stats square None (wkb_of 0 0 2 2) 0 0
                       ["median"; "quantile"] 2 (Some [250; 500])) = inr m /\
            nrow m = 1)
    as (m & Hm & Hrows) by (eexists; split; [eval_lhs; reflexivity|reflexivity]).
  exists m. split; [exact Hm|].
  assert (0 <= 0 < nrow m) as Hj by lia.
  exact (median_column_equals_half_quantile square None (wkb_of 0 0 2 2) 0 0
           ["median"; "quantile"] [] ["quantile"] ["median"] [] 2 [250; 500]
           1%nat m Hm eq_refl eq_refl eq_refl 0 Hj).
Defined.

Lemma empty_request_still_reads_witness :
  CPP_stats (layered 2) None (wkb_of 0 0 2 2) 0 0 [] 100 None =
  ([EvSubdivide (unit_grid 0 0 2 2) 100;
    EvCoverage (unit_grid 0 0 2 2);
    EvReadValues {| xmin := 0; ymin := 0; xmax := 2; ymax := 2 |} 0;
    EvReadValues {| xmin := 0; ymin := 0; xmax := 2; ymax := 2 |} 1],
   inr (no_init 2 0)).
Proof.
  refine (eq_trans
            (empty_request_still_reads (layered 2) None (wkb_of 0 0 2 2)
               {| xmin := 0; ymin := 0; xmax := 2; ymax := 2 |} 0 0 100 None
               ltac:(lia) eq_refl eq_refl) _).
  eval_lhs. reflexivity.
Defined.

Lemma coverage_once_per_subgrid_witness :
  coverage_calls (trace_of (CPP_stats square None (wkb_of 0 0 2 2) 0 0 ["mean"] 2
                              None)) =
  [unit_grid 0 1 2 2; unit_grid 0 0 2 1] /\
  planner_calls (trace_of (CPP_stats square None (wkb_of 0 0 2 2) 0 0 ["mean"] 2
                             None)) =
  [(unit_grid 0 0 2 2, 2)].
Proof.
  destruct (coverage_once_per_subgrid square None (wkb_of 0 0 2 2)
              {| xmin := 0; ymin := 0; xmax := 2; ymax := 2 |} 0 0 ["mean"] 2 None
              eq_refl ltac:(lia) eq_refl eq_refl) as (Hc & Hp & _).
  split.
  - refine (eq_trans Hc _). eval_lhs. reflexivity.
  - refine (eq_trans Hp _). eval_lhs. reflexivity.
Defined.

Lemma recycled_layer_read_once_witness :
  weight_reads (trace_of (CPP_stats (layered 3) (Some (uniform 1 7000))
                            (wkb_of 0 0 2 2) 0 0 ["weighted_mean"] 3 None)) =
  [({| xmin := 0; ymin := 1; xmax := 2; ymax := 2 |}, 0);
   ({| xmin := 0; ymin := 0; xmax := 2; ymax := 1 |}, 0)] /\
  value_reads (trace_of (CPP_stats (uniform 1 7000) (Some (layered 3))
                           (wkb_of 0 0 2 2) 0 0 ["weighted_mean"] 3 None)) =
  [({| xmin := 0; ymin := 1; xmax := 2; ymax := 2 |}, 0);
   ({| xmin := 0; ymin := 0; xmax := 2; ymax := 1 |}, 0)].
Proof.
  split.
  - destruct (proj1 (recycled_layer_read_once (layered 3) (uniform 1 7000)
                       (wkb_of 0 0 2 2)
                       {| xmin := 0; ymin := 0; xmax := 2; ymax := 2 |} 0 0
                       ["weighted_mean"] 3 None eq_refl ltac:(lia) eq_refl eq_refl))
      as [Hw _]; [cbn; lia|].
    refine (eq_trans Hw _). eval_lhs. reflexivity.
  - destruct (proj2 (recycled_layer_read_once (uniform 1 7000) (layered 3)
                       (wkb_of 0 0 2 2)
                       {| xmin := 0; ymin := 0; xmax := 2; ymax := 2 |} 0 0
                       ["weighted_mean"] 3 None eq_refl ltac:(lia) eq_refl eq_refl))
      as [Hv _]; [cbn; lia|].
    refine (eq_trans Hv _). eval_lhs. reflexivity.
Defined.

Lemma reads_within_bounds_witness :
  (forall b i,
     In (b, i) (value_reads (trace_of (CPP_stats (layered 3) (Some (uniform 1 7000))
                                         (wkb_of 0 0 2 2) 0 0 ["mean"] 3 None))) ->
     0 <= i < 3) /\
  (forall b i,
     In (b, i) (weight_reads (trace_of (CPP_stats (layered 3) (Some (uniform 1 7000))
                                          (wkb_of 0 0 2 2) 0 0 ["mean"] 3 None))) ->
     0 <= i < 1).
Proof.
  destruct (reads_within_bounds (layered 3) (Some (uniform 1 7000)) (wkb_of 0 0 2 2)
              {| xmin := 0; ymin := 0; xmax := 2; ymax := 2 |} 0 0 ["mean"] 3 None
              eq_refl ltac:(lia) eq_refl eq_refl ltac:(cbn; lia)
              ltac:(intros w [= <-]; cbn; lia)) as (Hv & Hw & _).
  split.
  - intros b i H. exact (proj1 (Hv b i H)).
  - intros b i H. exact (proj1 (Hw b i H)).
Defined.

Lemma empty_coverage_windows_skipped_witness :
  exists m,
    CPP_stats square None (wkb_of 0 0 2 0) 0 0 ["count"; "min"] 2 None =
    (stats_events square None {| xmin := 0; ymin := 0; xmax := 2; ymax := 0 |} 2,
     inr m) /\
    value_reads
      (stats_events square None {| xmin := 0; ymin := 0; xmax := 2; ymax := 0 |} 2)
    = [] /\
    coverage_calls
      (stats_events square None {| xmin := 0; ymin := 0; xmax := 2; ymax := 0 |} 2)
    = [unit_grid 0 0 2 0].
Proof.
  destruct (empty_coverage_windows_skipped square None (wkb_of 0 0 2 0)
              {| xmin := 0; ymin := 0; xmax := 2; ymax := 0 |} 0 0
              ["count"; "min"] 2 None ltac:(lia) eq_refl eq_refl eq_refl eq_refl)
    as (m & Hm & Hv & _ & Hc & _).
  { intros subgrid Hs.
    assert (visited_subgrids (reconciled_grid square None)
              {| xmin := 0; ymin := 0; xmax := 2; ymax := 0 |} 2 =
            [unit_grid 0 0 2 0]) as Hvis by (eval_lhs; reflexivity).
    rewrite Hvis in Hs. destruct Hs as [<-|[]]. reflexivity. }
  exists m. split; [exact Hm|]. split; [exact Hv|].
  refine (eq_trans Hc _). eval_lhs. reflexivity.
Defined.

Lemma statistic_columns_follow_request_witness :
  exists m,
    outcome (CPP_stats square None (wkb_of 0 0 2 2) 0 0
               ["mean"; "quantile"; "max"] 100 (Some [250; 500; 750])) = inr m /\
    exists cells,
      stat_cells (final_row square None
                    {| xmin := 0; ymin := 0; xmax := 2; ymax := 2 |} 0 0
                    ["mean"; "quantile"; "max"] 100 0)
        (Some [250; 500; 750]) "max" = Some cells /\
      Z.of_nat (length cells) = 1 /\
      forall k, (k < length cells)%nat -> mget m 0 (4 + Z.of_nat k) = cells !! k.
Proof.
  assert (exists m,
            outcome (CPP_stats square None (wkb_of 0 0 2 2) 0 0
                       ["mean"; "quantile"; "max"] 100
                       (Some [250; 500; 750])) = inr m /\ nrow m = 1)
    as (m & Hm & Hrows) by (eexists; split; [eval_lhs; reflexivity|reflexivity]).
  exists m. split; [exact Hm|].
  assert (0 <= 0 < nrow m) as Hj by lia.
  exact (statistic_columns_follow_request square None (wkb_of 0 0 2 2)
           {| xmin := 0; ymin := 0; xmax := 2; ymax := 2 |} 0 0
           ["mean"; "quantile"] "max" [] 100 (Some [250; 500; 750]) m
           eq_refl Hm 0 Hj).
Defined.

Lemma extract_columns_distinct_witness :
  exists cols,
    outcome (CPP_exact_extract (layered 2) (Some (uniform 1 7000)) (wkb_of 0 0 2 1)
               0 0 false false None ["a"; "a.1"] (Some ["a"]) false) = inr cols /\
    NoDup (map fst cols).
Proof.
  assert (exists cols,
            outcome (CPP_exact_extract (layered 2) (Some (uniform 1 7000))
                       (wkb_of 0 0 2 1) 0 0 false false None ["a"; "a.1"]
                       (Some ["a"]) false) = inr cols)
    as [cols Hrun] by (eexists; eval_lhs; reflexivity).
  exists cols. split; [exact Hrun|].
  exact (proj1 (extract_columns_distinct _ _ _ _ _ _ _ _ _ _ _ cols Hrun)).
Defined.

Lemma extract_bad_geometry_witness :
  CPP_exact_extract coarse (Some fine) [] 0 0 true true None ["v"] (Some ["w"]) true =
  (disaggregation_warning, inl GeometryError).
Proof.
  exact (extract_bad_geometry coarse (Some fine) [] 0 0 true true None ["v"]
           (Some ["w"]) true eq_refl).
Defined.

Lemma extract_single_window_witness :
  coverage_calls
    (trace_of (CPP_exact_extract fine None (wkb_of 1 1 3 4) 0 0 false false None
                 ["v"] None false)) =
  [unit_grid 1 1 3 4] /\
  planner_calls
    (trace_of (CPP_exact_extract fine None (wkb_of 1 1 3 4) 0 0 false false None
                 ["v"] None false)) = [].
Proof.
  exact (extract_single_window fine None (wkb_of 1 1 3 4)
           {| xmin := 1; ymin := 1; xmax := 3; ymax := 4 |} 0 0 false false None
           ["v"] None false eq_refl).
Defined.

Lemma extract_reads_each_layer_once_witness :
  filter (fun ev => is_read ev = true)
    (trace_of (CPP_exact_extract (layered 2) (Some (uniform 1 7000))
                 (wkb_of 0 0 2 1) 0 0 false false None ["a"; "b"] (Some ["w"])
                 false)) =
  [EvReadValues {| xmin := 0; ymin := 0; xmax := 2; ymax := 1 |} 0;
   EvReadValues {| xmin := 0; ymin := 0; xmax := 2; ymax := 1 |} 1;
   EvReadWeights {| xmin := 0; ymin := 0; xmax := 2; ymax := 1 |} 0].
Proof.
  assert (exists cols,
            outcome (CPP_exact_extract (layered 2) (Some (uniform 1 7000))
                       (wkb_of 0 0 2 1) 0 0 false false None ["a"; "b"]
                       (Some ["w"]) false) = inr cols)
    as [cols Hrun] by (eexists; eval_lhs; reflexivity).
  exact (extract_reads_each_layer_once (layered 2) (Some (uniform 1 7000))
           (wkb_of 0 0 2 1) {| xmin := 0; ymin := 0; xmax := 2; ymax := 1 |}
           0 0 false false None ["a"; "b"] (Some ["w"]) false cols eq_refl Hrun).
Defined.

Lemma extract_coordinates_source_witness :
  exists cols,
    outcome (CPP_exact_extract coarse (Some fine) (wkb_of 0 0 2 1) 0 0 true true
               None ["v"] (Some ["w"]) false) = inr cols /\
    get_named cols "x" = Some (ColNum [500; 1500]) /\
    get_named cols "y" = Some (ColNum [500; 500]) /\
    get_named cols "cell" = Some (ColNum [3000; 3000]).
Proof.
  assert (exists cols,
            outcome (CPP_exact_extract coarse (Some fine) (wkb_of 0 0 2 1) 0 0
                       true true None ["v"] (Some ["w"]) false) = inr cols)
    as [cols Hrun] by (eexists; eval_lhs; reflexivity).
  exists cols. split; [exact Hrun|].
  destruct (extract_coordinates_source coarse (Some fine) (wkb_of 0 0 2 1)
              {| xmin := 0; ymin := 0; xmax := 2; ymax := 1 |} 0 0 true true None
              ["v"] (Some ["w"]) false cols eq_refl Hrun) as [Hxy Hcell].
  destruct (Hxy eq_refl) as [Hx Hy]. specialize (Hcell eq_refl).
  split; [|split].
  - refine (eq_trans Hx _). eval_lhs. reflexivity.
  - refine (eq_trans Hy _). eval_lhs. reflexivity.
  - refine (eq_trans Hcell _). eval_lhs. reflexivity.
Defined.
